(** * SmokeForge blueprint audit scripts: a shallow embedding and its properties

    The development follows the Python scripts of the repository:
    - [audit_locators.py]            (module [AuditLocators])
    - [validate_chunks.py]           (module [ValidateChunks])
    - [scripts/audit_blueprints.py]  (module [AuditBlueprints])
    - [scripts/validate_blueprints.py] (module [ValidateBlueprints])
    - [scripts/check_locators.py]    (module [CheckLocators])
    - [scripts/check_fk_coverage.py] (module [CheckFkCoverage])
    - [scripts/confidence_score.py]  (module [ConfidenceScore])
    - [scripts/deep_validate.py]     (module [DeepValidate])

    Conventions of the embedding.
    - A Python [str] is a [string]; each [ascii] stands for one code point
      below 256.  Literals of the scripts that only decorate a message
      (dashes, emoji) are not part of any test the scripts perform and are
      left out of the model.
    - A JSON document is read into the records of section [Document model];
      a key that the scripts read with [.get(k, default)] is a field whose
      absence is [None] (or the default itself when the script only ever
      uses the default).
    - A finding that the scripts build with an f-string ["TAG:{x} ..."] is a
      constructor [TAG x] of an inductive type: the tag is the constructor,
      the interpolated values are its arguments.
    - A Python [int] is a [Z]; a JSON number that is compared with a float
      literal is a [Q] holding its exact value. *)

From Stdlib Require Import ZArith QArith Lia Bool Ascii.
From stdpp Require Import base list strings gmap.

(* ===================================================================== *)
(** * Python string primitives *)
(* ===================================================================== *)

Module PyStr.

(** [str.isspace] on one code point below 256 (also the class [\s] of
    [re] on [str] patterns): TAB..CR, FS..US, SPACE, NEL and NBSP. *)
Definition isspace (c : ascii) : bool :=
  let n := nat_of_ascii c in
  (((9 <=? n) && (n <=? 13)) || ((28 <=? n) && (n <=? 32))
   || (n =? 133) || (n =? 160))%nat.

(** [c.lower()] on one code point below 256: A..Z and the Latin-1
    capitals (all of 0xC0..0xDE but the multiplication sign) move up by
    32. *)
Definition lower_char (c : ascii) : ascii :=
  let n := nat_of_ascii c in
  if (((65 <=? n) && (n <=? 90))
      || ((192 <=? n) && (n <=? 222) && negb (n =? 215)))%nat
  then ascii_of_nat (n + 32) else c.

(** [s.lower()] *)
Fixpoint lower (s : string) : string :=
  match s with
  | EmptyString => EmptyString
  | String c s' => String (lower_char c) (lower s')
  end.

(** [s.startswith(p)] *)
Fixpoint startswith (p s : string) : bool :=
  match p, s with
  | EmptyString, _ => true
  | String a p', String b s' => Ascii.eqb a b && startswith p' s'
  | String _ _, EmptyString => false
  end.

(** [s.endswith(suf)]: some tail of [s] is [suf]. *)
Fixpoint endswith (suf s : string) : bool :=
  String.eqb s suf
  || match s with
     | EmptyString => false
     | String _ s' => endswith suf s'
     end.

(** [sub in s] *)
Fixpoint contains (sub s : string) : bool :=
  startswith sub s
  || match s with
     | EmptyString => false
     | String _ s' => contains sub s'
     end.

(** All code points are white space ([s] matches [\s*] entirely). *)
Fixpoint all_space (s : string) : bool :=
  match s with
  | EmptyString => true
  | String c s' => isspace c && all_space s'
  end.

(** [s.lstrip()] *)
Fixpoint lstrip (s : string) : string :=
  match s with
  | EmptyString => EmptyString
  | String c s' => if isspace c then lstrip s' else s
  end.

(** [s.rstrip()] *)
Fixpoint rstrip (s : string) : string :=
  match s with
  | EmptyString => EmptyString
  | String c s' =>
      let r := rstrip s' in
      match r with
      | EmptyString => if isspace c then EmptyString else String c EmptyString
      | String _ _ => String c r
      end
  end.

(** [s.strip()] *)
Definition strip (s : string) : string := rstrip (lstrip s).

(** [s[:n]] *)
Fixpoint take (n : nat) (s : string) {struct s} : string :=
  match n, s with
  | S k, String c s' => String c (take k s')
  | _, _ => EmptyString
  end.

(** [s.replace(old, "")] for a non-empty [old]: scan from the left, drop
    each occurrence of [old] and go on after it ([skip] counts the code
    points of the occurrence that are still to be dropped). *)
Fixpoint remove_from (old : string) (skip : nat) (s : string) : string :=
  match s with
  | EmptyString => EmptyString
  | String c s' =>
      match skip with
      | S k => remove_from old k s'
      | O => if startswith old s
             then remove_from old (String.length old - 1) s'
             else String c (remove_from old 0 s')
      end
  end.

(** [s.replace(old, "")]; replacing the empty string by the empty string
    leaves [s] as it is. *)
Definition remove_all (old s : string) : string :=
  match old with
  | EmptyString => s
  | String _ _ => remove_from old 0 s
  end.

(** [c.upper()] on one code point below 256 whose capital is one code
    point below 256 as well: a..z and the Latin-1 small letters move down
    by 32; the three small letters whose capital lies elsewhere (the
    sharp s, the micro sign and y with diaeresis) stay as they are, and
    so does every text that has none of them. *)
Definition upper_char (c : ascii) : ascii :=
  let n := nat_of_ascii c in
  if (((97 <=? n) && (n <=? 122))
      || ((224 <=? n) && (n <=? 254) && negb (n =? 247)))%nat
  then ascii_of_nat (n - 32) else c.

(** [s.upper()] *)
Fixpoint upper (s : string) : string :=
  match s with
  | EmptyString => EmptyString
  | String c s' => String (upper_char c) (upper s')
  end.

(** The line boundaries of [str.splitlines] below 256: LF, VT, FF, CR,
    FS, GS, RS and NEL (CR LF counts as one boundary). *)
Definition is_linebreak (c : ascii) : bool :=
  let n := nat_of_ascii c in
  (((10 <=? n) && (n <=? 13)) || ((28 <=? n) && (n <=? 30))
   || (n =? 133))%nat.

(** [s.splitlines()] *)
Fixpoint splitlines (s : string) : list string :=
  match s with
  | EmptyString => []
  | String c s' =>
      if is_linebreak c then
        match s' with
        | String c2 s'' =>
            if Ascii.eqb c "013" && Ascii.eqb c2 "010"
            then EmptyString :: splitlines s''
            else EmptyString :: splitlines s'
        | EmptyString => [EmptyString]
        end
      else
        match splitlines s' with
        | [] => [String c EmptyString]
        | l :: ls => String c l :: ls
        end
  end.

(** Truth value of a string: [bool(s)]. *)
Definition nonempty (s : string) : bool :=
  match s with EmptyString => false | String _ _ => true end.

(** [x in xs] for a list (or set) of strings. *)
Definition mem (x : string) (xs : list string) : bool :=
  existsb (String.eqb x) xs.

End PyStr.

(* ===================================================================== *)
(** * The regular expressions of the scripts *)
(* ===================================================================== *)

Module PyRe.

(** The class [\w] on one code point below 256: the code points for
    which [str.isalnum] holds, and the underscore. *)
Definition isword (c : ascii) : bool :=
  let n := nat_of_ascii c in
  (((48 <=? n) && (n <=? 57)) || ((65 <=? n) && (n <=? 90))
   || ((97 <=? n) && (n <=? 122)) || (n =? 95)
   || (n =? 170) || (n =? 178) || (n =? 179) || (n =? 181)
   || (n =? 185) || (n =? 186) || ((188 <=? n) && (n <=? 190))
   || ((192 <=? n) && (n <=? 214)) || ((216 <=? n) && (n <=? 246))
   || (248 <=? n))%nat.

(** The longest prefix of [s] made of [\w] code points ([\w*], greedy). *)
Fixpoint word_prefix (s : string) : string :=
  match s with
  | EmptyString => EmptyString
  | String c s' => if isword c then String c (word_prefix s') else EmptyString
  end.

(** [re.findall(r":(\w+)", s)].  A colon is not a [\w] code point, so no
    match starts inside the word of an earlier match, and the scan may go
    on right behind each colon. *)
Fixpoint colon_tokens (s : string) : list string :=
  match s with
  | EmptyString => []
  | String c s' =>
      if Ascii.eqb c ":"
      then match word_prefix s' with
           | EmptyString => colon_tokens s'
           | w => w :: colon_tokens s'
           end
      else colon_tokens s'
  end.

(** What is left of [s] behind its longest [\w] prefix. *)
Fixpoint after_word (s : string) : string :=
  match s with
  | EmptyString => EmptyString
  | String c s' => if isword c then after_word s' else s
  end.

(** [bool(re.findall(r":(\w+)|\{(\w+)\}", s))]: some position starts a
    colon followed by a word, or a word in braces.  A closing brace is
    not a [\w] code point, so the word in braces is the longest one. *)
Fixpoint has_dynamic_seg (s : string) : bool :=
  match s with
  | EmptyString => false
  | String c s' =>
      (Ascii.eqb c ":" && PyStr.nonempty (word_prefix s'))
      || (Ascii.eqb c "{" && PyStr.nonempty (word_prefix s')
          && PyStr.startswith "}" (after_word s'))
      || has_dynamic_seg s'
  end.

(** The classes [[a-zA-Z]] and [[a-zA-Z0-9_-]]. *)
Definition isletter (c : ascii) : bool :=
  let n := nat_of_ascii c in
  (((65 <=? n) && (n <=? 90)) || ((97 <=? n) && (n <=? 122)))%nat.

Definition issegchar (c : ascii) : bool :=
  let n := nat_of_ascii c in
  (isletter c || ((48 <=? n) && (n <=? 57)) || (n =? 95) || (n =? 45))%nat.

Fixpoint after_segchars (s : string) : string :=
  match s with
  | EmptyString => EmptyString
  | String c s' => if issegchar c then after_segchars s' else s
  end.

(** [bool(re.search(r'\[[a-zA-Z][a-zA-Z0-9_-]*\]', s))].  A closing
    bracket is not in the second class, so the run behind the letter is
    the longest one. *)
Fixpoint has_bare_segment (s : string) : bool :=
  match s with
  | EmptyString => false
  | String c s' =>
      (Ascii.eqb c "[" &&
       match s' with
       | String l rest =>
           isletter l && PyStr.startswith "]" (after_segchars rest)
       | EmptyString => false
       end)
      || has_bare_segment s'
  end.

(** [bool(re.search(r'Id$', s, re.I))]: the text ends in [id], in either
    case of each letter; the anchor also matches in front of a newline
    that ends the text. *)
Definition ends_in_id (s : string) : bool :=
  let low := PyStr.lower s in
  PyStr.endswith "id" low
  || PyStr.endswith (String "i" (String "d" (String "010" EmptyString))) low.

End PyRe.

(* ===================================================================== *)
(** * Loops that may raise *)
(* ===================================================================== *)

(** A loop whose body may raise an exception that nothing catches:
    [None] stands for the exception, which ends the loop and everything
    around it. *)
Fixpoint fold_opt {A B} (f : B -> A -> option B) (l : list A) (b : B)
  : option B :=
  match l with
  | [] => Some b
  | x :: l' =>
      match f b x with
      | Some b' => fold_opt f l' b'
      | None => None
      end
  end.

(* ===================================================================== *)
(** * Document model *)
(* ===================================================================== *)

(** A JSON value, as [json.load] returns it.  Every number is finite and is
    held with its exact value. *)
#[local] Unset Elimination Schemes.
Inductive json : Type :=
| JNull
| JBool (b : bool)
| JNum (q : Q)
| JStr (s : string)
| JArr (items : list json)
| JObj (members : list (string * json)).
#[local] Set Elimination Schemes.

(** Truth value of a JSON value: [bool(v)]. *)
Definition truthy (v : json) : bool :=
  match v with
  | JNull => false
  | JBool b => b
  | JNum q => negb (Qeq_bool q 0)
  | JStr s => PyStr.nonempty s
  | JArr items => match items with [] => false | _ => true end
  | JObj members => match members with [] => false | _ => true end
  end.

(** [not d.get(k)] for a key whose value is any JSON value. *)
Definition missing (v : option json) : bool :=
  match v with None => true | Some x => negb (truthy x) end.

(** [not d.get(k)] for a key whose value is a string. *)
Definition blank (v : option string) : bool :=
  match v with None => true | Some s => negb (PyStr.nonempty s) end.

(** [x < y] on exact values. *)
Definition Qltb (x y : Q) : bool := (Qnum x * QDen y <? Qnum y * QDen x)%Z.

(** The binary64 values of the float literals of the scripts. *)
Definition float_0_5 : Q := 1 # 2.
Definition float_0_6 : Q := 5404319552844595 # 9007199254740992.
Definition float_0_7 : Q := 6305039478318694 # 9007199254740992.

(** An entry of [pathParams], [queryParams] or [routeParams]. *)
Record Param := mkParam {
  param_name : string;
  param_required : bool;
  param_example : option json
}.

(** An entry of [requestBody.fields]. *)
Record Field := mkField {
  field_name : string;
  field_type : option string;
  field_required : bool;
  field_example : option json
}.

Record RequestBody := mkBody {
  body_source : string;
  body_inferred : option bool;
  body_fields : list Field
}.

Record Endpoint := mkEndpoint {
  ep_id : string;
  ep_method : string;
  ep_path : string;
  ep_pathParams : list Param;
  ep_queryParams : list Param;
  ep_requestBody : option RequestBody;
  ep_hasResponseSchema : bool;
  ep_authRequired : option bool;
  ep_authType : option string;
  ep_domain : option string;
  ep_confidence : option Q;
  ep_flags : list string;
  ep_isPageRoute : bool
}.

Record Locator := mkLocator {
  loc_name : option string;
  loc_strategy : option string;
  loc_playwrightCode : string;
  loc_flags : list string;
  loc_isInteractive : bool;
  loc_isConditional : bool;
  loc_isDynamic : bool;
  loc_confidence : option Q
}.

Record Page := mkPage {
  pg_id : string;
  pg_route : option string;
  pg_title : option string;
  pg_authRequired : option bool;
  pg_isDynamic : bool;
  pg_routeParams : list Param;
  pg_locators : list Locator;
  pg_confidence : option Q
}.

(** The [credentials] object that [audit_blueprints.py] reads. *)
Record Credentials := mkCredentials {
  cred_emailField : option string;
  cred_passwordField : option string;
  cred_email : option string;
  cred_password : option string
}.

(** The [auth] object.  [auth_emailField] and [auth_passwordField] are
    the two keys of its [credentialsFields] object, absent also when that
    object is.  [auth_other_keys] tells whether the object has any key
    besides the ones listed here (an object is true when it has a
    key). *)
Record AuthConfig := mkAuth {
  auth_tokenType : option string;
  auth_type : option string;
  auth_loginEndpoint : option string;
  auth_loginBodyFormat : option string;
  auth_credentials : option Credentials;
  auth_emailField : option string;
  auth_passwordField : option string;
  auth_defaultEmail : option string;
  auth_defaultPassword : option string;
  auth_authCookieName : option string;
  auth_tokenResponsePath : option string;
  auth_other_keys : bool
}.

Definition is_some {A} (o : option A) : bool :=
  match o with Some _ => true | None => false end.

(** [bool(auth)] for an [auth] object: it has at least one key. *)
Definition auth_nonempty (a : AuthConfig) : bool :=
  is_some (auth_tokenType a) || is_some (auth_type a)
  || is_some (auth_loginEndpoint a) || is_some (auth_loginBodyFormat a)
  || is_some (auth_credentials a) || is_some (auth_emailField a)
  || is_some (auth_passwordField a) || is_some (auth_defaultEmail a)
  || is_some (auth_defaultPassword a) || is_some (auth_authCookieName a)
  || is_some (auth_tokenResponsePath a) || auth_other_keys a.

(** [bool(bp.get("auth"))] *)
Definition auth_present (a : option AuthConfig) : bool :=
  match a with None => false | Some x => auth_nonempty x end.

Record Blueprint := mkBlueprint {
  bp_auth : option AuthConfig;
  bp_endpoints : list Endpoint;
  bp_pages : list Page
}.

(** The [chunk] object of a chunk file. *)
Record ChunkData := mkChunkData {
  cd_domain : option string;
  cd_endpoints : list Endpoint;
  cd_pages : list Page;
  cd_auth : option AuthConfig
}.

(** A chunk file: its name and the document it holds. *)
Record ChunkFile := mkChunkFile {
  cf_name : string;
  cf_domain : option string;
  cf_llmUserMessage : string;
  cf_chunk : ChunkData
}.

(* ===================================================================== *)
(** * audit_locators.py *)
(* ===================================================================== *)

Module AuditLocators.

(** The entries of a locator's [problems] list. *)
Inductive problem : Type :=
| UNQUALIFIED_ROLE (role : string)
| DUPLICATE_ON_PAGE (names : list string)
| DYNAMIC_LIST_INTERACTIVE
| DYNAMIC_LIST_VIEW
| HEADING_PARTIAL
| ROLE_MAIN
| CONDITIONAL.

(** The alternatives of the group of the role pattern, in its order. *)
Definition interactive_roles : list string :=
  ["textbox"; "combobox"; "spinbutton"; "button"; "link"; "checkbox";
   "radio"; "tab"; "menuitem"].

(** The text [getByRole('<r>')] that the pattern matches for role [r]. *)
Definition role_call (r : string) : string :=
  "getByRole('" +:+ r +:+ "')".

(** [s] without its prefix [p], when it has it. *)
Fixpoint drop_prefix (p s : string) : option string :=
  match p, s with
  | EmptyString, _ => Some s
  | String a p', String b s' =>
      if Ascii.eqb a b then drop_prefix p' s' else None
  | String _ _, EmptyString => None
  end.

(** The pattern [getByRole\('(textbox|...|menuitem)'\)\s*$] matched at
    the start of [s]; the result is group 1.  After the call only white
    space may follow up to the end of the text. *)
Definition match_here (s : string) : option string :=
  List.find
    (fun r => match drop_prefix (role_call r) s with
              | Some rest => PyStr.all_space rest
              | None => false
              end)
    interactive_roles.

(** [re.search(pattern, pw)]: the leftmost position with a match. *)
Fixpoint unqualified_match (pw : string) : option string :=
  match match_here pw with
  | Some r => Some r
  | None =>
      match pw with
      | EmptyString => None
      | String _ pw' => unqualified_match pw'
      end
  end.

(** [re.search(r"name: '.*\($'\)", pw)]: the pattern asks for a quote
    after the end-of-text anchor, so no text matches it. *)
Definition heading_partial_match (pw : string) : bool := false.

Definition name_of (loc : Locator) : string := default "?" (loc_name loc).
Definition pw_of (loc : Locator) : string :=
  PyStr.strip (loc_playwrightCode loc).

(** [pw_codes_on_page[pw]] of a [defaultdict(list)] *)
Definition names_for (codes : gmap string (list string)) (pw : string)
  : list string := default [] (codes !! pw).

(** One round of the first loop over the locators of a page. *)
Definition record_code (codes : gmap string (list string)) (loc : Locator)
  : gmap string (list string) :=
  let pw := pw_of loc in
  if PyStr.nonempty pw
  then <[pw := names_for codes pw ++ [name_of loc]]> codes
  else codes.

Definition pw_codes_on_page (locs : list Locator)
  : gmap string (list string) :=
  foldl record_code ∅ locs.

(** The body of the second loop: the problems of one locator. *)
Definition problems_of (codes : gmap string (list string)) (loc : Locator)
  : list problem :=
  let pw := pw_of loc in
  let flags := loc_flags loc in
  let is_inter := loc_isInteractive loc in
  (match unqualified_match pw with
   | Some r => if is_inter then [UNQUALIFIED_ROLE r] else []
   | None => []
   end)
  ++ (if PyStr.nonempty pw && (1 <? length (names_for codes pw))%nat
      then [DUPLICATE_ON_PAGE (names_for codes pw)] else [])
  ++ (if PyStr.mem "DYNAMIC_LIST" flags && is_inter
      then [DYNAMIC_LIST_INTERACTIVE] else [])
  ++ (if PyStr.mem "DYNAMIC_LIST" flags && negb is_inter
      then [DYNAMIC_LIST_VIEW] else [])
  ++ (if PyStr.contains "heading" pw && heading_partial_match pw
      then [HEADING_PARTIAL] else [])
  ++ (if PyStr.contains "getByRole('main')" pw then [ROLE_MAIN] else [])
  ++ (if loc_isConditional loc then [CONDITIONAL] else []).

(** An entry of [PROBLEMS]. *)
Record entry := mkEntry {
  e_route : string;
  e_name : string;
  e_pw : string;
  e_strategy : string;
  e_interactive : bool;
  e_problems : list problem
}.

Definition entry_of (route : string) (codes : gmap string (list string))
    (loc : Locator) : list entry :=
  match problems_of codes loc with
  | [] => []
  | ps => [mkEntry route (name_of loc) (pw_of loc)
             (default "?" (loc_strategy loc)) (loc_isInteractive loc) ps]
  end.

(** The body of the loop over [page_locators]. *)
Definition audit_page (pg : Page) : list entry :=
  let route := default "?" (pg_route pg) in
  let locs := pg_locators pg in
  let codes := pw_codes_on_page locs in
  flat_map (entry_of route codes) locs.

Definition PROBLEMS (bp : Blueprint) : list entry :=
  flat_map audit_page (bp_pages bp).

(** The pieces of a message in which a keyword in capitals can occur: the
    tag and the interpolated names (the role of [UNQUALIFIED_ROLE] is one
    of the lower-case alternatives, the rest of each message is a fixed
    text without capitals). *)
Definition message_parts (p : problem) : list string :=
  match p with
  | UNQUALIFIED_ROLE _ => ["UNQUALIFIED_ROLE"]
  | DUPLICATE_ON_PAGE names => "DUPLICATE_ON_PAGE" :: names
  | DYNAMIC_LIST_INTERACTIVE => ["DYNAMIC_LIST_INTERACTIVE"]
  | DYNAMIC_LIST_VIEW => ["DYNAMIC_LIST_VIEW"]
  | HEADING_PARTIAL => ["HEADING_PARTIAL"]
  | ROLE_MAIN => ["ROLE_MAIN"]
  | CONDITIONAL => ["CONDITIONAL"]
  end.

(** [k in prob] *)
Definition mentions (k : string) (p : problem) : bool :=
  existsb (PyStr.contains k) (message_parts p).

Definition strict_keys : list string :=
  ["UNQUALIFIED_ROLE"; "DUPLICATE_ON_PAGE"; "DYNAMIC_LIST_INTERACTIVE"].

Definition is_strict (e : entry) : bool :=
  existsb (fun prob => existsb (fun k => mentions k prob) strict_keys)
          (e_problems e).

Definition is_likely (e : entry) : bool :=
  existsb (mentions "CONDITIONAL") (e_problems e).

Definition strict_failures (ps : list entry) : list entry :=
  List.filter is_strict ps.
Definition likely_failures (ps : list entry) : list entry :=
  List.filter is_likely ps.

Inductive verdict := NO_FIX_STRICT_FIRST | LIKELY_YES | YES_CLEAN.

Definition verdict_of (ps : list entry) : verdict :=
  match strict_failures ps with
  | _ :: _ => NO_FIX_STRICT_FIRST
  | [] => match likely_failures ps with
          | _ :: _ => LIKELY_YES
          | [] => YES_CLEAN
          end
  end.

(** The [DUPLICATE_ON_PAGE] findings among the entries of a report. *)
Definition is_duplicate (p : problem) : bool :=
  match p with DUPLICATE_ON_PAGE _ => true | _ => false end.

Definition duplicate_findings (es : list entry) : list problem :=
  flat_map (fun e => List.filter is_duplicate (e_problems e)) es.

(** The locators of [locs] whose selector code is [pw]. *)
Definition sharing (pw : string) (locs : list Locator) : list Locator :=
  List.filter (fun l => String.eqb (pw_of l) pw) locs.

(** The selector texts of the role rule: a call with the role alone, and
    a call that goes on with an options object naming the element. *)
Definition named_role_call (r opts : string) : string :=
  "getByRole('" +:+ r +:+ "', { name: " +:+ opts +:+ " })".


(** The pattern [name: '.*\($'\)] of the heading rule, as [re.search]
    reads it.  [$] holds at the end of the text and in front of a newline
    that ends the text; behind it the pattern asks for a quote and a
    closing parenthesis. *)
Definition at_dollar (rest : string) : bool :=
  String.eqb rest "" || String.eqb rest (String "010" "").

(** [$'\)] at [rest] *)
Definition after_paren (rest : string) : bool :=
  at_dollar rest && PyStr.startswith "')" rest.

(** [.*\($'\)] at [rest]: the dot takes any code point but the newline,
    and each opening parenthesis is tried as the end of [.*]. *)
Fixpoint dot_star_paren (rest : string) : bool :=
  match rest with
  | EmptyString => false
  | String c rest' =>
      (Ascii.eqb c "(" && after_paren rest')
      || (negb (Ascii.eqb c "010") && dot_star_paren rest')
  end.

(** [bool(re.search(r"name: '.*\($'\)", pw))] *)
Fixpoint heading_partial_search (pw : string) : bool :=
  (match drop_prefix "name: '" pw with
   | Some rest => dot_star_paren rest
   | None => false
   end)
  || match pw with
     | EmptyString => false
     | String _ pw' => heading_partial_search pw'
     end.

End AuditLocators.

(* ===================================================================== *)
(** * validate_chunks.py *)
(* ===================================================================== *)

Module ValidateChunks.

Inductive issue : Type :=
| BAD_METHOD (method : string)
| PATH_PARAM_NOT_DECLARED (token : string)
| ORPHAN_PATH_PARAM (name : string)
| REQ_BODY_NULL
| REQ_BODY_FIELDS_EMPTY
| BODY_FIELD_NO_TYPE (name : string)
| BODY_FIELD_NO_EXAMPLE (name : string)
| RESP_SCHEMA_NULL
| AUTH_REQ_BUT_NO_AUTH_TYPE
| AUTH_REQ_BUT_CHUNK_AUTH_MISSING
| LOW_CONFIDENCE (confidence : Q)
| NO_LOCATORS
| LOCATOR_NO_PW_CODE (name : string)
| LOCATOR_SUSPECT_PW_CODE (name code : string)
| LOCATOR_LOW_CONFIDENCE (name : string) (confidence : Q)
| DYNAMIC_ROUTE_NO_PARAMS
| ORPHAN_ROUTE_PARAM (name : string)
| PAGE_AUTH_REQ_BUT_NO_CHUNK_AUTH
| PAGE_LOW_CONFIDENCE (confidence : Q).

Definition LEGITIMATELY_EMPTY_BODY : list string :=
  ["POST /auth/logout"; "POST /api/session/refresh";
   "POST /api/prescriptions/:prescriptionId/fill"].

Definition VALID_METHODS : list string :=
  ["GET"; "POST"; "PUT"; "PATCH"; "DELETE"].

Definition ep_key (ep : Endpoint) : string :=
  ep_method ep +:+ " " +:+ ep_path ep.

(** [not auth.get("tokenType")] for the [auth] of the chunk. *)
Definition chunk_auth_missing (auth : option AuthConfig) : bool :=
  match auth with
  | None => true
  | Some a => blank (auth_tokenType a)
  end.

Definition confidence_or_0 (c : option Q) : Q := default 0%Q c.

(** The body of the loop over the endpoints of a chunk: [row_issues]. *)
Definition endpoint_issues (auth : option AuthConfig) (ep : Endpoint)
  : list issue :=
  let method := ep_method ep in
  let path_params := ep_pathParams ep in
  let body := ep_requestBody ep in
  let auth_req := default false (ep_authRequired ep) in
  let confidence := confidence_or_0 (ep_confidence ep) in
  let url_tokens := PyRe.colon_tokens (ep_path ep) in
  (if PyStr.mem method VALID_METHODS then [] else [BAD_METHOD method])
  ++ flat_map (fun t =>
       if existsb (fun p => String.eqb (param_name p) t) path_params
       then [] else [PATH_PARAM_NOT_DECLARED t]) url_tokens
  ++ flat_map (fun p =>
       if PyStr.mem (param_name p) url_tokens
       then [] else [ORPHAN_PATH_PARAM (param_name p)]) path_params
  ++ (if PyStr.mem method ["POST"; "PUT"; "PATCH"]
         && negb (PyStr.mem (ep_key ep) LEGITIMATELY_EMPTY_BODY)
      then match body with
           | None => [REQ_BODY_NULL]
           | Some b => match body_fields b with
                       | [] => [REQ_BODY_FIELDS_EMPTY]
                       | _ => []
                       end
           end
      else [])
  ++ (match body with
      | Some b =>
          flat_map (fun bf =>
            (if blank (field_type bf)
             then [BODY_FIELD_NO_TYPE (field_name bf)] else [])
            ++ (if missing (field_example bf)
                then [BODY_FIELD_NO_EXAMPLE (field_name bf)] else []))
            (body_fields b)
      | None => []
      end)
  ++ (if negb (String.eqb method "DELETE") && negb (ep_hasResponseSchema ep)
      then [RESP_SCHEMA_NULL] else [])
  ++ (if auth_req && blank (ep_authType ep)
      then [AUTH_REQ_BUT_NO_AUTH_TYPE] else [])
  ++ (if auth_req && chunk_auth_missing auth
      then [AUTH_REQ_BUT_CHUNK_AUTH_MISSING] else [])
  ++ (if Qltb confidence float_0_6 then [LOW_CONFIDENCE confidence] else []).

Definition pw_keywords : list string :=
  ["getByRole"; "getByLabel"; "getByText"; "getByTestId";
   "getByPlaceholder"; "locator("; "page."].

(** The body of the loop over the locators of a page. *)
Definition locator_issues (loc : Locator) : list issue :=
  let name := default "?" (loc_name loc) in
  let pw_code := PyStr.strip (loc_playwrightCode loc) in
  let confidence_loc := confidence_or_0 (loc_confidence loc) in
  (if negb (PyStr.nonempty pw_code)
   then [LOCATOR_NO_PW_CODE name]
   else if existsb (fun kw => PyStr.contains kw pw_code) pw_keywords
        then []
        else [LOCATOR_SUSPECT_PW_CODE name (PyStr.take 50 pw_code)])
  ++ (if Qltb confidence_loc float_0_5
      then [LOCATOR_LOW_CONFIDENCE name confidence_loc] else []).

(** The body of the loop over the pages of a chunk: [row_issues]. *)
Definition page_issues (auth : option AuthConfig) (page : Page)
  : list issue :=
  let route := default "?" (pg_route page) in
  let auth_req := default false (pg_authRequired page) in
  let route_params := pg_routeParams page in
  let locators := pg_locators page in
  let confidence := confidence_or_0 (pg_confidence page) in
  let route_tokens := PyRe.colon_tokens route in
  (match locators with [] => [NO_LOCATORS] | _ => [] end)
  ++ flat_map locator_issues locators
  ++ (if pg_isDynamic page
         && match route_params with [] => true | _ => false end
      then [DYNAMIC_ROUTE_NO_PARAMS] else [])
  ++ flat_map (fun rp =>
       if PyStr.mem (param_name rp) route_tokens
       then [] else [ORPHAN_ROUTE_PARAM (param_name rp)]) route_params
  ++ (if auth_req && chunk_auth_missing auth
      then [PAGE_AUTH_REQ_BUT_NO_CHUNK_AUTH] else [])
  ++ (if Qltb confidence float_0_6
      then [PAGE_LOW_CONFIDENCE confidence] else []).

Inductive kind := endpoint | page.

(** An entry of [rows]. *)
Record row := mkRow {
  row_file : string;
  row_kind : kind;
  row_id : string;
  row_key : string;
  row_issues : list issue
}.

Definition chunk_rows (cf : ChunkFile) : list row :=
  let c := cf_chunk cf in
  let auth := cd_auth c in
  map (fun ep => mkRow (cf_name cf) endpoint (ep_id ep) (ep_key ep)
                   (endpoint_issues auth ep)) (cd_endpoints c)
  ++ map (fun pg => mkRow (cf_name cf) page (pg_id pg)
                      ("PAGE " +:+ default "?" (pg_route pg))
                      (page_issues auth pg)) (cd_pages c).

Definition rows (all_chunks : list ChunkFile) : list row :=
  flat_map chunk_rows all_chunks.

(** [issues_all]: the rows that have an issue. *)
Definition issues_all (all_chunks : list ChunkFile) : list row :=
  List.filter (fun r => match row_issues r with [] => false | _ => true end)
              (rows all_chunks).


(** The counts of the report header. *)
Definition is_endpoint_row (r : row) : bool :=
  match row_kind r with endpoint => true | page => false end.

Definition has_issues (r : row) : bool :=
  match row_issues r with [] => false | _ => true end.

Definition ep_count (all_chunks : list ChunkFile) : Z :=
  Z.of_nat (length (List.filter is_endpoint_row (rows all_chunks))).
Definition pg_count (all_chunks : list ChunkFile) : Z :=
  Z.of_nat (length (List.filter (fun r => negb (is_endpoint_row r))
                                (rows all_chunks))).
Definition ok_count (all_chunks : list ChunkFile) : Z :=
  Z.of_nat (length (List.filter (fun r => negb (has_issues r))
                                (rows all_chunks))).
Definition bad_count (all_chunks : list ChunkFile) : Z :=
  Z.of_nat (length (List.filter has_issues (rows all_chunks))).

End ValidateChunks.

(* ===================================================================== *)
(** * scripts/audit_blueprints.py *)
(* ===================================================================== *)

Module AuditBlueprints.

Definition WRITE_METHODS : list string := ["POST"; "PUT"; "PATCH"].
Definition READ_METHODS : list string := ["GET"; "DELETE"; "HEAD"].

(** The entries of [errors]. *)
Inductive error : Type :=
| NO_PP_EXAMPLE (method path param : string)
| NO_FIELD_EXAMPLE (method path field : string)
| BODY_BLEED (method path : string) (fields : list string)
| FK_NO_EXAMPLE (method path fk_field : string)
| AUTH_INCOMPLETE (tokenType loginEndpoint : string)
| BAD_TITLE (route title : string).

(** The entries of [warnings]. *)
Inductive warning : Type :=
| WARN_NO_EXAMPLE (method path field : string)
| WARN_EMPTY_BODY (method path : string)
| WARN_AUTH_CREDS (email password : string).

(** [body.get("fields", [])] where [body = ep.get("requestBody") or {}] *)
Definition fields_of (ep : Endpoint) : list Field :=
  match ep_requestBody ep with
  | Some b => body_fields b
  | None => []
  end.

(** [body.get("inferred") is False] *)
Definition inferred_is_false (ep : Endpoint) : bool :=
  match ep_requestBody ep with
  | Some b => match body_inferred b with Some false => true | _ => false end
  | None => false
  end.

Definition is_fk_name (fname : string) : bool :=
  PyStr.endswith "Id" fname || PyStr.endswith "ID" fname.

(** The errors that the body of the loop over the endpoints appends. *)
Definition endpoint_errors (ep : Endpoint) : list error :=
  let method := ep_method ep in
  let path := ep_path ep in
  let fields := fields_of ep in
  flat_map (fun p2 =>
     if missing (param_example p2)
     then [NO_PP_EXAMPLE method path (param_name p2)] else [])
    (ep_pathParams ep)
  ++ flat_map (fun f =>
       if missing (field_example f) && field_required f
       then [NO_FIELD_EXAMPLE method path (field_name f)] else [])
      fields
  ++ (if PyStr.mem method READ_METHODS
         && match fields with [] => false | _ => true end
      then [BODY_BLEED method path (map field_name fields)] else [])
  ++ flat_map (fun f =>
       if is_fk_name (field_name f) && missing (field_example f)
       then [FK_NO_EXAMPLE method path (field_name f)] else [])
      fields.

(** The warnings that the body of the loop over the endpoints appends. *)
Definition endpoint_warnings (ep : Endpoint) : list warning :=
  let method := ep_method ep in
  let path := ep_path ep in
  let fields := fields_of ep in
  flat_map (fun f =>
     if missing (field_example f) && field_required f then []
     else if missing (field_example f)
          then [WARN_NO_EXAMPLE method path (field_name f)] else [])
    fields
  ++ (if PyStr.mem method WRITE_METHODS && inferred_is_false ep
         && match fields with [] => true | _ => false end
      then [WARN_EMPTY_BODY method path] else []).

(** [a or b] on strings that may be absent. *)
Definition or_else (a : option string) (b : string) : string :=
  match a with
  | Some s => if PyStr.nonempty s then s else b
  | None => b
  end.

(** [auth.get(k)] where [auth = b.get("auth") or {}] *)
Definition auth_get (auth : option AuthConfig)
    (k : AuthConfig -> option string) : option string :=
  match auth with Some a => k a | None => None end.

(** [auth.get("credentials", {}).get(k)] *)
Definition cred_get (auth : option AuthConfig)
    (k : Credentials -> option string) : option string :=
  match auth with
  | Some a => match auth_credentials a with Some c => k c | None => None end
  | None => None
  end.

Definition token_type (auth : option AuthConfig) : string :=
  or_else (auth_get auth auth_tokenType)
          (or_else (auth_get auth auth_type) "MISSING").
Definition login_ep (auth : option AuthConfig) : string :=
  or_else (auth_get auth auth_loginEndpoint) "MISSING".
Definition seed_email (auth : option AuthConfig) : string :=
  or_else (cred_get auth cred_email) "MISSING".
Definition seed_pass (auth : option AuthConfig) : string :=
  or_else (cred_get auth cred_password) "MISSING".

Definition auth_errors (auth : option AuthConfig) : list error :=
  if PyStr.mem "MISSING" [token_type auth; login_ep auth]
  then [AUTH_INCOMPLETE (token_type auth) (login_ep auth)] else [].

Definition auth_warnings (auth : option AuthConfig) : list warning :=
  if PyStr.mem "MISSING" [seed_email auth; seed_pass auth]
  then [WARN_AUTH_CREDS (seed_email auth) (seed_pass auth)] else [].

Definition placeholder_titles : list string :=
  ["[id]"; "index"; "page"; "unknown"].

Definition page_errors (pg : Page) : list error :=
  let t := default "" (pg_title pg) in
  let r := default "" (pg_route pg) in
  if negb (PyStr.nonempty t) || PyStr.mem (PyStr.lower t) placeholder_titles
  then [BAD_TITLE r t] else [].

(** The lists [errors] and [warnings] of one blueprint. *)
Definition errors (b : Blueprint) : list error :=
  flat_map endpoint_errors (bp_endpoints b)
  ++ auth_errors (bp_auth b)
  ++ flat_map page_errors (bp_pages b).

Definition warnings (b : Blueprint) : list warning :=
  flat_map endpoint_warnings (bp_endpoints b)
  ++ auth_warnings (bp_auth b).

(** The counters behind the loop over the blueprints. *)
Definition total_errors (bps : list Blueprint) : Z :=
  fold_left (fun acc b => acc + Z.of_nat (length (errors b)))%Z bps 0%Z.
Definition total_warnings (bps : list Blueprint) : Z :=
  fold_left (fun acc b => acc + Z.of_nat (length (warnings b)))%Z bps 0%Z.

(** [sys.exit(1 if total_errors > 0 else 0)] *)
Definition exit_status (bps : list Blueprint) : Z :=
  if (total_errors bps >? 0)%Z then 1%Z else 0%Z.

Definition is_body_bleed (e : error) : bool :=
  match e with BODY_BLEED _ _ _ => true | _ => false end.

Definition is_auth_incomplete (e : error) : bool :=
  match e with AUTH_INCOMPLETE _ _ => true | _ => false end.


(** A value of the [auth] object that the completeness check accepts:
    it is there, it is not empty, and it is not the word that the
    script puts in the place of a missing value. *)
Definition usable (o : option string) : bool :=
  match o with
  | Some s => PyStr.nonempty s && negb (String.eqb s "MISSING")
  | None => false
  end.

End AuditBlueprints.

(* ===================================================================== *)
(** * scripts/validate_blueprints.py *)
(* ===================================================================== *)

Module ValidateBlueprints.

(** A printed report line: [issue] prints a failure line, [warn] a
    warning line, [ok] a pass line.  The label is the first argument of
    [issue] and [warn]; the strings interpolated in the message are
    kept in their order (the counts that some pass lines show are left
    out). *)
Inductive line : Type :=
| FAIL (label : string) (args : list string)
| WARN (label : string) (args : list string)
| PASS (args : list string).

(** The global counter [issues_total] and the standard output. *)
Record state := mkState {
  issues_total : Z;
  printed : list line
}.

(** Procedures of the script: a state monad over [state] with the
    exception that nothing catches.  [None] in the place of the result
    is the KeyError of a subscript on a key that is not there: the rest
    of the script is not run, and the state is the one at the raise. *)
Definition M (A : Type) : Type := state -> option A * state.

Definition ret {A} (a : A) : M A := fun st => (Some a, st).
Definition raise {A} : M A := fun st => (None, st).
Definition bind {A B} (m : M A) (k : A -> M B) : M B :=
  fun st =>
    match m st with
    | (Some a, st') => k a st'
    | (None, st') => (None, st')
    end.

Notation "'let*' x ':=' m 'in' k" := (bind m (fun x => k))
  (at level 10, x name, m at level 100, k at level 200).
Notation "m ';;;' k" := (bind m (fun _ => k))
  (at level 100, k at level 200, right associativity).

Definition skip : M unit := ret tt.

(** [d[k]] for a key that may be absent. *)
Definition subscript {A} (o : option A) : M A :=
  match o with
  | Some a => ret a
  | None => raise
  end.

Definition issue (label : string) (args : list string) : M unit :=
  fun st => (Some tt, mkState (issues_total st + 1)
                              (printed st ++ [FAIL label args])).

Definition warn (label : string) (args : list string) : M unit :=
  fun st => (Some tt, mkState (issues_total st)
                              (printed st ++ [WARN label args])).

Definition ok (args : list string) : M unit :=
  fun st => (Some tt, mkState (issues_total st)
                              (printed st ++ [PASS args])).

(** [for x in xs: body(x)] *)
Fixpoint for_ {A} (xs : list A) (body : A -> M unit) : M unit :=
  match xs with
  | [] => skip
  | x :: xs' => body x ;;; for_ xs' body
  end.

(** A loop that also updates a local variable. *)
Fixpoint for_fold {A B} (xs : list A) (acc : B) (body : B -> A -> M B)
  : M B :=
  match xs with
  | [] => ret acc
  | x :: xs' => let* acc' := body acc x in for_fold xs' acc' body
  end.

(** A comprehension whose element may raise. *)
Fixpoint map_m {A B} (f : A -> M B) (xs : list A) : M (list B) :=
  match xs with
  | [] => ret []
  | x :: xs' =>
      let* y := f x in
      let* ys := map_m f xs' in
      ret (y :: ys)
  end.

(** ** Dictionaries and sorting *)

Definition key : Type := string * string.

Definition key_eqb (a b : key) : bool :=
  String.eqb (fst a) (fst b) && String.eqb (snd a) (snd b).

(** Order of the tuples [(method, path)]. *)
Definition key_leb (a b : key) : bool :=
  match String.compare (fst a) (fst b) with
  | Lt => true
  | Gt => false
  | Eq => String.leb (snd a) (snd b)
  end.

(** [d[k] = v] on a dictionary kept in insertion order. *)
Fixpoint dict_set {V} (k : key) (v : V) (d : list (key * V))
  : list (key * V) :=
  match d with
  | [] => [(k, v)]
  | (k', v') :: d' =>
      if key_eqb k k' then (k, v) :: d' else (k', v') :: dict_set k v d'
  end.

(** [d.get(k)] *)
Definition dict_get {V} (k : key) (d : list (key * V)) : option V :=
  option_map snd (List.find (fun kv => key_eqb k (fst kv)) d).

(** [sorted(xs, key=...)]: a stable sort. *)
Fixpoint insert_by {A} (le : A -> A -> bool) (x : A) (l : list A)
  : list A :=
  match l with
  | [] => [x]
  | y :: l' => if le x y then x :: l else y :: insert_by le x l'
  end.

Definition sort_by {A} (le : A -> A -> bool) (l : list A) : list A :=
  fold_right (insert_by le) [] l.

(** [sorted(d.items())] for a dictionary with keys [(method, path)] *)
Definition sorted_items {V} (d : list (key * V)) : list (key * V) :=
  sort_by (fun a b => key_leb (fst a) (fst b)) d.

(** [sorted(set(xs))] for strings *)
Fixpoint dedup_str (xs : list string) : list string :=
  match xs with
  | [] => []
  | x :: xs' => if PyStr.mem x xs' then dedup_str xs' else x :: dedup_str xs'
  end.

Definition sorted_set (xs : list string) : list string :=
  sort_by String.leb (dedup_str xs).

(** The index [bp_eps] of the endpoints by [(method, path)]. *)
Definition index_endpoints (eps : list Endpoint) : list (key * Endpoint) :=
  fold_left (fun d ep => dict_set (ep_method ep, ep_path ep) ep d) eps [].

(** What the scan of a [route.ts] source file gives for its path. *)
Record SourceRoute := mkSourceRoute {
  src_methods : list string;
  src_qps : list string;
  src_body_fields : list string
}.

(** [sorted(source_routes.items())] *)
Definition sorted_routes (source_routes : gmap string SourceRoute)
  : list (string * SourceRoute) :=
  sort_by (fun a b => String.leb (fst a) (fst b)) (map_to_list source_routes).

(** [re.findall(r':(\w+)', path)] and the names of [pathParams] that miss
    one of them. *)
Definition missing_path_params (ep : Endpoint) : list string :=
  let bp_pp := map param_name (ep_pathParams ep) in
  List.filter (fun p => negb (PyStr.mem p bp_pp))
              (PyRe.colon_tokens (ep_path ep)).

Definition field_names (rb : RequestBody) : list string :=
  map field_name (body_fields rb).

Definition str (o : option string) : string := default "" o.

(** [d.get(k) or "?"] *)
Definition or_unknown (o : option string) : string :=
  match o with
  | Some s => if PyStr.nonempty s then s else "?"
  | None => "?"
  end.

(** ** validate_nextjs *)

Definition READ_METHODS : list string := ["GET"; "DELETE"; "HEAD"].
Definition write_methods : list string := ["POST"; "PUT"; "PATCH"].
Definition bleed_methods : list string := ["GET"; "DELETE"; "HEAD"; "OPTIONS"].

Definition required_sections : list string :=
  ["AUTH USAGE NOTES"; "API ENDPOINTS TO TEST"; "COVERAGE REQUIREMENTS"].

(** 1. All routes and methods present. *)
Definition nextjs_routes (source_routes : gmap string SourceRoute)
    (bp_eps : list (key * Endpoint)) : M unit :=
  for_ (sorted_routes source_routes) (fun '(path, src) =>
    for_ (src_methods src) (fun method =>
      if is_some (dict_get (method, path) bp_eps)
      then ok [method; path]
      else issue "MISSING_ENDPOINT" [method; path])) ;;;
  for_ bp_eps (fun '((method, path), ep) =>
    match source_routes !! path with
    | None => issue "PHANTOM_ENDPOINT" [method; path]
    | Some src_path =>
        if negb (PyStr.mem method (src_methods src_path))
        then issue "WRONG_METHOD" (method :: path :: src_methods src_path)
        else skip
    end).

(** 2. Query params. *)
Definition nextjs_query_params (source_routes : gmap string SourceRoute)
    (bp_eps : list (key * Endpoint)) : M unit :=
  for_ (sorted_routes source_routes) (fun '(path, src) =>
    match src_qps src with
    | [] => skip
    | _ =>
      for_ (src_methods src) (fun method =>
        if negb (PyStr.mem method READ_METHODS) then skip
        else match dict_get (method, path) bp_eps with
             | None => skip
             | Some ep =>
                 let bp_qps := sorted_set (map param_name (ep_queryParams ep)) in
                 let missing :=
                   List.filter (fun q => negb (PyStr.mem q bp_qps)) (src_qps src) in
                 let extra :=
                   List.filter (fun q => negb (PyStr.mem q (src_qps src))) bp_qps in
                 match missing, extra with
                 | _ :: _, _ => issue "MISSING_QP" (method :: path :: missing)
                 | [], _ :: _ => warn "EXTRA_QP" (method :: path :: extra)
                 | [], [] => ok (method :: path :: bp_qps)
                 end
             end)
    end).

(** 3. Body fields. *)
Definition nextjs_body_fields (source_routes : gmap string SourceRoute)
    (bp_eps : list (key * Endpoint)) : M unit :=
  for_ (sorted_routes source_routes) (fun '(path, src) =>
    match src_body_fields src with
    | [] => skip
    | _ =>
      for_ (List.filter (fun m => PyStr.mem m write_methods) (src_methods src))
        (fun method =>
          match dict_get (method, path) bp_eps with
          | None => skip
          | Some ep =>
              match ep_requestBody ep with
              | None => issue "MISSING_BODY" (method :: path :: src_body_fields src)
              | Some rb =>
                  let bp_fields := sorted_set (field_names rb) in
                  match List.filter (fun f => negb (PyStr.mem f bp_fields))
                                    (src_body_fields src) with
                  | (_ :: _) as missing =>
                      issue "MISSING_FIELD" (method :: path :: missing)
                  | [] => ok (method :: path :: bp_fields)
                  end
              end
          end)
    end).

(** 4. Write methods must have a body. *)
Definition write_bodies (empty_label : string)
    (bp_eps : list (key * Endpoint)) : M unit :=
  for_ (sorted_items bp_eps) (fun '((method, path), ep) =>
    if negb (PyStr.mem method write_methods) then skip
    else match ep_requestBody ep with
         | None => warn "NO_BODY" [method; path]
         | Some rb =>
             match body_fields rb with
             | [] => warn empty_label [method; path]
             | _ => ok (method :: path :: body_source rb :: field_names rb)
             end
         end).

(** 5. Read methods must not have a request body.  [methods] is the
    tuple of the methods that the loop looks at. *)
Definition bleed_step (methods : list string) (bleed_found : bool)
    (item : key * Endpoint) : M bool :=
  let '((method, path), ep) := item in
  if PyStr.mem method methods && is_some (ep_requestBody ep)
  then issue "BODY_BLEED" [method; path] ;;; ret true
  else ret bleed_found.

Definition body_bleed (methods : list string)
    (bp_eps : list (key * Endpoint)) : M unit :=
  let* bleed_found :=
    for_fold (sorted_items bp_eps) false (bleed_step methods) in
  if negb bleed_found then ok ["No body bleed"] else skip.

(** 6. Path params. *)
Definition path_params (bp_eps : list (key * Endpoint)) : M unit :=
  for_ (sorted_items bp_eps) (fun '((method, path), ep) =>
    match PyRe.colon_tokens path with
    | [] => skip
    | _ =>
        match missing_path_params ep with
        | (_ :: _) as missing =>
            issue "MISSING_PP" (method :: path :: missing)
        | [] => ok (method :: path :: map param_name (ep_pathParams ep))
        end
    end).

(** 7. Auth config.  The pass lines subscript the keys they show, so
    an [auth] object that lacks one of them raises KeyError before the
    line is printed (a key holds a string when it is there; the two
    field names are those of [credentialsFields]).  [cookie] is false
    for the Express function, which shows neither the format of the
    login body, nor the password, nor the cookie name. *)
Definition auth_config (cookie : bool) (auth : option AuthConfig) : M unit :=
  match auth with
  | Some a =>
      if auth_nonempty a then
        let* token_type := subscript (auth_tokenType a) in
        let* login := subscript (auth_loginEndpoint a) in
        let* format :=
          (if cookie then
             let* fmt := subscript (auth_loginBodyFormat a) in ret [fmt]
           else ret []) in
        ok (token_type :: login :: format) ;;;
        let* email_field := subscript (auth_emailField a) in
        let* pass_field := subscript (auth_passwordField a) in
        ok [email_field; pass_field] ;;;
        (if negb (blank (auth_defaultEmail a))
         then
           (if cookie then
              let* password := subscript (auth_defaultPassword a) in
              ok [str (auth_defaultEmail a); password]
            else ok [str (auth_defaultEmail a)])
         else warn "NO_SEED_CREDS" []) ;;;
        (if cookie && negb (blank (auth_authCookieName a))
         then ok [str (auth_authCookieName a)] else skip)
      else issue "NO_AUTH" []
  | None => issue "NO_AUTH" []
  end.

(** 8. Pages and locators.  The sort reads [p["route"]] of every page
    before the first line is printed, and raises KeyError for a page
    without a route.  [bad_route] is the test of the route that the
    function uses; [names] tells whether the pass line shows the names
    of the locators, as the one of the Next.js function does with
    [l['name']]. *)
Definition pages_locators (names : bool) (bad_route : string -> bool)
    (pages : list Page) : M unit :=
  let* keyed :=
    map_m (fun pg => let* route := subscript (pg_route pg) in
                     ret (route, pg)) pages in
  for_ (sort_by (fun p q => String.leb (fst p) (fst q)) keyed)
    (fun '(route, pg) =>
      let title := or_unknown (pg_title pg) in
      if bad_route route then issue "BAD_ROUTE" [route]
      else match pg_locators pg with
           | [] => warn "NO_LOCATORS" [route; title]
           | locators =>
               let* shown :=
                 (if names
                  then map_m (fun l => subscript (loc_name l)) locators
                  else ret []) in
               ok (route :: title :: shown)
           end).

(** The PATCH and PUT endpoints of a chunk whose body has fields, none
    of them required. *)
Definition all_optional_body (ep : Endpoint) : bool :=
  PyStr.mem (ep_method ep) ["PATCH"; "PUT"]
  && match ep_requestBody ep with
     | Some rb =>
         match body_fields rb with
         | [] => false
         | fs => match List.filter field_required fs with
                 | [] => true
                 | _ => false
                 end
         end
     | None => false
     end.

(** 9. The prompt of each chunk file.  The pass line for the foreign-key
    mark of a prompt is not modelled: the mark is outside the code points
    of the model, and the line changes no counter. *)
Definition nextjs_prompts (chunk_files : list ChunkFile) : M unit :=
  for_ chunk_files (fun cf =>
    let msg := cf_llmUserMessage cf in
    for_ required_sections (fun section =>
      if negb (PyStr.contains section msg)
      then issue "MISSING_PROMPT_SECTION" [cf_name cf; section]
      else skip) ;;;
    for_ (cd_endpoints (cf_chunk cf)) (fun ep =>
      if all_optional_body ep
         && negb (PyStr.contains "MUST still send a body" msg)
      then warn "NO_OPTIONAL_BODY_HINT" [cf_name cf; ep_method ep; ep_path ep]
      else skip)) ;;;
  ok ["Spot-checked"].

(** The inputs of one of the three functions: the blueprint, the chunk
    files next to it, and for Next.js the routes found in the sources. *)
Record repo := mkRepo {
  repo_blueprint : Blueprint;
  repo_chunks : list ChunkFile;
  repo_source_routes : gmap string SourceRoute
}.

Definition validate_nextjs (info : repo) : M unit :=
  let bp := repo_blueprint info in
  let source_routes := repo_source_routes info in
  let bp_eps := index_endpoints (bp_endpoints bp) in
  nextjs_routes source_routes bp_eps ;;;
  nextjs_query_params source_routes bp_eps ;;;
  nextjs_body_fields source_routes bp_eps ;;;
  write_bodies "EMPTY_BODY_FIELDS" bp_eps ;;;
  body_bleed bleed_methods bp_eps ;;;
  path_params bp_eps ;;;
  auth_config true (bp_auth bp) ;;;
  pages_locators true (fun route => negb (PyStr.contains "/" route))
                 (bp_pages bp) ;;;
  nextjs_prompts (repo_chunks info).

(** ** validate_express *)

(** The prompts must have the section on the use of the credentials. *)
Definition auth_notes_prompts (session : bool) (auth : option AuthConfig)
    (chunk_files : list ChunkFile) : M unit :=
  for_ chunk_files (fun cf =>
    let msg := cf_llmUserMessage cf in
    (if negb (PyStr.contains "AUTH USAGE NOTES" msg)
     then issue "PROMPT" [cf_name cf] else skip) ;;;
    (if session && negb (PyStr.contains "SESSION COOKIE" msg)
        && match auth with
           | Some a => auth_nonempty a
                       && match auth_tokenType a with
                          | Some t => String.eqb t "session_cookie"
                          | None => false
                          end
           | None => false
           end
     then warn "PROMPT" [cf_name cf] else skip)) ;;;
  ok ["Checked"].

Definition validate_express (info : repo) : M unit :=
  let bp := repo_blueprint info in
  let bp_eps_list := index_endpoints (bp_endpoints bp) in
  let unauthed :=
    List.filter (fun '(_, ep) => negb (default false (ep_authRequired ep)))
                bp_eps_list in
  (match unauthed with
   | [] => ok ["All endpoints marked authRequired=True"]
   | _ => for_ (sorted_items unauthed) (fun '((m, p), _) =>
            warn "UNAUTHED" [m; p])
   end) ;;;
  write_bodies "EMPTY_FIELDS" bp_eps_list ;;;
  body_bleed ["GET"; "DELETE"] bp_eps_list ;;;
  auth_config false (bp_auth bp) ;;;
  path_params bp_eps_list ;;;
  auth_notes_prompts false (bp_auth bp) (repo_chunks info).

(** ** validate_remix *)

Definition validate_remix (info : repo) : M unit :=
  let bp := repo_blueprint info in
  let bp_eps_list := index_endpoints (bp_endpoints bp) in
  write_bodies "EMPTY_FIELDS" bp_eps_list ;;;
  body_bleed ["GET"; "DELETE"] bp_eps_list ;;;
  path_params bp_eps_list ;;;
  auth_config true (bp_auth bp) ;;;
  pages_locators false (fun route => negb (PyStr.startswith "/" route))
                 (bp_pages bp) ;;;
  auth_notes_prompts true (bp_auth bp) (repo_chunks info).

(** ** Run all *)

Definition initial : state := mkState 0 [].

Definition run_all (nextjs express remix : repo) : M unit :=
  validate_nextjs nextjs ;;;
  validate_express express ;;;
  validate_remix remix.

(** The state at the end of the script, and whether the script got
    there ([None] when an exception ended it). *)
Definition final (nextjs express remix : repo) : state :=
  snd (run_all nextjs express remix initial).

Definition outcome (nextjs express remix : repo) : option unit :=
  fst (run_all nextjs express remix initial).

(** [sys.exit(1 if issues_total > 0 else 0)]; the interpreter ends
    with status 1 after an exception that nothing catches. *)
Definition exit_status (nextjs express remix : repo) : Z :=
  match outcome nextjs express remix with
  | Some _ =>
      if (issues_total (final nextjs express remix) >? 0)%Z then 1%Z else 0%Z
  | None => 1%Z
  end.

Definition is_fail (l : line) : bool :=
  match l with FAIL _ _ => true | _ => false end.

(** The line that the loop of [body_bleed] prints for an entry of the
    index, if any. *)
Definition bleed_line (methods : list string) (kv : key * Endpoint)
  : list line :=
  if PyStr.mem (fst (fst kv)) methods && is_some (ep_requestBody (snd kv))
  then [FAIL "BODY_BLEED" [fst (fst kv); snd (fst kv)]] else [].

(** The number of failure lines among printed lines. *)
Definition count_fail (ls : list line) : Z :=
  Z.of_nat (length (List.filter is_fail ls)).

(** The counter agrees with the output. *)
Definition in_step (st : state) : Prop :=
  issues_total st = count_fail (printed st).

(** A procedure that keeps the counter and the output in step. *)
Definition counted {A} (m : M A) : Prop :=
  forall st, in_step st -> in_step (snd (m st)).


(** The key of an endpoint in the index. *)
Definition key_of (ep : Endpoint) : key := (ep_method ep, ep_path ep).

(** A procedure that leaves the lines printed before it in the output,
    and one that prints a given line when no exception ends it. *)
Definition keeps {A} (m : M A) : Prop :=
  forall st l, In l (printed st) -> In l (printed (snd (m st))).

Definition emits {A} (l : line) (m : M A) : Prop :=
  forall st, fst (m st) <> None -> In l (printed (snd (m st))).


(** The keys of an [auth] object that the pass lines of the auth check
    subscript are all there. *)
Definition shown_keys (cookie : bool) (a : AuthConfig) : bool :=
  is_some (auth_tokenType a) && is_some (auth_loginEndpoint a)
  && (negb cookie || is_some (auth_loginBodyFormat a))
  && is_some (auth_emailField a) && is_some (auth_passwordField a)
  && (negb cookie || blank (auth_defaultEmail a)
      || is_some (auth_defaultPassword a)).

End ValidateBlueprints.

(* ===================================================================== *)
(** * scripts/check_locators.py *)
(* ===================================================================== *)

Module CheckLocators.

Definition valid_strategies : list string :=
  ["role"; "label"; "text"; "testid"; "placeholder"; "css"; "xpath";
   "heading"; "button"; "link"; "input"; "custom"; "aria"].

(** The entries of [stats["bad_locators"]]; the first three arguments
    are the repository, the chunk file and the route of the page. *)
Inductive bad_locator : Type :=
| EMPTY_CODE (repo chunk route name : string)
| UNDEFINED_OR_NULL (repo chunk route code : string)
| DYNAMIC_SEGMENT (repo chunk route code : string)
| UNKNOWN_STRATEGY (repo chunk route strategy name : string)
| MISSING_PAGE_PREFIX (repo chunk route code : string).

(** The test of the last check of the loop body. *)
Definition lacks_page_prefix (code : string) : bool :=
  PyStr.nonempty code
  && negb (PyStr.startswith "page." code)
  && negb (PyStr.startswith "//" code)
  && negb (PyStr.startswith "#" code).

(** The body of the loop over the locators of a page. *)
Definition check_locator (repo chunk_name route : string) (loc : Locator)
  : list bad_locator :=
  let code := loc_playwrightCode loc in
  let name := default "" (loc_name loc) in
  let strategy := default "" (loc_strategy loc) in
  (if negb (PyStr.nonempty code) || String.eqb (PyStr.strip code) ""
   then [EMPTY_CODE repo chunk_name route name] else [])
  ++ (if PyStr.contains "undefined" code
         || String.eqb (PyStr.strip code) "null"
      then [UNDEFINED_OR_NULL repo chunk_name route (PyStr.take 120 code)]
      else [])
  ++ (if PyRe.has_bare_segment code
      then [DYNAMIC_SEGMENT repo chunk_name route (PyStr.take 120 code)]
      else [])
  ++ (if PyStr.nonempty strategy
         && negb (PyStr.mem (PyStr.lower strategy) valid_strategies)
      then [UNKNOWN_STRATEGY repo chunk_name route strategy name] else [])
  ++ (if lacks_page_prefix code
      then [MISSING_PAGE_PREFIX repo chunk_name route (PyStr.take 120 code)]
      else []).

Record stats := mkStats {
  total_pages : Z;
  pages_with_locators : Z;
  pages_no_locators : Z;
  total_locators : Z;
  bad_locators : list bad_locator
}.

(** Whether the loop body has a finding for a locator.  The tests do
    not read the route of the page. *)
Definition flagged (loc : Locator) : bool :=
  match check_locator "" "" "" loc with [] => false | _ => true end.

(** The findings of a locator of a page.  Each message reads
    [page['route']]: on a page without a route the first finding raises
    KeyError; a locator without findings does not read the route. *)
Definition locator_findings (repo chunk_name : string) (page : Page)
    (loc : Locator) : option (list bad_locator) :=
  match pg_route page with
  | Some route => Some (check_locator repo chunk_name route loc)
  | None => if flagged loc then None else Some []
  end.

(** The body of the loop over the locators of a page. *)
Definition visit_locator (repo chunk_name : string) (page : Page)
    (st : stats) (loc : Locator) : option stats :=
  match locator_findings repo chunk_name page loc with
  | Some found =>
      Some (mkStats (total_pages st) (pages_with_locators st)
                    (pages_no_locators st) (total_locators st + 1)
                    (bad_locators st ++ found))
  | None => None
  end.

(** The body of the loop over the pages of a chunk. *)
Definition visit_page (repo chunk_name : string) (st : stats) (page : Page)
  : option stats :=
  match pg_locators page with
  | [] =>
      Some (mkStats (total_pages st + 1) (pages_with_locators st)
                    (pages_no_locators st + 1) (total_locators st)
                    (bad_locators st))
  | locators =>
      fold_opt (visit_locator repo chunk_name page) locators
        (mkStats (total_pages st + 1) (pages_with_locators st + 1)
                 (pages_no_locators st) (total_locators st)
                 (bad_locators st))
  end.

Definition visit_chunk (repo : string) (st : stats) (cf : ChunkFile)
  : option stats :=
  fold_opt (visit_page repo (cf_name cf)) (cd_pages (cf_chunk cf)) st.

(** The loop over the output directories; each comes with the name of
    its repository and its chunk files.  The summary is printed after
    the loop: a run that raises prints nothing.  The listing of sample
    locators that follows the summary is left out. *)
Definition run (dirs : list (string * list ChunkFile)) : option stats :=
  fold_opt (fun st '(repo, chunks) => fold_opt (visit_chunk repo) chunks st)
           dirs (mkStats 0 0 0 0 []).

(** A page on which the script stops: it has no route and one of its
    locators has a finding. *)
Definition raises_on (page : Page) : bool :=
  match pg_route page with
  | Some _ => false
  | None => existsb flagged (pg_locators page)
  end.

(** The findings of locators of a page, of a chunk file and of all the
    directories, in the order of the loops, in a run that goes through. *)
Definition locators_bad (repo chunk_name : string) (page : Page)
    (locs : list Locator) : list bad_locator :=
  match pg_route page with
  | Some route => flat_map (check_locator repo chunk_name route) locs
  | None => []
  end.

Definition page_bad (repo chunk_name : string) (page : Page)
  : list bad_locator :=
  locators_bad repo chunk_name page (pg_locators page).

Definition chunk_bad (repo : string) (cf : ChunkFile) : list bad_locator :=
  flat_map (page_bad repo (cf_name cf)) (cd_pages (cf_chunk cf)).

Definition all_bad (dirs : list (string * list ChunkFile))
  : list bad_locator :=
  flat_map (fun '(repo, chunks) => flat_map (chunk_bad repo) chunks) dirs.

Definition is_missing_prefix (b : bad_locator) : bool :=
  match b with MISSING_PAGE_PREFIX _ _ _ _ => true | _ => false end.

(** The pages of a list of chunk files and of all the directories, in
    the order of the loops. *)
Definition chunk_pages (chunks : list ChunkFile) : list Page :=
  flat_map (fun cf => cd_pages (cf_chunk cf)) chunks.

Definition all_pages (dirs : list (string * list ChunkFile)) : list Page :=
  flat_map (fun '(_, chunks) => chunk_pages chunks) dirs.

Definition has_locators (page : Page) : bool :=
  match pg_locators page with [] => false | _ => true end.

(** All the code points of a text are of the class [[a-zA-Z0-9_-]]. *)
Fixpoint all_segchars (s : string) : bool :=
  match s with
  | EmptyString => true
  | String c s' => PyRe.issegchar c && all_segchars s'
  end.

(** The counters after the pages of a list, whatever the file names. *)
Definition counted_pages (st st' : stats) (pages : list Page) : Prop :=
  (total_pages st' = total_pages st + Z.of_nat (length pages)
   /\ pages_with_locators st'
      = pages_with_locators st
        + Z.of_nat (length (List.filter has_locators pages))
   /\ pages_no_locators st'
      = pages_no_locators st
        + Z.of_nat (length (List.filter (fun p => negb (has_locators p))
                                        pages))
   /\ total_locators st'
      = total_locators st
        + Z.of_nat (length (flat_map pg_locators pages)))%Z.

(** What the loops have done to the counters and to the findings after
    some locators of a page, some pages of a chunk file, some chunk
    files and some directories. *)
Definition after_locators (repo chunk_name : string) (page : Page)
    (st st' : stats) (locs : list Locator) : Prop :=
  (total_pages st' = total_pages st
   /\ pages_with_locators st' = pages_with_locators st
   /\ pages_no_locators st' = pages_no_locators st
   /\ total_locators st' = total_locators st + Z.of_nat (length locs))%Z
  /\ bad_locators st'
     = bad_locators st ++ locators_bad repo chunk_name page locs.

Definition after_pages (repo chunk_name : string) (st st' : stats)
    (pages : list Page) : Prop :=
  counted_pages st st' pages
  /\ bad_locators st'
     = bad_locators st ++ flat_map (page_bad repo chunk_name) pages.

Definition after_chunks (repo : string) (st st' : stats)
    (chunks : list ChunkFile) : Prop :=
  counted_pages st st' (chunk_pages chunks)
  /\ bad_locators st' = bad_locators st ++ flat_map (chunk_bad repo) chunks.

Definition after_dirs (st st' : stats)
    (dirs : list (string * list ChunkFile)) : Prop :=
  counted_pages st st' (all_pages dirs)
  /\ bad_locators st' = bad_locators st ++ all_bad dirs.

End CheckLocators.

(* ===================================================================== *)
(** * scripts/check_fk_coverage.py *)
(* ===================================================================== *)

Module CheckFkCoverage.

(** [c["chunk"]["domain"]]: the subscript raises KeyError ([None]) for
    a chunk without a domain. *)
Definition chunk_domain (cf : ChunkFile) : option string :=
  cd_domain (cf_chunk cf).

(** The loop over the endpoints of a chunk file; the domain is read for
    each endpoint, so a chunk file without endpoints needs none. *)
Definition fill_chunk (m : gmap string string) (cf : ChunkFile)
  : option (gmap string string) :=
  fold_opt (fun m' ep =>
              match chunk_domain cf with
              | Some d => Some (<[ep_id ep := d]> m')
              | None => None
              end)
           (cd_endpoints (cf_chunk cf)) m.

(** The dictionary [ep_to_domain], filled chunk file by chunk file. *)
Definition ep_to_domain (chunks : list ChunkFile)
  : option (gmap string string) :=
  fold_opt fill_chunk chunks ∅.

Definition fields_of (ep : Endpoint) : list Field :=
  match ep_requestBody ep with
  | Some b => body_fields b
  | None => []
  end.

(** [get_paths]: the paths of the GET endpoints of the blueprint that
    [ep_to_domain] puts in the domain of [ep]. *)
Definition get_paths (eps : list Endpoint) (e2d : gmap string string)
    (ep : Endpoint) : list string :=
  let domain := default "?" (e2d !! ep_id ep) in
  map ep_path
    (List.filter
       (fun e => bool_decide (e2d !! ep_id e = Some domain)
                 && String.eqb (ep_method e) "GET")
       eps).

Definition is_fk_name (fname : string) : bool :=
  PyStr.endswith "Id" fname || PyStr.endswith "ID" fname.

(** [fname.replace("Id", "").replace("ID", "").lower()] *)
Definition resource (fname : string) : string :=
  PyStr.lower (PyStr.remove_all "ID" (PyStr.remove_all "Id" fname)).

(** [any(resource in p.lower() for p in get_paths)] *)
Definition can_resolve (res : string) (paths : list string) : bool :=
  existsb (fun p => PyStr.contains res (PyStr.lower p)) paths.

(** An entry of [required_gaps] or of [optional_gaps]: the method and
    the path of the endpoint, the field, and the paths in the chunk. *)
Record gap := mkGap {
  gap_method : string;
  gap_path : string;
  gap_fk : string;
  gap_get_paths : list string
}.

Inductive bucket := REQUIRED_GAP | OPTIONAL_GAP.

(** The body of the loop over the fields of an endpoint. *)
Definition field_gap (paths : list string) (ep : Endpoint) (f : Field)
  : list (bucket * gap) :=
  let fname := field_name f in
  if negb (is_fk_name fname) then []
  else if can_resolve (resource fname) paths then []
  else
    let entry := mkGap (ep_method ep) (ep_path ep) fname
                   (match paths with [] => ["none"] | _ => paths end) in
    [(if field_required f then REQUIRED_GAP else OPTIONAL_GAP, entry)].

(** The body of the loop over the endpoints of the blueprint. *)
Definition endpoint_gaps (eps : list Endpoint) (e2d : gmap string string)
    (ep : Endpoint) : list (bucket * gap) :=
  flat_map (field_gap (get_paths eps e2d ep) ep) (fields_of ep).

(** The entries of a pass, in the order of the loops; [None] when the
    chunk files make the script raise before the pass. *)
Definition gaps (b : Blueprint) (chunks : list ChunkFile)
  : option (list (bucket * gap)) :=
  match ep_to_domain chunks with
  | Some e2d =>
      let eps := bp_endpoints b in
      Some (flat_map (endpoint_gaps eps e2d) eps)
  | None => None
  end.

Definition is_required (x : bucket * gap) : bool :=
  match fst x with REQUIRED_GAP => true | OPTIONAL_GAP => false end.

Definition required_gaps (b : Blueprint) (chunks : list ChunkFile)
  : option (list gap) :=
  match gaps b chunks with
  | Some gs => Some (map snd (List.filter is_required gs))
  | None => None
  end.

Definition optional_gaps (b : Blueprint) (chunks : list ChunkFile)
  : option (list gap) :=
  match gaps b chunks with
  | Some gs => Some (map snd (List.filter (fun x => negb (is_required x)) gs))
  | None => None
  end.

(** A name that has [Id] and [ID] as its suffix only. *)
Definition suffix_only (fname base : string) : Prop :=
  (fname = base +:+ "Id" \/ fname = base +:+ "ID")
  /\ PyStr.contains "Id" base = false /\ PyStr.contains "ID" base = false.

(** The list that the pass puts the field of an endpoint in, if any. *)
Definition found (b : Blueprint) (chunks : list ChunkFile) (ep : Endpoint)
    (f : Field) : option (option bucket) :=
  match ep_to_domain chunks with
  | Some e2d =>
      Some match field_gap (get_paths (bp_endpoints b) e2d ep) ep f with
           | [] => None
           | x :: _ => Some (fst x)
           end
  | None => None
  end.


(** The identifiers of the endpoints of a chunk file. *)
Definition chunk_ids (cf : ChunkFile) : list string :=
  map ep_id (cd_endpoints (cf_chunk cf)).

(** The list that a gap of a field goes to. *)
Definition bucket_of (f : Field) : bucket :=
  if field_required f then REQUIRED_GAP else OPTIONAL_GAP.

End CheckFkCoverage.

(* ===================================================================== *)
(** * scripts/confidence_score.py *)
(* ===================================================================== *)

Module ConfidenceScore.

#[local] Open Scope Z_scope.

(** The counters of the loop over the chunk files. *)
Record tally := mkTally {
  total_ep : Z;
  total_pages : Z;
  locator_pages : Z;
  total_locators : Z;
  ep_with_zero_get_fk : Z;
  ep_with_crosschunk_fk : Z;
  ep_page_routes : Z;
  ep_api_routes : Z
}.

Definition zero : tally := mkTally 0 0 0 0 0 0 0 0.

(** What the hint line of a required foreign-key field says. *)
Inductive fk_hint := NO_LIST_ENDPOINT | CROSS_CHUNK | OTHER_HINT.

(** [field_line]: the lines of the prompt that name the field and have
    the letters FK. *)
Definition field_line (msg : string) (fname : string) : list string :=
  List.filter (fun l => PyStr.contains fname l && PyStr.contains "FK" l)
              (PyStr.splitlines msg).

(** The reading of the first of these lines. *)
Definition hint_of (msg : string) (f : Field) : option fk_hint :=
  if PyRe.ends_in_id (field_name f) && field_required f then
    match field_line msg (field_name f) with
    | line :: _ =>
        if PyStr.contains "no list endpoint found" line
        then Some NO_LIST_ENDPOINT
        else if PyStr.contains "CROSS-CHUNK" line then Some CROSS_CHUNK
        else Some OTHER_HINT
    | [] => None
    end
  else None.

Definition count_field (msg : string) (t : tally) (f : Field) : tally :=
  match hint_of msg f with
  | Some NO_LIST_ENDPOINT =>
      mkTally (total_ep t) (total_pages t) (locator_pages t)
              (total_locators t) (ep_with_zero_get_fk t + 1)
              (ep_with_crosschunk_fk t) (ep_page_routes t) (ep_api_routes t)
  | Some CROSS_CHUNK =>
      mkTally (total_ep t) (total_pages t) (locator_pages t)
              (total_locators t) (ep_with_zero_get_fk t)
              (ep_with_crosschunk_fk t + 1) (ep_page_routes t)
              (ep_api_routes t)
  | _ => t
  end.

Definition fields_of (ep : Endpoint) : list Field :=
  match ep_requestBody ep with
  | Some b => body_fields b
  | None => []
  end.

(** The body of the loop over the endpoints of a chunk. *)
Definition count_endpoint (msg : string) (t : tally) (ep : Endpoint)
  : tally :=
  let t1 :=
    if ep_isPageRoute ep
    then mkTally (total_ep t + 1) (total_pages t) (locator_pages t)
                 (total_locators t) (ep_with_zero_get_fk t)
                 (ep_with_crosschunk_fk t) (ep_page_routes t + 1)
                 (ep_api_routes t)
    else mkTally (total_ep t + 1) (total_pages t) (locator_pages t)
                 (total_locators t) (ep_with_zero_get_fk t)
                 (ep_with_crosschunk_fk t) (ep_page_routes t)
                 (ep_api_routes t + 1) in
  fold_left (count_field msg) (fields_of ep) t1.

(** The body of the loop over the pages of a chunk. *)
Definition count_page (t : tally) (page : Page) : tally :=
  match pg_locators page with
  | [] =>
      mkTally (total_ep t) (total_pages t + 1) (locator_pages t)
              (total_locators t) (ep_with_zero_get_fk t)
              (ep_with_crosschunk_fk t) (ep_page_routes t) (ep_api_routes t)
  | locs =>
      mkTally (total_ep t) (total_pages t + 1) (locator_pages t + 1)
              (total_locators t + Z.of_nat (length locs))
              (ep_with_zero_get_fk t) (ep_with_crosschunk_fk t)
              (ep_page_routes t) (ep_api_routes t)
  end.

Definition count_chunk (t : tally) (cf : ChunkFile) : tally :=
  let chunk := cf_chunk cf in
  let msg := cf_llmUserMessage cf in
  fold_left count_page (cd_pages chunk)
    (fold_left (count_endpoint msg) (cd_endpoints chunk) t).

Definition count_chunks (chunks : list ChunkFile) : tally :=
  fold_left count_chunk chunks zero.

(** The penalties for the [auth] object of the blueprint. *)
Definition auth_penalty (auth : option AuthConfig) : Z :=
  if negb (auth_present auth) then 20
  else match auth with
       | Some a =>
           (if blank (auth_defaultEmail a) then 15 else 0)
           + (if String.eqb (default "NONE" (auth_tokenType a)) "bearer_jwt"
                 && negb (PyStr.nonempty
                            (default "" (auth_tokenResponsePath a)))
              then 5 else 0)
       | None => 0
       end.

(** The scoring: the value of [score] after each statement. *)
Definition score_of (auth : option AuthConfig) (t : tally) : Z :=
  let score := 100 in
  let score := score - auth_penalty auth in
  let score := if ep_with_zero_get_fk t >? 0
               then score - ep_with_zero_get_fk t * 5 else score in
  let score := if ep_with_crosschunk_fk t >? 0
               then score - ep_with_crosschunk_fk t * 2 else score in
  let score := if ep_page_routes t >? 0
               then score - Z.min (ep_page_routes t * 3) 15 else score in
  let no_loc_pages := total_pages t - locator_pages t in
  let score := if no_loc_pages >? 0
               then score - no_loc_pages * 2 else score in
  Z.max 0 (Z.min 100 score).

Definition score (bp : Blueprint) (chunks : list ChunkFile) : Z :=
  score_of (bp_auth bp) (count_chunks chunks).

Inductive band := HIGH | MEDIUM_HIGH | MEDIUM | LOW.

Definition verdict (score : Z) : band :=
  if score >=? 85 then HIGH
  else if score >=? 70 then MEDIUM_HIGH
  else if score >=? 55 then MEDIUM
  else LOW.

(** One more required foreign key without a list endpoint, one more
    that is resolved in another chunk, one more page route, one more
    page without locators. *)
Definition one_more_zero_get_fk (t : tally) : tally :=
  mkTally (total_ep t) (total_pages t) (locator_pages t) (total_locators t)
          (ep_with_zero_get_fk t + 1) (ep_with_crosschunk_fk t)
          (ep_page_routes t) (ep_api_routes t).

Definition one_more_crosschunk_fk (t : tally) : tally :=
  mkTally (total_ep t) (total_pages t) (locator_pages t) (total_locators t)
          (ep_with_zero_get_fk t) (ep_with_crosschunk_fk t + 1)
          (ep_page_routes t) (ep_api_routes t).

Definition one_more_page_route (t : tally) : tally :=
  mkTally (total_ep t + 1) (total_pages t) (locator_pages t)
          (total_locators t) (ep_with_zero_get_fk t)
          (ep_with_crosschunk_fk t) (ep_page_routes t + 1) (ep_api_routes t).

Definition one_more_bare_page (t : tally) : tally :=
  mkTally (total_ep t) (total_pages t + 1) (locator_pages t)
          (total_locators t) (ep_with_zero_get_fk t)
          (ep_with_crosschunk_fk t) (ep_page_routes t) (ep_api_routes t).

(** The counters that the loops can reach: none is negative, and the
    pages with locators are among the pages. *)
Definition reachable (t : tally) : Prop :=
  0 <= ep_with_zero_get_fk t /\ 0 <= ep_with_crosschunk_fk t
  /\ 0 <= ep_page_routes t /\ 0 <= locator_pages t
  /\ locator_pages t <= total_pages t.

(** The four penalised counts of [t] are at most those of [t']. *)
Definition no_more_than (t t' : tally) : Prop :=
  ep_with_zero_get_fk t <= ep_with_zero_get_fk t'
  /\ ep_with_crosschunk_fk t <= ep_with_crosschunk_fk t'
  /\ ep_page_routes t <= ep_page_routes t'
  /\ total_pages t - locator_pages t <= total_pages t' - locator_pages t'.


(** The endpoints and the pages of all the chunk files, in the order of
    the loop. *)
Definition all_endpoints (chunks : list ChunkFile) : list Endpoint :=
  flat_map (fun cf => cd_endpoints (cf_chunk cf)) chunks.

Definition all_pages (chunks : list ChunkFile) : list Page :=
  flat_map (fun cf => cd_pages (cf_chunk cf)) chunks.

Definition has_locators (page : Page) : bool :=
  match pg_locators page with [] => false | _ => true end.

(** The test of the loop over the fields: a required field whose name
    ends in [id]. *)
Definition is_required_key (f : Field) : bool :=
  PyRe.ends_in_id (field_name f) && field_required f.

(** The sum of what the scoring statements subtract. *)
Definition penalties (auth : option AuthConfig) (t : tally) : Z :=
  auth_penalty auth
  + ep_with_zero_get_fk t * 5
  + ep_with_crosschunk_fk t * 2
  + Z.min (ep_page_routes t * 3) 15
  + (total_pages t - locator_pages t) * 2.

(** What the loops add to the counters for a list of endpoints and a
    list of pages. *)
Definition adds (t t' : tally) (eps : list Endpoint) (pages : list Page)
  : Prop :=
  total_ep t' = total_ep t + Z.of_nat (length eps)
  /\ ep_page_routes t'
     = ep_page_routes t + Z.of_nat (length (List.filter ep_isPageRoute eps))
  /\ ep_api_routes t'
     = ep_api_routes t
       + Z.of_nat (length (List.filter (fun e => negb (ep_isPageRoute e)) eps))
  /\ total_pages t' = total_pages t + Z.of_nat (length pages)
  /\ locator_pages t'
     = locator_pages t + Z.of_nat (length (List.filter has_locators pages))
  /\ total_locators t'
     = total_locators t + Z.of_nat (length (flat_map pg_locators pages))
  /\ ep_with_zero_get_fk t <= ep_with_zero_get_fk t'
  /\ ep_with_crosschunk_fk t <= ep_with_crosschunk_fk t'
  /\ (ep_with_zero_get_fk t' - ep_with_zero_get_fk t)
     + (ep_with_crosschunk_fk t' - ep_with_crosschunk_fk t)
     <= Z.of_nat (length (List.filter is_required_key
                                      (flat_map fields_of eps))).

End ConfidenceScore.

(* ===================================================================== *)
(** * scripts/deep_validate.py *)
(* ===================================================================== *)

Module DeepValidate.

#[local] Open Scope Z_scope.

(** The entries of [issues_ep], [issues_pages] and [issues_chunks]. *)
Inductive ep_issue : Type :=
| NO_BODY_FIELDS (method path : string)
| DYNAMIC_NO_PATH_PARAMS (method path : string)
| EP_AUTH_NOT_SET (method path : string).

Inductive page_issue : Type :=
| ZERO_LOCATORS (route : string)
| PAGE_AUTH_NOT_SET (route : string)
| DYNAMIC_NO_ROUTE_PARAMS (route : string).

Inductive chunk_issue : Type :=
| SHORT_MESSAGE (fname : string) (llm_len : nat).

Definition fields_of (ep : Endpoint) : list Field :=
  match ep_requestBody ep with
  | Some b => body_fields b
  | None => []
  end.

(** The issues of the body of the loop over the endpoints.  (The key
    [requiresAuth], read when [authRequired] is absent, is not part of
    the document model.) *)
Definition endpoint_issues (ep : Endpoint) : list ep_issue :=
  let method := PyStr.upper (ep_method ep) in
  let path := ep_path ep in
  (if PyStr.mem method ["POST"; "PUT"; "PATCH"]
      && match fields_of ep with [] => true | _ => false end
   then [NO_BODY_FIELDS method path] else [])
  ++ (if PyRe.has_dynamic_seg path
         && match ep_pathParams ep with [] => true | _ => false end
      then [DYNAMIC_NO_PATH_PARAMS method path] else [])
  ++ (match ep_authRequired ep with
      | None => [EP_AUTH_NOT_SET method path]
      | Some _ => []
      end).

Definition page_issues (pg : Page) : list page_issue :=
  let route := default "?" (pg_route pg) in
  (match pg_locators pg with [] => [ZERO_LOCATORS route] | _ => [] end)
  ++ (match pg_authRequired pg with
      | None => [PAGE_AUTH_NOT_SET route]
      | Some _ => []
      end)
  ++ (if pg_isDynamic pg
         && match pg_routeParams pg with [] => true | _ => false end
      then [DYNAMIC_NO_ROUTE_PARAMS route] else []).

Definition chunk_issues (cf : ChunkFile) : list chunk_issue :=
  let llm_len := String.length (cf_llmUserMessage cf) in
  if (llm_len <? 100)%nat then [SHORT_MESSAGE (cf_name cf) llm_len] else [].

(** The sets of identifiers that the loops fill with [add]. *)
Definition ep_ids_in_bp (bp : Blueprint) : gset string :=
  foldl (fun ids ep => ids ∪ {[ ep_id ep ]}) ∅ (bp_endpoints bp).

Definition page_ids_in_bp (bp : Blueprint) : gset string :=
  foldl (fun ids pg => ids ∪ {[ pg_id pg ]}) ∅ (bp_pages bp).

Definition ep_ids_in_chunks (chunks : list ChunkFile) : gset string :=
  foldl (fun ids cf =>
           foldl (fun ids' ep => ids' ∪ {[ ep_id ep ]}) ids
                 (cd_endpoints (cf_chunk cf)))
        ∅ chunks.

Definition page_ids_in_chunks (chunks : list ChunkFile) : gset string :=
  foldl (fun ids cf =>
           foldl (fun ids' pg => ids' ∪ {[ pg_id pg ]}) ids
                 (cd_pages (cf_chunk cf)))
        ∅ chunks.

(** The cross-check: [missing_ep] and [missing_pg]. *)
Definition missing_ep (bp : Blueprint) (chunks : list ChunkFile)
  : gset string :=
  ep_ids_in_bp bp ∖ ep_ids_in_chunks chunks.

Definition missing_pg (bp : Blueprint) (chunks : list ChunkFile)
  : gset string :=
  page_ids_in_bp bp ∖ page_ids_in_chunks chunks.

Definition total_issues (bp : Blueprint) (chunks : list ChunkFile) : Z :=
  Z.of_nat (length (flat_map endpoint_issues (bp_endpoints bp)))
  + Z.of_nat (length (flat_map page_issues (bp_pages bp)))
  + Z.of_nat (length (flat_map chunk_issues chunks))
  + Z.of_nat (size (missing_ep bp chunks))
  + Z.of_nat (size (missing_pg bp chunks)).

(** [max(0, 100 - (total_issues * 5))] *)
Definition confidence (bp : Blueprint) (chunks : list ChunkFile) : Z :=
  Z.max 0 (100 - total_issues bp chunks * 5).


(** The percentage of [pct]: [100*n//d if d else 0]. *)
Definition pct_value (n d : Z) : Z := if d =? 0 then 0 else 100 * n / d.

(** The percentage of a cross-check line, from the identifiers of the
    blueprint and those of the chunks. *)
Definition cross_check (in_bp in_chunks : gset string) : Z :=
  pct_value (Z.of_nat (size in_bp) - Z.of_nat (size (in_bp ∖ in_chunks)))
            (Z.of_nat (size in_bp)).

Definition ep_cross_check (bp : Blueprint) (chunks : list ChunkFile) : Z :=
  cross_check (ep_ids_in_bp bp) (ep_ids_in_chunks chunks).

Definition pg_cross_check (bp : Blueprint) (chunks : list ChunkFile) : Z :=
  cross_check (page_ids_in_bp bp) (page_ids_in_chunks chunks).

(** The numbers of full and of empty cells of the quality bar. *)
Definition bar (confidence : Z) : Z * Z :=
  (confidence / 5, 20 - confidence / 5).

(** The test of the list [low_conf] of a page: a locator without a
    confidence counts as one of confidence 1. *)
Definition is_low_conf (loc : Locator) : bool :=
  Qltb (default 1%Q (loc_confidence loc)) float_0_7.

End DeepValidate.

(* ===================================================================== *)
(** * Example documents *)
(* ===================================================================== *)

Module Examples.

Definition locator (name code : string) (interactive : bool) : Locator :=
  mkLocator (Some name) (Some "role") code [] interactive false false
            (Some (9 # 10)).

Definition page_of (id route : string) (locs : list Locator) : Page :=
  mkPage id (Some route) (Some "Patients") (Some true) false [] locs
         (Some (9 # 10)).

Definition endpoint (id method path : string) (body : option RequestBody)
  : Endpoint :=
  mkEndpoint id method path [] [] body true (Some true) (Some "bearer")
             (Some "patients") (Some (9 # 10)) [] false.

Definition chunk_file (name domain msg : string) (eps : list Endpoint)
    (pages : list Page) : ChunkFile :=
  mkChunkFile name (Some domain) msg
              (mkChunkData (Some domain) eps pages None).

(** A page with two locators that share their selector code. *)
Definition save_a : Locator := locator "saveTop" "page.getByTestId('save')" false.
Definition save_b : Locator := locator "saveBottom" "page.getByTestId('save')" false.
Definition twin_page : Page := page_of "pg1" "/patients" [save_a; save_b].

(** A read endpoint whose request body is an object without fields. *)
Definition empty_body : RequestBody := mkBody "zod" None [].
Definition get_with_empty_body : Endpoint :=
  endpoint "ep1" "GET" "/api/patients" (Some empty_body).
Definition bleed_blueprint : Blueprint :=
  mkBlueprint
    (Some (mkAuth (Some "bearer_jwt") None (Some "/api/login") None
                  (Some (mkCredentials (Some "email") (Some "password")
                                       (Some "a@b.c") (Some "secret")))
                  None None None None None None false))
    [get_with_empty_body] [].

(** An order with a required customer key; the customers are listed in
    another chunk, or nowhere. *)
Definition customerId : Field :=
  mkField "customerId" (Some "string") true None.
Definition post_orders : Endpoint :=
  endpoint "ep_orders" "POST" "/orders"
           (Some (mkBody "zod" None [customerId])).
Definition get_customers : Endpoint :=
  endpoint "ep_customers" "GET" "/customers" None.
Definition get_orders : Endpoint :=
  endpoint "ep_order_list" "GET" "/orders" None.

Definition orders_chunk : ChunkFile :=
  chunk_file "orders.json" "orders" "" [post_orders; get_orders] [].
Definition customers_chunk : ChunkFile :=
  chunk_file "customers.json" "customers" "" [get_customers] [].

Definition shop_with_customers : Blueprint :=
  mkBlueprint None [post_orders; get_orders; get_customers] [].
Definition shop_without_customers : Blueprint :=
  mkBlueprint None [post_orders; get_orders] [].

(** A blueprint without [auth] and chunks that add no penalty. *)
Definition plain_chunk : ChunkFile :=
  chunk_file "patients.json" "patients" ""
    [endpoint "ep1" "GET" "/api/patients" None]
    [page_of "pg1" "/patients" [save_a]].
Definition no_auth_blueprint : Blueprint :=
  mkBlueprint None [endpoint "ep1" "GET" "/api/patients" None]
              [page_of "pg1" "/patients" [save_a]].

(** Locators with and without the page prefix, in a chunk of the Remix
    repository. *)
Definition xpath_locator : Locator :=
  locator "goButton" "//button[@id='go']" true.
Definition bare_locator : Locator := locator "saveButton" "button.save" true.
Definition prefix_page : Page :=
  page_of "pg2" "/patients/new" [xpath_locator; bare_locator].
Definition prefix_chunk : ChunkFile :=
  chunk_file "patients-2.json" "patients" "" [] [prefix_page].
Definition prefix_dirs : list (string * list ChunkFile) :=
  [("remix", [prefix_chunk])].

(** The same locator on a page that has no route. *)
Definition routeless_page : Page :=
  mkPage "pg9" None (Some "Patients") (Some true) false [] [bare_locator]
         (Some (9 # 10)).
Definition routeless_dirs : list (string * list ChunkFile) :=
  [("remix", [chunk_file "patients-3.json" "patients" "" [] [routeless_page]])].

(** A chunk with entities below and above the confidence thresholds. *)
Definition unsure_endpoint : Endpoint :=
  mkEndpoint "ep_low" "GET" "/api/visits" [] [] None true (Some true)
             (Some "bearer") (Some "visits") (Some (1 # 2)) [] false.
Definition unsure_locator : Locator :=
  mkLocator (Some "visitRow") (Some "text") "page.getByText('Visit')" []
            false false false (Some (3 # 10)).
Definition unrated_page : Page :=
  mkPage "pg_low" (Some "/visits") (Some "Visits") (Some true) false []
         [unsure_locator; save_a] None.
Definition unsure_chunk : ChunkFile :=
  chunk_file "visits.json" "visits" ""
    [unsure_endpoint; endpoint "ep1" "GET" "/api/patients" None]
    [unrated_page].

(** A blueprint with two endpoints and two pages, and a chunk that has
    one of each. *)
Definition two_of_each : Blueprint :=
  mkBlueprint None
    [endpoint "ep1" "GET" "/api/patients" None;
     endpoint "ep2" "GET" "/api/visits" None]
    [page_of "pg1" "/patients" [save_a]; page_of "pg2" "/visits" [save_a]].
Definition one_of_each : ChunkFile :=
  chunk_file "patients.json" "patients" ""
    [endpoint "ep1" "GET" "/api/patients" None]
    [page_of "pg1" "/patients" [save_a]].

(** A chunk whose prompt says that the required key of the order has no
    list endpoint. *)
Definition hinted_chunk : ChunkFile :=
  chunk_file "orders.json" "orders"
    "- customerId (required) FK: no list endpoint found" [post_orders] [].

(** The same chunk with a prompt that says that the key is resolved in
    another chunk. *)
Definition cross_hinted_chunk : ChunkFile :=
  chunk_file "orders.json" "orders"
    "- customerId (required) FK CROSS-CHUNK: GET /customers first"
    [post_orders] [].

(** Role selectors without and with a name. *)
Definition bare_button : Locator :=
  locator "submit" "page.getByRole('button')" true.
Definition named_button : Locator :=
  locator "save" "page.getByRole('button', { name: 'Save' })" true.
Definition button_page : Page :=
  page_of "pg3" "/patients/edit" [bare_button; named_button].
Definition button_blueprint : Blueprint := mkBlueprint None [] [button_page].

(** An interactive button that is addressed by its role alone and
    narrowed to the first match, and one with an exact-match option and
    no name. *)
Definition first_button : Locator :=
  locator "firstRow" "page.getByRole('button').first()" true.
Definition exact_button : Locator :=
  locator "exact" "page.getByRole('button', { exact: true })" true.


(** A page with an interactive row of a list and a conditional banner. *)
Definition row_button : Locator :=
  mkLocator (Some "rowDelete") (Some "role")
            "page.getByRole('button', { name: 'Delete' })" ["DYNAMIC_LIST"]
            true false false (Some (9 # 10)).
Definition banner : Locator :=
  mkLocator (Some "banner") (Some "text") "page.getByText('Welcome')" []
            false true false (Some (9 # 10)).
Definition list_blueprint : Blueprint :=
  mkBlueprint None [] [page_of "pg4" "/visits" [row_button]].
Definition banner_blueprint : Blueprint :=
  mkBlueprint None [] [page_of "pg5" "/home" [banner]].


(** A write endpoint of the allow-list and one that is not on it, both
    without a request body. *)
Definition logout : Endpoint := endpoint "ep_logout" "POST" "/auth/logout" None.
Definition create_visit : Endpoint :=
  endpoint "ep_visit" "POST" "/api/visits" None.

(** An endpoint whose path and declared parameters agree, and one with a
    parameter that the path does not have. *)
Definition get_visit : Endpoint :=
  mkEndpoint "ep_get_visit" "GET" "/api/visits/:visitId"
             [mkParam "visitId" true (Some (JStr "v1"))] [] None true
             (Some true) (Some "bearer") (Some "visits") (Some (9 # 10)) []
             false.
Definition list_visits : Endpoint :=
  mkEndpoint "ep_list_visits" "GET" "/api/visits"
             [mkParam "visitId" true (Some (JStr "v1"))] [] None true
             (Some true) (Some "bearer") (Some "visits") (Some (9 # 10)) []
             false.


(** A locator whose selector code has white space only. *)
Definition blank_locator : Locator := locator "blank" "   " false.


(** An earlier chunk file that has the endpoint of the order list too,
    and a field whose whole name is the key suffix. *)
Definition archive_chunk : ChunkFile :=
  chunk_file "archive.json" "archive" "" [get_orders] [].
Definition bare_id : Field := mkField "Id" (Some "string") true None.


(** Counters with five and with nine page routes, and nothing else. *)
Definition five_page_routes : ConfidenceScore.tally :=
  ConfidenceScore.mkTally 5 0 0 0 0 0 5 0.
Definition nine_page_routes : ConfidenceScore.tally :=
  ConfidenceScore.mkTally 9 0 0 0 0 0 9 0.


(** A write endpoint whose method is in small letters, and a locator
    without a confidence. *)
Definition small_post : Endpoint :=
  endpoint "ep_small" "post" "/api/visits" None.
Definition unrated_locator : Locator :=
  mkLocator (Some "title") (Some "text") "page.getByText('Visits')" []
            false false false None.


(** An [auth] object that has the key [type] in the place of
    [tokenType]. *)
Definition typed_auth : AuthConfig :=
  mkAuth None (Some "session_cookie") (Some "/auth/login") None None None
         None None None None None false.


(** Two endpoints of the same method and path, the first with a request
    body, and a HEAD endpoint with a request body. *)
Definition get_patients_body : Endpoint :=
  endpoint "ep_a" "GET" "/api/patients" (Some empty_body).
Definition get_patients_plain : Endpoint :=
  endpoint "ep_b" "GET" "/api/patients" None.
Definition head_with_body : Endpoint :=
  endpoint "ep_head" "HEAD" "/api/patients" (Some empty_body).

(** The inputs of a run: a repository without [auth] in its blueprint
    and one with it. *)
Definition repo_without_auth : ValidateBlueprints.repo :=
  ValidateBlueprints.mkRepo no_auth_blueprint [] ∅.
Definition full_auth : AuthConfig :=
  mkAuth (Some "session_cookie") None (Some "/auth/login") (Some "form")
         None (Some "email") (Some "password") (Some "a@b.c")
         (Some "secret") (Some "sid") None false.
Definition repo_with_auth : ValidateBlueprints.repo :=
  ValidateBlueprints.mkRepo (mkBlueprint (Some full_auth) [] []) [] ∅.


(** A blueprint whose [auth] object has the token type alone, as the
    input of a run. *)
Definition token_only_auth : AuthConfig :=
  mkAuth (Some "bearer_jwt") None None None None None None None None None
         None false.
Definition repo_token_only : ValidateBlueprints.repo :=
  ValidateBlueprints.mkRepo (mkBlueprint (Some token_only_auth) [] []) [] ∅.

End Examples.

(* ===================================================================== *)
(** * The resolvability rule in the words of the specification *)
(* ===================================================================== *)

Module FkRule.

Inductive category :=
| REQUIRED_FK_CROSS_CHUNK
| REQUIRED_FK_UNRESOLVABLE.

Inductive severity := BLOCKING | LIKELY | ADVISORY.

Definition severity_of (c : category) : severity :=
  match c with
  | REQUIRED_FK_CROSS_CHUNK => LIKELY
  | REQUIRED_FK_UNRESOLVABLE => BLOCKING
  end.

(** The name without its suffix [Id] or [ID]. *)
Fixpoint strip_suffix (fname : string) : string :=
  match fname with
  | EmptyString => EmptyString
  | String c rest =>
      if String.eqb fname "Id" || String.eqb fname "ID"
      then EmptyString else String c (strip_suffix rest)
  end.

(** The candidate resource name: strip the suffix, lower-case. *)
Definition candidate (fname : string) : string :=
  PyStr.lower (strip_suffix fname).

(** Some GET endpoint among [eps] has a path that contains the resource
    name, whatever the case of the letters. *)
Definition listed (res : string) (eps : list Endpoint) : bool :=
  existsb (fun e => String.eqb (ep_method e) "GET"
                    && PyStr.contains res (PyStr.lower (ep_path e))) eps.

(** The endpoints of the blueprint in the domain of [ep]. *)
Definition same_chunk (eps : list Endpoint) (e2d : gmap string string)
    (ep : Endpoint) : list Endpoint :=
  List.filter
    (fun e => bool_decide (e2d !! ep_id e = Some (default "?" (e2d !! ep_id ep))))
    eps.

(** The finding of the rule for a required field with a key name: none
    when the resource is listed in the chunk, [REQUIRED_FK_CROSS_CHUNK]
    when it is listed only elsewhere in the blueprint, and
    [REQUIRED_FK_UNRESOLVABLE] when it is listed nowhere. *)
Definition finding (eps : list Endpoint) (e2d : gmap string string)
    (ep : Endpoint) (f : Field) : option category :=
  let res := candidate (field_name f) in
  if listed res (same_chunk eps e2d ep) then None
  else if listed res eps then Some REQUIRED_FK_CROSS_CHUNK
  else Some REQUIRED_FK_UNRESOLVABLE.

End FkRule.

(* ===================================================================== *)
(** * The rule for role selectors as the specification words it *)
(* ===================================================================== *)

Module RoleRule.

(** The selector targets the role [r]: it calls [getByRole] with [r] as
    its first argument. *)
Definition targets (r : string) (loc : Locator) : bool :=
  PyStr.contains ("getByRole('" +:+ r +:+ "'") (AuditLocators.pw_of loc).

(** The selector carries a qualifying name. *)
Definition named (loc : Locator) : bool :=
  PyStr.contains "name:" (AuditLocators.pw_of loc).

(** The locators that the rule is about: strategy [role], an interactive
    role type, no qualifying name, and [isInteractive] set. *)
Definition unqualified (r : string) (loc : Locator) : bool :=
  String.eqb (default "?" (loc_strategy loc)) "role"
  && PyStr.mem r AuditLocators.interactive_roles
  && targets r loc && negb (named loc) && loc_isInteractive loc.

End RoleRule.

(* ===================================================================== *)
(** * Properties of the string primitives *)
(* ===================================================================== *)

Section StringFacts.

Lemma ascii_eqb_true (a b : ascii) : Ascii.eqb a b = true <-> a = b.
Proof. apply Ascii.eqb_eq. Qed.

Lemma startswith_app (p r : string) : PyStr.startswith p (p +:+ r) = true.
Proof.
  induction p as [|a p IH]; simpl; [reflexivity|].
  rewrite Ascii.eqb_refl. exact IH.
Qed.

Lemma startswith_inv (p s : string) :
  PyStr.startswith p s = true -> exists r, s = p +:+ r.
Proof.
  revert s. induction p as [|a p IH]; intros s H; simpl in *.
  - exists s. reflexivity.
  - destruct s as [|b s]; [discriminate|].
    apply andb_true_iff in H as [Hab Hp].
    apply Ascii.eqb_eq in Hab. subst b.
    destruct (IH s Hp) as [r ->]. exists r. reflexivity.
Qed.

Lemma startswith_take (p s : string) (n : nat) :
  String.length p <= n ->
  PyStr.startswith p (PyStr.take n s) = PyStr.startswith p s.
Proof.
  revert s n. induction p as [|a p IH]; intros s n Hn; simpl.
  - reflexivity.
  - simpl in Hn. destruct n as [|n]; [lia|].
    destruct s as [|b s]; simpl; [reflexivity|].
    rewrite IH by lia. reflexivity.
Qed.

Lemma take_nonempty (s : string) (n : nat) :
  0 < n -> PyStr.nonempty (PyStr.take n s) = PyStr.nonempty s.
Proof. destruct n; [lia|]. destruct s; reflexivity. Qed.

Lemma nonempty_true (s : string) : PyStr.nonempty s = true <-> s <> "".
Proof. destruct s; simpl; split; congruence. Qed.

Lemma mem_In (x : string) (xs : list string) :
  PyStr.mem x xs = true <-> In x xs.
Proof.
  unfold PyStr.mem. rewrite existsb_exists. split.
  - intros [y [Hy Heq]]. apply String.eqb_eq in Heq. subst. exact Hy.
  - intros H. exists x. split; [exact H | apply String.eqb_refl].
Qed.

Lemma Qltb_lt (x y : Q) : Qltb x y = true <-> (x < y)%Q.
Proof. unfold Qltb, Qlt. apply Z.ltb_lt. Qed.

Lemma Qltb_ge (x y : Q) : Qltb x y = false <-> (y <= x)%Q.
Proof. unfold Qltb, Qle. rewrite Z.ltb_ge. reflexivity. Qed.

End StringFacts.

(* ===================================================================== *)
(** * check_locators.py: the page prefix *)
(* ===================================================================== *)

Section CheckLocatorsFacts.

Import CheckLocators.

Lemma fold_opt_spec {A B} (f : B -> A -> option B)
    (R : B -> B -> list A -> Prop) (bad : A -> bool) :
  (forall b, R b b []) ->
  (forall b1 b2 b3 l1 l2, R b1 b2 l1 -> R b2 b3 l2 -> R b1 b3 (l1 ++ l2)) ->
  (forall b x, match f b x with
               | Some b' => bad x = false /\ R b b' [x]
               | None => bad x = true
               end) ->
  forall l b, match fold_opt f l b with
              | Some b' => existsb bad l = false /\ R b b' l
              | None => existsb bad l = true
              end.
Proof.
  intros R_nil R_app step l. induction l as [|x l IH]; intros b; simpl.
  - split; [reflexivity | apply R_nil].
  - pose proof (step b x) as Hs. destruct (f b x) as [b1|].
    + destruct Hs as [Hb HR]. rewrite Hb. simpl. specialize (IH b1).
      destruct (fold_opt f l b1) as [b2|]; [|exact IH].
      destruct IH as [Hl HR']. split; [exact Hl|].
      exact (R_app b b1 b2 [x] l HR HR').
    + rewrite Hs. reflexivity.
Qed.

(** Whether a locator has a finding does not depend on the names that
    the messages carry. *)
Lemma flagged_spec repo chunk route loc :
  check_locator repo chunk route loc = [] <-> flagged loc = false.
Proof.
  unfold flagged, check_locator. cbv zeta.
  destruct (negb (PyStr.nonempty (loc_playwrightCode loc))
            || String.eqb (PyStr.strip (loc_playwrightCode loc)) ""),
    (PyStr.contains "undefined" (loc_playwrightCode loc)
     || String.eqb (PyStr.strip (loc_playwrightCode loc)) "null"),
    (PyRe.has_bare_segment (loc_playwrightCode loc)),
    (PyStr.nonempty (default "" (loc_strategy loc))
     && negb (PyStr.mem (PyStr.lower (default "" (loc_strategy loc)))
                valid_strategies)),
    (lacks_page_prefix (loc_playwrightCode loc));
    simpl; split; intros H; try reflexivity; discriminate H.
Qed.

Lemma counted_pages_step st st1 st2 pages1 pages2 :
  counted_pages st st1 pages1 -> counted_pages st1 st2 pages2 ->
  counted_pages st st2 (pages1 ++ pages2).
Proof.
  unfold counted_pages. intros (A1 & A2 & A3 & A4) (B1 & B2 & B3 & B4).
  rewrite !List.filter_app, flat_map_app, !length_app. lia.
Qed.

Lemma counted_pages_refl st : counted_pages st st [].
Proof. unfold counted_pages. simpl. lia. Qed.

Lemma locators_bad_app repo chunk page l1 l2 :
  locators_bad repo chunk page (l1 ++ l2)
  = locators_bad repo chunk page l1 ++ locators_bad repo chunk page l2.
Proof.
  unfold locators_bad. destruct (pg_route page); [|reflexivity].
  apply flat_map_app.
Qed.

Lemma visit_locators_spec repo chunk page locs st :
  match fold_opt (visit_locator repo chunk page) locs st with
  | Some st' =>
      match pg_route page with
      | Some _ => true
      | None => negb (existsb flagged locs)
      end = true
      /\ after_locators repo chunk page st st' locs
  | None => pg_route page = None /\ existsb flagged locs = true
  end.
Proof.
  pose proof (fold_opt_spec (visit_locator repo chunk page)
                (after_locators repo chunk page)
                (fun loc => match pg_route page with
                            | Some _ => false
                            | None => flagged loc
                            end)) as H.
  assert (Hbad : existsb (fun loc => match pg_route page with
                                     | Some _ => false
                                     | None => flagged loc
                                     end) locs
                 = match pg_route page with
                   | Some _ => false
                   | None => existsb flagged locs
                   end).
  { destruct (pg_route page); [|reflexivity].
    induction locs as [|l locs IH]; [reflexivity | exact IH]. }
  specialize (H ltac:(intros b; unfold after_locators, locators_bad;
                      destruct (pg_route page); simpl;
                      rewrite ?app_nil_r; (split; [lia | reflexivity]))).
  assert (Happ : forall b1 b2 b3 l1 l2,
             after_locators repo chunk page b1 b2 l1 ->
             after_locators repo chunk page b2 b3 l2 ->
             after_locators repo chunk page b1 b3 (l1 ++ l2)).
  { unfold after_locators. intros b1 b2 b3 l1 l2 [A1 A2] [B1 B2].
    rewrite locators_bad_app, length_app, B2, A2, app_assoc.
    split; [lia | reflexivity]. }
  specialize (H Happ).
  assert (Hstep : forall b x,
             match visit_locator repo chunk page b x with
             | Some b' =>
                 match pg_route page with
                 | Some _ => false
                 | None => flagged x
                 end = false
                 /\ after_locators repo chunk page b b' [x]
             | None => match pg_route page with
                       | Some _ => false
                       | None => flagged x
                       end = true
             end).
  { intros b x. unfold visit_locator, locator_findings, after_locators,
      locators_bad.
    destruct (pg_route page) as [r|].
    - simpl. rewrite app_nil_r. split; [reflexivity|].
      split; [lia | reflexivity].
    - destruct (flagged x); [reflexivity|]. simpl.
      split; [reflexivity|]. split; [lia | reflexivity]. }
  specialize (H Hstep locs st). rewrite Hbad in H.
  destruct (fold_opt (visit_locator repo chunk page) locs st) as [st'|].
  - destruct H as [Hno Hafter]. split; [|exact Hafter].
    destruct (pg_route page); [reflexivity|]. rewrite Hno. reflexivity.
  - destruct (pg_route page); [discriminate H | split; [reflexivity|exact H]].
Qed.

Lemma visit_page_spec repo chunk st page :
  match visit_page repo chunk st page with
  | Some st' => raises_on page = false
                /\ after_pages repo chunk st st' [page]
  | None => raises_on page = true
  end.
Proof.
  pose proof (visit_locators_spec repo chunk page (pg_locators page)
                  (mkStats (total_pages st + 1) (pages_with_locators st + 1)
                     (pages_no_locators st) (total_locators st)
                     (bad_locators st))) as H.
  unfold visit_page, raises_on, after_pages, counted_pages, page_bad,
    has_locators, after_locators in *.
  cbn [flat_map List.filter length app]. rewrite !app_nil_r.
  destruct (pg_locators page) as [|l locs] eqn:E.
  - unfold locators_bad.
    destruct (pg_route page); cbn [existsb negb length flat_map app];
      rewrite ?app_nil_r;
      (split; [reflexivity|]); (split; [simpl; lia | reflexivity]).
  - destruct (fold_opt (visit_locator repo chunk page) (l :: locs) _)
      as [st'|].
    + destruct H as [Hno [(H1 & H2 & H3 & H4) Hbad]]. split.
      * destruct (pg_route page); [reflexivity|].
        apply negb_true_iff in Hno. exact Hno.
      * cbn [total_pages pages_with_locators pages_no_locators
               total_locators bad_locators] in H1, H2, H3, H4, Hbad.
        cbn [negb length app].
        split; [|exact Hbad]. rewrite H1, H2, H3, H4. simpl. lia.
    + destruct H as [-> H]. exact H.
Qed.

Lemma after_pages_app repo chunk b1 b2 b3 l1 l2 :
  after_pages repo chunk b1 b2 l1 -> after_pages repo chunk b2 b3 l2 ->
  after_pages repo chunk b1 b3 (l1 ++ l2).
Proof.
  unfold after_pages. intros [A1 A2] [B1 B2].
  split; [exact (counted_pages_step _ _ _ _ _ A1 B1)|].
  rewrite flat_map_app, B2, A2, app_assoc. reflexivity.
Qed.

Lemma visit_chunk_spec repo st cf :
  match visit_chunk repo st cf with
  | Some st' => existsb raises_on (cd_pages (cf_chunk cf)) = false
                /\ after_chunks repo st st' [cf]
  | None => existsb raises_on (cd_pages (cf_chunk cf)) = true
  end.
Proof.
  unfold visit_chunk.
  pose proof (fold_opt_spec (visit_page repo (cf_name cf))
                (after_pages repo (cf_name cf)) raises_on
                ltac:(intros b; split;
                      [apply counted_pages_refl
                      | simpl; rewrite app_nil_r; reflexivity])
                (after_pages_app repo (cf_name cf))
                (visit_page_spec repo (cf_name cf))
                (cd_pages (cf_chunk cf)) st) as H.
  destruct (fold_opt (visit_page repo (cf_name cf)) _ st) as [st'|];
    [|exact H].
  destruct H as [Hno [Hc Hb]]. split; [exact Hno|].
  unfold after_chunks, chunk_pages, chunk_bad. simpl. rewrite !app_nil_r.
  split; assumption.
Qed.

Lemma after_chunks_app repo b1 b2 b3 l1 l2 :
  after_chunks repo b1 b2 l1 -> after_chunks repo b2 b3 l2 ->
  after_chunks repo b1 b3 (l1 ++ l2).
Proof.
  unfold after_chunks, chunk_pages. intros [A1 A2] [B1 B2].
  rewrite !flat_map_app.
  split; [exact (counted_pages_step _ _ _ _ _ A1 B1)|].
  rewrite B2, A2, app_assoc. reflexivity.
Qed.

Lemma visit_chunks_spec repo chunks st :
  match fold_opt (visit_chunk repo) chunks st with
  | Some st' => existsb raises_on (chunk_pages chunks) = false
                /\ after_chunks repo st st' chunks
  | None => existsb raises_on (chunk_pages chunks) = true
  end.
Proof.
  assert (Hex : existsb (fun cf => existsb raises_on (cd_pages (cf_chunk cf)))
                        chunks
                = existsb raises_on (chunk_pages chunks)).
  { unfold chunk_pages. induction chunks as [|c cs IH]; [reflexivity|].
    simpl. rewrite existsb_app, IH. reflexivity. }
  pose proof (fold_opt_spec (visit_chunk repo) (after_chunks repo)
                (fun cf => existsb raises_on (cd_pages (cf_chunk cf)))
                ltac:(intros b; split;
                      [apply counted_pages_refl
                      | simpl; rewrite app_nil_r; reflexivity])
                (after_chunks_app repo) (visit_chunk_spec repo) chunks st)
    as H.
  rewrite Hex in H. exact H.
Qed.

Lemma after_dirs_app b1 b2 b3 l1 l2 :
  after_dirs b1 b2 l1 -> after_dirs b2 b3 l2 -> after_dirs b1 b3 (l1 ++ l2).
Proof.
  unfold after_dirs, all_pages, all_bad. intros [A1 A2] [B1 B2].
  rewrite !flat_map_app.
  split; [exact (counted_pages_step _ _ _ _ _ A1 B1)|].
  rewrite B2, A2, app_assoc. reflexivity.
Qed.

(** The two ends of a run: it goes through, with the counters and the
    findings of the documents, or it stops on a page without a route
    that has a locator with a finding. *)
Lemma run_spec dirs :
  match run dirs with
  | Some st => existsb raises_on (all_pages dirs) = false
               /\ after_dirs (mkStats 0 0 0 0 []) st dirs
  | None => existsb raises_on (all_pages dirs) = true
  end.
Proof.
  unfold run.
  pose proof (fold_opt_spec
                (fun st '(repo, chunks) =>
                   fold_opt (visit_chunk repo) chunks st)
                after_dirs
                (fun d => existsb raises_on (chunk_pages (snd d)))
                ltac:(intros b; split;
                      [apply counted_pages_refl
                      | simpl; rewrite app_nil_r; reflexivity])
                after_dirs_app) as H.
  assert (Hstep : forall b (x : string * list ChunkFile),
             match (let '(repo, chunks) := x in
                    fold_opt (visit_chunk repo) chunks b) with
             | Some b' => existsb raises_on (chunk_pages (snd x)) = false
                          /\ after_dirs b b' [x]
             | None => existsb raises_on (chunk_pages (snd x)) = true
             end).
  { intros b [repo chunks]. cbn [snd].
    pose proof (visit_chunks_spec repo chunks b) as Hc.
    destruct (fold_opt (visit_chunk repo) chunks b) as [b'|]; [|exact Hc].
    destruct Hc as [Hno [Hc Hb]]. split; [exact Hno|].
    unfold after_dirs, all_pages, all_bad. simpl. rewrite !app_nil_r.
    split; assumption. }
  assert (Hex : existsb (fun d : string * list ChunkFile =>
                           existsb raises_on (chunk_pages (snd d))) dirs
                = existsb raises_on (all_pages dirs)).
  { unfold all_pages. induction dirs as [|[r c] ds IH]; [reflexivity|].
    simpl. rewrite existsb_app, IH. reflexivity. }
  specialize (H Hstep dirs (mkStats 0 0 0 0 [])).
  rewrite Hex in H. exact H.
Qed.

Lemma raises_on_inv (pages : list Page) :
  existsb raises_on pages = true <->
  exists pg, In pg pages /\ pg_route pg = None
             /\ exists l, In l (pg_locators pg) /\ flagged l = true.
Proof.
  rewrite existsb_exists. unfold raises_on. split.
  - intros [pg [Hin H]]. exists pg. split; [exact Hin|].
    destruct (pg_route pg); [discriminate H|]. split; [reflexivity|].
    apply existsb_exists in H. exact H.
  - intros [pg [Hin [Hr Hl]]]. exists pg. split; [exact Hin|].
    rewrite Hr. apply existsb_exists. exact Hl.
Qed.

Lemma In_all_bad dirs b :
  In b (all_bad dirs) <->
  exists repo chunks cf page loc route,
    In (repo, chunks) dirs /\ In cf chunks
    /\ In page (cd_pages (cf_chunk cf)) /\ In loc (pg_locators page)
    /\ pg_route page = Some route
    /\ In b (check_locator repo (cf_name cf) route loc).
Proof.
  unfold all_bad, chunk_bad, page_bad, locators_bad.
  rewrite in_flat_map. split.
  - intros [[repo chunks] [Hd H]].
    apply in_flat_map in H as [cf [Hc H]].
    apply in_flat_map in H as [page [Hp H]].
    destruct (pg_route page) as [route|] eqn:Hr; [|destruct H].
    apply in_flat_map in H as [loc [Hl H]].
    exists repo, chunks, cf, page, loc, route. auto 7.
  - intros (repo & chunks & cf & page & loc & route
            & Hd & Hc & Hp & Hl & Hr & H).
    exists (repo, chunks). split; [exact Hd|].
    apply in_flat_map. exists cf. split; [exact Hc|].
    apply in_flat_map. exists page. split; [exact Hp|]. rewrite Hr.
    apply in_flat_map. exists loc. split; [exact Hl | exact H].
Qed.

(** The findings of one locator that are of the missing-prefix kind. *)
Lemma check_locator_missing_prefix repo chunk route loc b :
  In b (check_locator repo chunk route loc) ->
  is_missing_prefix b = true ->
  lacks_page_prefix (loc_playwrightCode loc) = true
  /\ b = MISSING_PAGE_PREFIX repo chunk route
           (PyStr.take 120 (loc_playwrightCode loc)).
Proof.
  unfold check_locator. intros Hin Hb.
  rewrite !in_app_iff in Hin.
  destruct Hin as [H|[H|[H|[H|H]]]];
    match type of H with
    | In _ (if ?c then _ else _) => destruct c eqn:E
    end; simpl in H; try contradiction;
    destruct H as [<-|[]]; try discriminate Hb.
  split; reflexivity.
Qed.

Lemma check_locator_flags repo chunk route loc :
  lacks_page_prefix (loc_playwrightCode loc) = true ->
  In (MISSING_PAGE_PREFIX repo chunk route
        (PyStr.take 120 (loc_playwrightCode loc)))
     (check_locator repo chunk route loc).
Proof.
  intros H. unfold check_locator. rewrite H.
  repeat (apply in_or_app; right). left. reflexivity.
Qed.

End CheckLocatorsFacts.

Section PagePrefix.

Import CheckLocators.

Variable dirs : list (string * list ChunkFile).
Variables (repo : string) (chunks : list ChunkFile) (cf : ChunkFile).
Variables (page : Page) (loc : Locator).

Hypothesis in_dirs : In (repo, chunks) dirs.
Hypothesis in_chunks : In cf chunks.
Hypothesis in_pages : In page (cd_pages (cf_chunk cf)).
Hypothesis in_locators : In loc (pg_locators page).

Let code := loc_playwrightCode loc.


End PagePrefix.

(** C9, as it is stated, fails: a locator whose code begins with none
    of the three prefixes, on a page without a route, is not flagged;
    the message of its finding reads the route, and the run ends there
    without a report. *)
Lemma page_prefix_without_route :
  In Examples.bare_locator (pg_locators Examples.routeless_page)
  /\ loc_playwrightCode Examples.bare_locator <> ""
  /\ PyStr.startswith "page." (loc_playwrightCode Examples.bare_locator)
     = false
  /\ PyStr.startswith "//" (loc_playwrightCode Examples.bare_locator) = false
  /\ PyStr.startswith "#" (loc_playwrightCode Examples.bare_locator) = false
  /\ CheckLocators.run Examples.routeless_dirs = None.
Proof.
  split; [left; reflexivity|]. split; [discriminate|].
  repeat split; vm_compute; reflexivity.
Qed.

(* ===================================================================== *)
(** * validate_chunks.py: low confidence *)
(* ===================================================================== *)

Section LowConfidence.

Import ValidateChunks.

Ltac cases_in H :=
  repeat match type of H with
  | In _ (_ ++ _) => apply in_app_or in H as [H|H]
  | In _ (if ?c then _ else _) => destruct c eqn:?; simpl in H
  | In _ (match ?c with _ => _ end) => destruct c eqn:?; simpl in H
  | In _ [] => destruct H
  | In _ [_] => destruct H as [H|[]]
  | _ \/ _ => destruct H as [H|H]
  | False => destruct H
  end.

Lemma in_flat_map_if {A} (f : A -> bool) (g : A -> issue) (l : list A) x :
  In x (flat_map (fun a => if f a then [] else [g a]) l) ->
  exists a, In a l /\ x = g a.
Proof.
  intros H. apply in_flat_map in H as [a [Ha H]].
  destruct (f a); simpl in H; [destruct H|].
  destruct H as [<-|[]]. exists a. auto.
Qed.

(** The endpoint issues of the low-confidence kind. *)
Lemma endpoint_low_confidence auth ep c :
  In (LOW_CONFIDENCE c) (endpoint_issues auth ep) <->
  c = confidence_or_0 (ep_confidence ep)
  /\ Qltb (confidence_or_0 (ep_confidence ep)) float_0_6 = true.
Proof.
  unfold endpoint_issues. split.
  - intros H. rewrite !in_app_iff in H.
    destruct H as [H|[H|[H|[H|[H|[H|[H|[H|H]]]]]]]].
    + cases_in H; discriminate.
    + apply in_flat_map_if in H as [a [_ H]]. discriminate.
    + apply in_flat_map_if in H as [a [_ H]]. discriminate.
    + cases_in H; discriminate.
    + destruct (ep_requestBody ep); [|destruct H].
      apply in_flat_map in H as [bf [_ H]]. cases_in H; discriminate.
    + cases_in H; discriminate.
    + cases_in H; discriminate.
    + cases_in H; discriminate.
    + destruct (Qltb _ _) eqn:E; simpl in H; [|destruct H].
      destruct H as [H|[]]. injection H as <-. auto.
  - intros [-> E]. rewrite E.
    repeat (apply in_or_app; right). left. reflexivity.
Qed.

(** The issues of a locator of the low-confidence kind. *)
Lemma locator_low_confidence loc n c :
  In (LOCATOR_LOW_CONFIDENCE n c) (locator_issues loc) <->
  n = default "?" (loc_name loc)
  /\ c = confidence_or_0 (loc_confidence loc)
  /\ Qltb (confidence_or_0 (loc_confidence loc)) float_0_5 = true.
Proof.
  unfold locator_issues. split.
  - intros H. apply in_app_or in H as [H|H].
    + cases_in H; discriminate.
    + destruct (Qltb _ _) eqn:E; simpl in H; [|destruct H].
      destruct H as [H|[]]. injection H as <- <-. auto.
  - intros (-> & -> & E). rewrite E.
    apply in_or_app. right. left. reflexivity.
Qed.

Lemma page_locator_low_confidence auth pg n c :
  In (LOCATOR_LOW_CONFIDENCE n c) (page_issues auth pg) <->
  exists loc, In loc (pg_locators pg)
              /\ In (LOCATOR_LOW_CONFIDENCE n c) (locator_issues loc).
Proof.
  unfold page_issues. split.
  - intros H. rewrite !in_app_iff in H.
    destruct H as [H|[H|[H|[H|[H|H]]]]].
    + cases_in H; discriminate.
    + apply in_flat_map in H. exact H.
    + cases_in H; discriminate.
    + apply in_flat_map_if in H as [a [_ H]]. discriminate.
    + cases_in H; discriminate.
    + cases_in H; discriminate.
  - intros H. apply in_or_app. right. apply in_or_app. left.
    apply in_flat_map. exact H.
Qed.

(** The page issues of the low-confidence kind. *)
Lemma page_low_confidence auth pg c :
  In (PAGE_LOW_CONFIDENCE c) (page_issues auth pg) <->
  c = confidence_or_0 (pg_confidence pg)
  /\ Qltb (confidence_or_0 (pg_confidence pg)) float_0_6 = true.
Proof.
  unfold page_issues. split.
  - intros H. rewrite !in_app_iff in H.
    destruct H as [H|[H|[H|[H|[H|H]]]]].
    + cases_in H; discriminate.
    + apply in_flat_map in H as [loc [_ H]].
      unfold locator_issues in H. cases_in H; discriminate.
    + cases_in H; discriminate.
    + apply in_flat_map_if in H as [a [_ H]]. discriminate.
    + cases_in H; discriminate.
    + destruct (Qltb _ _) eqn:E; simpl in H; [|destruct H].
      destruct H as [H|[]]. injection H as <-. auto.
  - intros [-> E]. rewrite E.
    repeat (apply in_or_app; right). left. reflexivity.
Qed.

(** Each endpoint and each page of each chunk has its row. *)
Lemma endpoint_row all_chunks cf ep :
  In cf all_chunks -> In ep (cd_endpoints (cf_chunk cf)) ->
  In (mkRow (cf_name cf) endpoint (ep_id ep) (ep_key ep)
            (endpoint_issues (cd_auth (cf_chunk cf)) ep))
     (rows all_chunks).
Proof.
  intros Hc He. unfold rows. apply in_flat_map. exists cf.
  split; [exact Hc|]. unfold chunk_rows. apply in_or_app. left.
  apply in_map_iff. exists ep. auto.
Qed.

Lemma page_row all_chunks cf pg :
  In cf all_chunks -> In pg (cd_pages (cf_chunk cf)) ->
  In (mkRow (cf_name cf) page (pg_id pg)
            ("PAGE " +:+ default "?" (pg_route pg))
            (page_issues (cd_auth (cf_chunk cf)) pg))
     (rows all_chunks).
Proof.
  intros Hc Hp. unfold rows. apply in_flat_map. exists cf.
  split; [exact Hc|]. unfold chunk_rows. apply in_or_app. right.
  apply in_map_iff. exists pg. auto.
Qed.

Lemma row_inv all_chunks r :
  In r (rows all_chunks) ->
  exists cf, In cf all_chunks
    /\ ((exists ep, In ep (cd_endpoints (cf_chunk cf))
                    /\ row_issues r
                       = endpoint_issues (cd_auth (cf_chunk cf)) ep)
        \/ (exists pg, In pg (cd_pages (cf_chunk cf))
                       /\ row_issues r
                          = page_issues (cd_auth (cf_chunk cf)) pg)).
Proof.
  unfold rows. intros H. apply in_flat_map in H as [cf [Hc H]].
  exists cf. split; [exact Hc|]. unfold chunk_rows in H.
  apply in_app_or in H as [H|H]; apply in_map_iff in H as [x [<- Hx]].
  - left. exists x. auto.
  - right. exists x. auto.
Qed.

End LowConfidence.

Section LowConfidenceRule.

Import ValidateChunks.

Variable all_chunks : list ChunkFile.
Variable cf : ChunkFile.
Hypothesis in_chunks : In cf all_chunks.

Let auth := cd_auth (cf_chunk cf).


End LowConfidenceRule.

(* ===================================================================== *)
(** * deep_validate.py: endpoints and pages that no chunk has *)
(* ===================================================================== *)

Section Completeness.

Import DeepValidate.

Lemma elem_of_add_ids {A} (f : A -> string) (l : list A) (ids : gset string)
    (x : string) :
  x ∈ foldl (fun acc a => acc ∪ {[ f a ]}) ids l
  <-> x ∈ ids \/ exists a, In a l /\ f a = x.
Proof.
  revert ids. induction l as [|a l IH]; intros ids; simpl.
  - split; [auto | intros [H|[a [[] _]]]; exact H].
  - rewrite IH. rewrite elem_of_union, elem_of_singleton. split.
    + intros [[H|H]|[b [Hb Hx]]]; eauto.
    + intros [H|[b [[<-|Hb] Hx]]]; eauto.
Qed.

Lemma empty_or (x : string) (P : Prop) : x ∈ (∅ : gset string) \/ P <-> P.
Proof.
  split; [|auto]. intros [H|H]; [|exact H].
  apply not_elem_of_empty in H. destruct H.
Qed.

Lemma elem_of_ep_ids_in_bp bp x :
  x ∈ ep_ids_in_bp bp <-> exists ep, In ep (bp_endpoints bp) /\ ep_id ep = x.
Proof.
  unfold ep_ids_in_bp. rewrite elem_of_add_ids. apply empty_or.
Qed.

Lemma elem_of_page_ids_in_bp bp x :
  x ∈ page_ids_in_bp bp <-> exists pg, In pg (bp_pages bp) /\ pg_id pg = x.
Proof.
  unfold page_ids_in_bp. rewrite elem_of_add_ids. apply empty_or.
Qed.

Lemma elem_of_chunk_ids {A} (f : A -> string) (g : ChunkFile -> list A)
    (chunks : list ChunkFile) (ids : gset string) (x : string) :
  x ∈ foldl (fun acc cf => foldl (fun acc' a => acc' ∪ {[ f a ]}) acc (g cf))
            ids chunks
  <-> x ∈ ids \/ exists cf a, In cf chunks /\ In a (g cf) /\ f a = x.
Proof.
  revert ids. induction chunks as [|cf chunks IH]; intros ids; simpl.
  - split; [auto | intros [H|(cf & a & [] & _)]; exact H].
  - rewrite IH, elem_of_add_ids. split.
    + intros [[H|[a [Ha Hx]]]|(cf' & a & Hc & Ha & Hx)]; eauto 8.
    + intros [H|(cf' & a & [<-|Hc] & Ha & Hx)]; eauto 8.
Qed.

Lemma elem_of_ep_ids_in_chunks chunks x :
  x ∈ ep_ids_in_chunks chunks
  <-> exists cf ep, In cf chunks /\ In ep (cd_endpoints (cf_chunk cf))
                    /\ ep_id ep = x.
Proof.
  unfold ep_ids_in_chunks.
  rewrite (elem_of_chunk_ids ep_id (fun cf => cd_endpoints (cf_chunk cf))).
  apply empty_or.
Qed.

Lemma elem_of_page_ids_in_chunks chunks x :
  x ∈ page_ids_in_chunks chunks
  <-> exists cf pg, In cf chunks /\ In pg (cd_pages (cf_chunk cf))
                    /\ pg_id pg = x.
Proof.
  unfold page_ids_in_chunks.
  rewrite (elem_of_chunk_ids pg_id (fun cf => cd_pages (cf_chunk cf))).
  apply empty_or.
Qed.

(** A difference of sets that leaves out one element only. *)
Lemma difference_one (a b : gset string) (i : string) :
  i ∈ a -> i ∉ b -> (forall j, j ∈ a -> j <> i -> j ∈ b) ->
  a ∖ b = {[ i ]}.
Proof.
  intros Ha Hb Hrest. apply set_eq. intros j.
  rewrite elem_of_difference, elem_of_singleton. split.
  - intros [Hja Hjb]. destruct (decide (j = i)) as [->|Hne]; [reflexivity|].
    exfalso. apply Hjb. apply Hrest; assumption.
  - intros ->. split; assumption.
Qed.

(** C7. The completeness pass computes the difference between the set
    of identifiers of the blueprint and the union of the sets of the
    chunks.  When the chunks miss exactly one endpoint identifier of the
    blueprint, [missing_ep] is that identifier alone and counts for one
    issue; and the same for the pages. *)
Theorem orphan_rule (bp : Blueprint) (chunks : list ChunkFile) :
  (forall x, x ∈ missing_ep bp chunks <->
     (exists ep, In ep (bp_endpoints bp) /\ ep_id ep = x)
     /\ ~ (exists cf ep, In cf chunks /\ In ep (cd_endpoints (cf_chunk cf))
                         /\ ep_id ep = x))
  /\ (forall x, x ∈ missing_pg bp chunks <->
     (exists pg, In pg (bp_pages bp) /\ pg_id pg = x)
     /\ ~ (exists cf pg, In cf chunks /\ In pg (cd_pages (cf_chunk cf))
                         /\ pg_id pg = x))
  /\ (forall i,
       i ∈ ep_ids_in_bp bp -> i ∉ ep_ids_in_chunks chunks ->
       (forall j, j ∈ ep_ids_in_bp bp -> j <> i -> j ∈ ep_ids_in_chunks chunks) ->
       missing_ep bp chunks = {[ i ]} /\ size (missing_ep bp chunks) = 1)
  /\ (forall i,
       i ∈ page_ids_in_bp bp -> i ∉ page_ids_in_chunks chunks ->
       (forall j, j ∈ page_ids_in_bp bp -> j <> i ->
                  j ∈ page_ids_in_chunks chunks) ->
       missing_pg bp chunks = {[ i ]} /\ size (missing_pg bp chunks) = 1).
Proof.
  split; [|split; [|split]].
  - intros x. unfold missing_ep.
    rewrite elem_of_difference, elem_of_ep_ids_in_bp,
      elem_of_ep_ids_in_chunks. reflexivity.
  - intros x. unfold missing_pg.
    rewrite elem_of_difference, elem_of_page_ids_in_bp,
      elem_of_page_ids_in_chunks. reflexivity.
  - intros i Ha Hb Hrest. unfold missing_ep.
    rewrite (difference_one _ _ i Ha Hb Hrest).
    split; [reflexivity | apply size_singleton].
  - intros i Ha Hb Hrest. unfold missing_pg.
    rewrite (difference_one _ _ i Ha Hb Hrest).
    split; [reflexivity | apply size_singleton].
Qed.

End Completeness.

(* ===================================================================== *)
(** * The exit status *)
(* ===================================================================== *)

Section ExitStatus.

Import ValidateBlueprints.

Lemma count_fail_app ls ls' :
  count_fail (ls ++ ls') = (count_fail ls + count_fail ls')%Z.
Proof.
  unfold count_fail. rewrite List.filter_app, length_app. lia.
Qed.

Lemma count_fail_nonneg ls : (0 <= count_fail ls)%Z.
Proof. unfold count_fail. lia. Qed.

Lemma count_fail_zero ls :
  count_fail ls = 0%Z <-> forall l, In l ls -> is_fail l = false.
Proof.
  unfold count_fail. induction ls as [|l ls IH]; simpl.
  - split; [intros _ l [] | reflexivity].
  - destruct (is_fail l) eqn:E; simpl.
    + split; [lia|]. intros H. specialize (H l (or_introl eq_refl)).
      congruence.
    + rewrite IH. split.
      * intros H l' [<-|Hl']; auto.
      * intros H l' Hl'. apply H. right. exact Hl'.
Qed.

Lemma counted_ret {A} (a : A) : counted (ret a).
Proof. intros st H. exact H. Qed.

Lemma counted_skip : counted skip.
Proof. apply counted_ret. Qed.

Lemma counted_raise {A} : counted (@raise A).
Proof. intros st H. exact H. Qed.

Lemma counted_subscript {A} (o : option A) : counted (subscript o).
Proof. destruct o; [apply counted_ret | apply counted_raise]. Qed.

Lemma counted_bind {A B} (m : M A) (k : A -> M B) :
  counted m -> (forall a, counted (k a)) -> counted (bind m k).
Proof.
  intros Hm Hk st H. unfold bind. specialize (Hm st H).
  destruct (m st) as [[a|] st']; [apply Hk|]; exact Hm.
Qed.

Lemma counted_issue label args : counted (issue label args).
Proof.
  intros st H. unfold in_step in *. simpl.
  rewrite count_fail_app, H. unfold count_fail. simpl. lia.
Qed.

Lemma counted_warn label args : counted (warn label args).
Proof.
  intros st H. unfold in_step in *. simpl.
  rewrite count_fail_app, H. unfold count_fail. simpl. lia.
Qed.

Lemma counted_ok args : counted (ok args).
Proof.
  intros st H. unfold in_step in *. simpl.
  rewrite count_fail_app, H. unfold count_fail. simpl. lia.
Qed.

Lemma counted_for {A} (xs : list A) (body : A -> M unit) :
  (forall x, counted (body x)) -> counted (for_ xs body).
Proof.
  intros Hb. induction xs as [|x xs IH]; simpl.
  - apply counted_skip.
  - apply counted_bind; [apply Hb | intros _; exact IH].
Qed.

Lemma counted_for_fold {A B} (xs : list A) (acc : B)
    (body : B -> A -> M B) :
  (forall b x, counted (body b x)) -> counted (for_fold xs acc body).
Proof.
  intros Hb. revert acc. induction xs as [|x xs IH]; intros acc; simpl.
  - apply counted_ret.
  - apply counted_bind; [apply Hb | intros b; apply IH].
Qed.

Lemma counted_map_m {A B} (f : A -> M B) (xs : list A) :
  (forall x, counted (f x)) -> counted (map_m f xs).
Proof.
  intros Hf. induction xs as [|x xs IH]; simpl.
  - apply counted_ret.
  - apply counted_bind; [apply Hf | intros y].
    apply counted_bind; [exact IH | intros ys]. apply counted_ret.
Qed.

Ltac counted_step :=
  first
    [ apply counted_skip | apply counted_ret | apply counted_raise
    | apply counted_subscript | apply counted_issue
    | apply counted_warn | apply counted_ok
    | apply counted_bind; [|intros ?]
    | apply counted_for; intros ?
    | apply counted_for_fold; intros ? ?
    | apply counted_map_m; intros ?
    | progress cbv zeta
    | match goal with
      | |- counted (if ?c then _ else _) => destruct c
      | |- counted (match ?x with _ => _ end) => destruct x
      end ].

Ltac counted := repeat counted_step.

Lemma counted_write_bodies label bp_eps : counted (write_bodies label bp_eps).
Proof. unfold write_bodies. counted. Qed.

Lemma counted_body_bleed methods bp_eps : counted (body_bleed methods bp_eps).
Proof. unfold body_bleed, bleed_step. counted. Qed.

Lemma counted_path_params bp_eps : counted (path_params bp_eps).
Proof. unfold path_params. counted. Qed.

Lemma counted_auth_config cookie auth : counted (auth_config cookie auth).
Proof. unfold auth_config. counted. Qed.

Lemma counted_pages_locators names bad pages :
  counted (pages_locators names bad pages).
Proof. unfold pages_locators. counted. Qed.

Lemma counted_auth_notes_prompts session auth cfs :
  counted (auth_notes_prompts session auth cfs).
Proof. unfold auth_notes_prompts. counted. Qed.

Lemma counted_nextjs_routes sr bp_eps : counted (nextjs_routes sr bp_eps).
Proof. unfold nextjs_routes. counted. Qed.

Lemma counted_nextjs_query_params sr bp_eps :
  counted (nextjs_query_params sr bp_eps).
Proof. unfold nextjs_query_params. counted. Qed.

Lemma counted_nextjs_body_fields sr bp_eps :
  counted (nextjs_body_fields sr bp_eps).
Proof. unfold nextjs_body_fields. counted. Qed.

Lemma counted_nextjs_prompts cfs : counted (nextjs_prompts cfs).
Proof. unfold nextjs_prompts. counted. Qed.

Ltac then_ lem := apply counted_bind; [apply lem | intros _].

Lemma counted_validate_nextjs info : counted (validate_nextjs info).
Proof.
  unfold validate_nextjs. cbv zeta.
  then_ counted_nextjs_routes.
  then_ counted_nextjs_query_params.
  then_ counted_nextjs_body_fields.
  then_ counted_write_bodies.
  then_ counted_body_bleed.
  then_ counted_path_params.
  then_ counted_auth_config.
  then_ counted_pages_locators.
  apply counted_nextjs_prompts.
Qed.

Lemma counted_validate_express info : counted (validate_express info).
Proof.
  unfold validate_express. cbv zeta.
  apply counted_bind; [counted | intros _].
  then_ counted_write_bodies.
  then_ counted_body_bleed.
  then_ counted_auth_config.
  then_ counted_path_params.
  apply counted_auth_notes_prompts.
Qed.

Lemma counted_validate_remix info : counted (validate_remix info).
Proof.
  unfold validate_remix. cbv zeta.
  then_ counted_write_bodies.
  then_ counted_body_bleed.
  then_ counted_path_params.
  then_ counted_auth_config.
  then_ counted_pages_locators.
  apply counted_auth_notes_prompts.
Qed.

Lemma final_in_step nextjs express remix :
  in_step (final nextjs express remix).
Proof.
  unfold final, run_all.
  assert (H : counted (validate_nextjs nextjs ;;;
                       validate_express express ;;;
                       validate_remix remix)).
  { apply counted_bind; [apply counted_validate_nextjs | intros _].
    apply counted_bind; [apply counted_validate_express | intros _].
    apply counted_validate_remix. }
  apply H. reflexivity.
Qed.

End ExitStatus.

Section ExitStatusRule.

Lemma audit_total_errors_from (bps : list Blueprint) (acc : Z) :
  fold_left
    (fun a b => (a + Z.of_nat (length (AuditBlueprints.errors b)))%Z) bps acc
  = (acc + Z.of_nat (length (flat_map AuditBlueprints.errors bps)))%Z.
Proof.
  revert acc. induction bps as [|b bps IH]; intros acc; simpl.
  - lia.
  - rewrite IH, length_app. lia.
Qed.

Lemma audit_total_errors (bps : list Blueprint) :
  AuditBlueprints.total_errors bps
  = Z.of_nat (length (flat_map AuditBlueprints.errors bps)).
Proof.
  unfold AuditBlueprints.total_errors. rewrite audit_total_errors_from. lia.
Qed.

Lemma flat_map_empty {A B} (f : A -> list B) (l : list A) :
  flat_map f l = [] <-> forall a, In a l -> f a = [].
Proof.
  induction l as [|a l IH]; simpl.
  - split; [intros _ a [] | reflexivity].
  - split.
    + intros H. apply app_eq_nil in H as [Ha Hl].
      intros a' [<-|Ha']; [exact Ha | apply IH; assumption].
    + intros H. rewrite (H a (or_introl eq_refl)). simpl.
      apply IH. intros a' Ha'. apply H. right. exact Ha'.
Qed.

(** Lines without a failure line, and lines with one. *)
Lemma fail_lines out :
  (ValidateBlueprints.count_fail out = 0%Z
   <-> forall l, In l out -> ValidateBlueprints.is_fail l = false)
  /\ ((0 < ValidateBlueprints.count_fail out)%Z
      <-> exists l, In l out /\ ValidateBlueprints.is_fail l = true).
Proof.
  pose proof (count_fail_nonneg out) as Hnn.
  pose proof (count_fail_zero out) as Hzero.
  split; [exact Hzero|]. split.
  - intros Hpos.
    destruct (existsb ValidateBlueprints.is_fail out) eqn:Ex.
    + apply existsb_exists in Ex. exact Ex.
    + exfalso. assert (ValidateBlueprints.count_fail out = 0%Z); [|lia].
      apply Hzero. intros l Hl.
      destruct (ValidateBlueprints.is_fail l) eqn:El; [|reflexivity].
      assert (existsb ValidateBlueprints.is_fail out = true)
        by (apply existsb_exists; eauto).
      congruence.
  - intros [l [Hl Hf]].
    destruct (Z.eq_dec (ValidateBlueprints.count_fail out) 0%Z) as [Hz|Hz];
      [|lia].
    rewrite (proj1 Hzero Hz l Hl) in Hf. discriminate.
Qed.


(** C8, as it is stated, fails: the blueprint of the Next.js repository
    has an [auth] object with the token type alone, the function stops
    on the login endpoint that is not there, and the run ends with
    status 1 though no failure line was printed. *)
Lemma exit_status_without_finding :
  (forall l,
     In l (ValidateBlueprints.printed
             (ValidateBlueprints.final Examples.repo_token_only
                Examples.repo_token_only Examples.repo_token_only)) ->
     ValidateBlueprints.is_fail l = false)
  /\ ValidateBlueprints.exit_status Examples.repo_token_only
       Examples.repo_token_only Examples.repo_token_only = 1%Z.
Proof.
  split; [|vm_compute; reflexivity].
  intros l H. vm_compute in H. destruct H as [<-|[]]. reflexivity.
Qed.

End ExitStatusRule.

(* ===================================================================== *)
(** * confidence_score.py: the score *)
(* ===================================================================== *)

Section Score.

Import ConfidenceScore.
Local Open Scope Z_scope.

Lemma auth_penalty_range auth : 0 <= auth_penalty auth <= 20.
Proof.
  unfold auth_penalty. destruct (auth_present auth); simpl; [|lia].
  destruct auth as [a|]; [|lia].
  destruct (blank _), (_ && _)%bool; lia.
Qed.

Lemma score_range auth t : 0 <= score_of auth t <= 100.
Proof. unfold score_of. lia. Qed.

Ltac score_cases :=
  unfold score_of; simpl;
  repeat match goal with
         | |- context [(?a >? ?b)] => destruct (Z.gtb_spec a b)
         end; lia.

(** The score does not rise with any of the four counters. *)
Lemma score_one_more auth t :
  reachable t ->
  score_of auth (one_more_zero_get_fk t) <= score_of auth t
  /\ score_of auth (one_more_crosschunk_fk t) <= score_of auth t
  /\ score_of auth (one_more_page_route t) <= score_of auth t
  /\ score_of auth (one_more_bare_page t) <= score_of auth t.
Proof.
  intros (H1 & H2 & H3 & H4 & H5).
  repeat split; score_cases.
Qed.

(** C5. One more unresolvable required foreign key, the counted finding
    of blocking severity, in an input that already has one, never
    raises the score; the score stays between 0 and 100. *)
Theorem score_monotone auth t :
  0 < ep_with_zero_get_fk t ->
  score_of auth (one_more_zero_get_fk t) <= score_of auth t
  /\ 0 <= score_of auth (one_more_zero_get_fk t) <= 100.
Proof.
  intros Hpos. split; [score_cases | apply score_range].
Qed.

(** The counters of the loops are reachable ones. *)
Lemma count_field_reachable msg t f :
  reachable t -> reachable (count_field msg t f).
Proof.
  unfold reachable, count_field.
  destruct (hint_of msg f) as [[| |]|]; simpl; lia.
Qed.

Lemma count_fields_reachable msg fs t :
  reachable t -> reachable (fold_left (count_field msg) fs t).
Proof.
  revert t. induction fs as [|f fs IH]; intros t H; simpl; [exact H|].
  apply IH, count_field_reachable, H.
Qed.

Lemma count_endpoint_reachable msg t ep :
  reachable t -> reachable (count_endpoint msg t ep).
Proof.
  intros H. unfold count_endpoint. apply count_fields_reachable.
  unfold reachable in *. destruct (ep_isPageRoute ep); simpl; lia.
Qed.

Lemma count_page_reachable t pg :
  reachable t -> reachable (count_page t pg).
Proof.
  unfold reachable, count_page. destruct (pg_locators pg); simpl; lia.
Qed.

Lemma fold_reachable {A} (f : tally -> A -> tally) (l : list A) t :
  (forall t' a, reachable t' -> reachable (f t' a)) ->
  reachable t -> reachable (fold_left f l t).
Proof.
  intros Hf. revert t. induction l as [|a l IH]; intros t H; simpl; auto.
Qed.

Lemma count_chunk_reachable t cf :
  reachable t -> reachable (count_chunk t cf).
Proof.
  intros H. unfold count_chunk.
  apply fold_reachable; [intros; apply count_page_reachable; assumption|].
  apply fold_reachable; [intros; apply count_endpoint_reachable; assumption|].
  exact H.
Qed.

Lemma count_chunks_reachable chunks : reachable (count_chunks chunks).
Proof.
  unfold count_chunks. apply fold_reachable.
  - intros; apply count_chunk_reachable; assumption.
  - unfold reachable, zero. simpl. lia.
Qed.

End Score.

Section ScoreOfInputs.

Import ConfidenceScore.
Local Open Scope Z_scope.

Lemma score_antitone auth t t' :
  reachable t -> no_more_than t t' -> score_of auth t' <= score_of auth t.
Proof.
  intros (H1 & H2 & H3 & H4 & H5) (L1 & L2 & L3 & L4).
  unfold score_of.
  repeat match goal with
         | |- context [(?a >? ?b)] => destruct (Z.gtb_spec a b)
         end; lia.
Qed.

Lemma no_more_than_refl t : no_more_than t t.
Proof. unfold no_more_than. lia. Qed.

Lemma no_more_than_trans t1 t2 t3 :
  no_more_than t1 t2 -> no_more_than t2 t3 -> no_more_than t1 t3.
Proof. unfold no_more_than. lia. Qed.

Lemma fold_no_more_than {A} (f : tally -> A -> tally) (l : list A) t :
  (forall t' a, no_more_than t' (f t' a)) ->
  no_more_than t (fold_left f l t).
Proof.
  intros Hf. revert t. induction l as [|a l IH]; intros t; simpl.
  - apply no_more_than_refl.
  - eapply no_more_than_trans; [apply Hf | apply IH].
Qed.

Lemma count_field_grows msg t f : no_more_than t (count_field msg t f).
Proof.
  unfold no_more_than, count_field.
  destruct (hint_of msg f) as [[| |]|]; simpl; lia.
Qed.

Lemma count_endpoint_grows msg t ep :
  no_more_than t (count_endpoint msg t ep).
Proof.
  unfold count_endpoint.
  eapply no_more_than_trans;
    [|apply fold_no_more_than; intros; apply count_field_grows].
  unfold no_more_than. destruct (ep_isPageRoute ep); simpl; lia.
Qed.

Lemma count_page_grows t pg : no_more_than t (count_page t pg).
Proof.
  unfold no_more_than, count_page. destruct (pg_locators pg); simpl; lia.
Qed.

Lemma count_chunk_grows t cf : no_more_than t (count_chunk t cf).
Proof.
  unfold count_chunk.
  eapply no_more_than_trans;
    [|apply fold_no_more_than; intros; apply count_page_grows].
  apply fold_no_more_than. intros. apply count_endpoint_grows.
Qed.

(** Penalties only subtract: a further chunk file, whatever it holds,
    never raises the score of a run. *)
Lemma score_with_more_chunks bp chunks cf :
  score bp (chunks ++ [cf]) <= score bp chunks.
Proof.
  unfold score, count_chunks. rewrite fold_left_app. simpl.
  apply score_antitone.
  - apply count_chunks_reachable.
  - apply count_chunk_grows.
Qed.

(** C4. A blueprint whose [auth] is null gets the finding
    [AUTH_INCOMPLETE] from the audit, and its score is 80, the baseline
    of 100 less 20, when the chunks add no penalty (no unresolvable and
    no cross-chunk foreign key, no page route, no page without
    locators). *)
Theorem no_auth_scenario bp chunks :
  bp_auth bp = None ->
  let t := count_chunks chunks in
  In (AuditBlueprints.AUTH_INCOMPLETE "MISSING" "MISSING")
     (AuditBlueprints.errors bp)
  /\ (ep_with_zero_get_fk t = 0 -> ep_with_crosschunk_fk t = 0 ->
      ep_page_routes t = 0 -> total_pages t - locator_pages t = 0 ->
      score bp chunks = 80 /\ score bp chunks = 100 - 20).
Proof.
  intros Hauth t. split.
  - unfold AuditBlueprints.errors. rewrite Hauth.
    apply in_or_app. right. apply in_or_app. left.
    left. reflexivity.
  - intros H1 H2 H3 H4. unfold score, score_of. fold t.
    rewrite Hauth, H1, H2, H3, H4. simpl. split; reflexivity.
Qed.

End ScoreOfInputs.

(* ===================================================================== *)
(** * audit_locators.py: shared selector codes *)
(* ===================================================================== *)

Section Duplicates.

Import AuditLocators.

Lemma names_for_record codes loc pw :
  names_for (record_code codes loc) pw
  = if PyStr.nonempty (pw_of loc) && String.eqb (pw_of loc) pw
    then names_for codes pw ++ [name_of loc]
    else names_for codes pw.
Proof.
  unfold record_code. destruct (PyStr.nonempty (pw_of loc)); simpl;
    [|reflexivity].
  unfold names_for at 1. rewrite lookup_insert.
  destruct (String.eqb_spec (pw_of loc) pw) as [->|Hne].
  - rewrite decide_True by reflexivity. reflexivity.
  - rewrite decide_False by exact Hne. reflexivity.
Qed.

Lemma names_for_fold locs codes pw :
  PyStr.nonempty pw = true ->
  names_for (foldl record_code codes locs) pw
  = names_for codes pw ++ map name_of (sharing pw locs).
Proof.
  intros Hpw. revert codes.
  induction locs as [|l locs IH]; intros codes; simpl.
  - rewrite app_nil_r. reflexivity.
  - rewrite IH, names_for_record.
    destruct (String.eqb_spec (pw_of l) pw) as [->|Hne].
    + rewrite Hpw. simpl. rewrite <- app_assoc. reflexivity.
    + rewrite andb_false_r. reflexivity.
Qed.

(** The names that the dictionary has for a code are the names of the
    locators of the page with that code, in the order of the page. *)
Lemma names_for_page locs pw :
  PyStr.nonempty pw = true ->
  names_for (pw_codes_on_page locs) pw = map name_of (sharing pw locs).
Proof.
  intros Hpw. unfold pw_codes_on_page. rewrite names_for_fold by exact Hpw.
  unfold names_for. rewrite lookup_empty. reflexivity.
Qed.

(** The findings of the duplicate kind that one locator gets. *)
Lemma duplicates_of codes loc :
  List.filter is_duplicate (problems_of codes loc)
  = if PyStr.nonempty (pw_of loc)
       && (1 <? length (names_for codes (pw_of loc)))%nat
    then [DUPLICATE_ON_PAGE (names_for codes (pw_of loc))] else [].
Proof.
  unfold problems_of. rewrite !List.filter_app.
  destruct (unqualified_match (pw_of loc)) as [r|];
    [destruct (loc_isInteractive loc)|];
    destruct (PyStr.nonempty (pw_of loc)
              && (1 <? length (names_for codes (pw_of loc)))%nat);
    destruct (PyStr.mem "DYNAMIC_LIST" (loc_flags loc));
    destruct (loc_isInteractive loc);
    destruct (PyStr.contains "heading" (pw_of loc));
    destruct (PyStr.contains "getByRole('main')" (pw_of loc));
    destruct (loc_isConditional loc); reflexivity.
Qed.

Lemma duplicate_findings_entry route codes loc :
  duplicate_findings (entry_of route codes loc)
  = List.filter is_duplicate (problems_of codes loc).
Proof.
  unfold entry_of, duplicate_findings.
  destruct (problems_of codes loc) as [|p ps]; simpl; [reflexivity|].
  rewrite app_nil_r. reflexivity.
Qed.

Lemma duplicate_findings_app es es' :
  duplicate_findings (es ++ es')
  = duplicate_findings es ++ duplicate_findings es'.
Proof. unfold duplicate_findings. apply flat_map_app. Qed.

Lemma duplicate_findings_page route codes locs :
  duplicate_findings (flat_map (entry_of route codes) locs)
  = flat_map (fun loc => List.filter is_duplicate (problems_of codes loc))
             locs.
Proof.
  induction locs as [|l locs IH]; simpl; [reflexivity|].
  rewrite duplicate_findings_app, duplicate_findings_entry, IH.
  reflexivity.
Qed.

Lemma sharing_self loc locs :
  In loc locs -> In loc (sharing (pw_of loc) locs).
Proof.
  intros H. unfold sharing. apply filter_In. split; [exact H|].
  apply String.eqb_refl.
Qed.

End Duplicates.

Section DuplicateRule.

Import AuditLocators.

(** C2, as the code has it.  Each locator of a page whose selector
    code, white space at both ends removed, is not empty and is the code
    of two or more locators of the page gets exactly one
    [DUPLICATE_ON_PAGE] finding of its own (so a pair of locators gets
    two findings, one for each), and the finding lists the names of all
    the locators of the page with that code, in the order of the page; a
    locator whose code is empty or is its own alone gets none. *)
Theorem duplicate_per_locator (pg : Page) (loc : Locator) :
  In loc (pg_locators pg) ->
  let locs := pg_locators pg in
  let codes := pw_codes_on_page locs in
  let group := sharing (pw_of loc) locs in
  (pw_of loc <> "" -> 2 <= length group ->
     List.filter is_duplicate (problems_of codes loc)
     = [DUPLICATE_ON_PAGE (map name_of group)])
  /\ (pw_of loc = "" \/ length group = 1 ->
        List.filter is_duplicate (problems_of codes loc) = [])
  /\ duplicate_findings (audit_page pg)
     = flat_map (fun l => List.filter is_duplicate (problems_of codes l)) locs.
Proof.
  intros Hin locs codes group. split; [|split].
  - intros Hne Hlen. rewrite duplicates_of.
    apply nonempty_true in Hne. rewrite Hne. simpl.
    unfold codes. rewrite names_for_page by exact Hne.
    fold locs. fold group. rewrite length_map.
    destruct (Nat.ltb_spec 1 (length group)); [reflexivity | lia].
  - intros H. rewrite duplicates_of.
    destruct (PyStr.nonempty (pw_of loc)) eqn:Hne; [|reflexivity].
    simpl. unfold codes. rewrite names_for_page by exact Hne.
    fold locs. fold group. rewrite length_map.
    destruct H as [H|H].
    + rewrite H in Hne. discriminate.
    + rewrite H. reflexivity.
  - unfold audit_page. fold locs. fold codes.
    apply duplicate_findings_page.
Qed.

(** C2, as it is stated, fails: the two locators of a page that share
    their code get two findings, not one. *)
Lemma duplicate_per_pair_fails :
  ~ (forall (pg : Page) (a b : Locator),
       pg_locators pg = [a; b] -> pw_of a = pw_of b -> pw_of a <> "" ->
       length (duplicate_findings (audit_page pg)) = 1).
Proof.
  intros H.
  specialize (H Examples.twin_page Examples.save_a Examples.save_b
                eq_refl eq_refl).
  assert (Hne : pw_of Examples.save_a <> "") by (vm_compute; discriminate).
  specialize (H Hne).
  assert (Htwo : length (duplicate_findings (audit_page Examples.twin_page))
                 = 2).
  { unfold audit_page. rewrite duplicate_findings_page. simpl.
    rewrite !duplicates_of.
    rewrite !names_for_page by reflexivity. reflexivity. }
  rewrite Htwo in H. discriminate.
Qed.

End DuplicateRule.

(* ===================================================================== *)
(** * audit_locators.py: role selectors without a name *)
(* ===================================================================== *)

Section Append.

Lemma append_cons (x : ascii) (a b : string) :
  String x a +:+ b = String x (a +:+ b).
Proof. reflexivity. Qed.

Lemma append_empty_l (b : string) : "" +:+ b = b.
Proof. reflexivity. Qed.

Lemma append_assoc (a b c : string) : (a +:+ b) +:+ c = a +:+ (b +:+ c).
Proof.
  induction a as [|x a IH]; [reflexivity|].
  rewrite !append_cons, IH. reflexivity.
Qed.

Lemma append_empty_r (a : string) : a +:+ "" = a.
Proof.
  induction a as [|x a IH]; [reflexivity|].
  rewrite append_cons, IH. reflexivity.
Qed.

Lemma length_append (a b : string) :
  String.length (a +:+ b) = String.length a + String.length b.
Proof.
  induction a as [|x a IH]; [reflexivity|].
  rewrite append_cons. simpl. rewrite IH. reflexivity.
Qed.

Lemma all_space_rstrip (w : string) :
  PyStr.all_space w = true -> PyStr.rstrip w = "".
Proof.
  induction w as [|c w IH]; simpl; [reflexivity|].
  intros H. apply andb_true_iff in H as [Hc Hw].
  rewrite (IH Hw), Hc. reflexivity.
Qed.

(** Stripping the right end of a text in two parts. *)
Lemma rstrip_append (a b : string) :
  PyStr.rstrip (a +:+ b)
  = match PyStr.rstrip b with
    | EmptyString => PyStr.rstrip a
    | String _ _ => a +:+ PyStr.rstrip b
    end.
Proof.
  induction a as [|x a IH].
  - rewrite append_empty_l. destruct (PyStr.rstrip b); reflexivity.
  - rewrite append_cons. cbn [PyStr.rstrip]. rewrite IH.
    destruct (PyStr.rstrip b) as [|y r] eqn:E.
    + reflexivity.
    + destruct a; reflexivity.
Qed.

Lemma endswith_append (pre suf : string) :
  PyStr.endswith suf (pre +:+ suf) = true.
Proof.
  induction pre as [|x pre IH].
  - rewrite append_empty_l.
    destruct suf; simpl; rewrite ?String.eqb_refl, ?Ascii.eqb_refl;
      reflexivity.
  - rewrite append_cons. cbn [PyStr.endswith]. rewrite IH.
    apply orb_true_r.
Qed.

Lemma endswith_inv (suf s : string) :
  PyStr.endswith suf s = true -> exists pre, s = pre +:+ suf.
Proof.
  induction s as [|x s IH]; cbn [PyStr.endswith]; intros H.
  - apply orb_true_iff in H as [H|H]; [|discriminate].
    apply String.eqb_eq in H. subst suf. exists "". reflexivity.
  - apply orb_true_iff in H as [H|H].
    + apply String.eqb_eq in H. exists "". rewrite append_empty_l. exact H.
    + destruct (IH H) as [pre ->]. exists (String x pre). reflexivity.
Qed.

(** A suffix test only looks at the end of a text. *)
Lemma endswith_tail (suf a b : string) :
  String.length suf <= String.length b ->
  PyStr.endswith suf (a +:+ b) = PyStr.endswith suf b.
Proof.
  intros Hlen. induction a as [|x a IH]; [reflexivity|].
  rewrite append_cons. cbn [PyStr.endswith]. rewrite IH.
  destruct (String.eqb_spec (String x (a +:+ b)) suf) as [E|_];
    [|reflexivity].
  apply (f_equal String.length) in E. simpl in E.
  rewrite length_append in E. lia.
Qed.

End Append.

Section RoleMatch.

Import AuditLocators.

Lemma drop_prefix_app (p r : string) : drop_prefix p (p +:+ r) = Some r.
Proof.
  induction p as [|a p IH]; [destruct r; reflexivity|].
  rewrite append_cons. simpl. rewrite Ascii.eqb_refl. exact IH.
Qed.

Lemma drop_prefix_inv (p s r : string) :
  drop_prefix p s = Some r -> s = p +:+ r.
Proof.
  revert s. induction p as [|a p IH]; intros s H.
  - destruct s; simpl in H; injection H as <-; reflexivity.
  - destruct s as [|b s]; simpl in H; [discriminate|].
    destruct (Ascii.eqb_spec a b) as [->|]; [|discriminate].
    rewrite append_cons, (IH s H). reflexivity.
Qed.

(** What a match at the start of a text tells. *)
Lemma match_here_inv (s x : string) :
  match_here s = Some x ->
  In x interactive_roles
  /\ exists ws, s = role_call x +:+ ws /\ PyStr.all_space ws = true.
Proof.
  unfold match_here. intros H. apply List.find_some in H as [Hin H].
  split; [exact Hin|].
  destruct (drop_prefix (role_call x) s) as [rest|] eqn:E; [|discriminate].
  exists rest. split; [apply drop_prefix_inv; exact E | exact H].
Qed.

(** The call text of a role has no white space at its right end. *)
Lemma rstrip_role_call (r : string) :
  In r interactive_roles -> PyStr.rstrip (role_call r) = role_call r.
Proof.
  intros H. repeat (destruct H as [<-|H]; [reflexivity|]). destruct H.
Qed.

(** The call text of one role ends the call text of no other role. *)
Lemma role_call_suffix (r x : string) :
  In r interactive_roles -> In x interactive_roles ->
  PyStr.endswith (role_call r) (role_call x) = true -> x = r.
Proof.
  intros Hr Hx.
  repeat (destruct Hr as [<-|Hr];
          [repeat (destruct Hx as [<-|Hx];
                   [vm_compute; first [reflexivity | discriminate]|]);
           destruct Hx|]).
  destruct Hr.
Qed.

Lemma match_here_role_call (r : string) :
  In r interactive_roles -> match_here (role_call r) = Some r.
Proof.
  intros H. repeat (destruct H as [<-|H]; [reflexivity|]). destruct H.
Qed.

(** A match anywhere in a text that ends in the call of role [r] is a
    match of role [r]. *)
Lemma match_here_before (q r x : string) :
  In r interactive_roles ->
  match_here (q +:+ role_call r) = Some x -> x = r.
Proof.
  intros Hr H. apply match_here_inv in H as [Hx [ws [Heq Hws]]].
  apply (f_equal PyStr.rstrip) in Heq.
  rewrite !rstrip_append in Heq.
  rewrite (all_space_rstrip ws Hws) in Heq.
  rewrite !rstrip_role_call in Heq by assumption.
  assert (Hq : q +:+ role_call r = role_call x).
  { unfold role_call at 1 in Heq. simpl in Heq. exact Heq. }
  apply role_call_suffix; [exact Hr | exact Hx |].
  rewrite <- Hq. apply endswith_append.
Qed.

(** The search finds the role of the call that ends the text. *)
Lemma unqualified_match_role_call (pre r : string) :
  In r interactive_roles ->
  unqualified_match (pre +:+ role_call r) = Some r.
Proof.
  intros Hr. induction pre as [|c pre IH].
  - rewrite append_empty_l.
    assert (H : match_here (role_call r) = Some r)
      by (apply match_here_role_call; exact Hr).
    destruct (role_call r) eqn:E; cbn [unqualified_match]; rewrite H;
      reflexivity.
  - rewrite append_cons. cbn [unqualified_match].
    destruct (match_here (String c (pre +:+ role_call r))) as [x|] eqn:E.
    + f_equal. apply (match_here_before (String c pre) r x Hr). exact E.
    + exact IH.
Qed.

(** What a match anywhere in a text tells. *)
Lemma unqualified_match_inv (s x : string) :
  unqualified_match s = Some x ->
  In x interactive_roles
  /\ exists pre ws, s = pre +:+ role_call x +:+ ws
                    /\ PyStr.all_space ws = true.
Proof.
  induction s as [|c s IH]; cbn [unqualified_match].
  - destruct (match_here "") as [y|] eqn:E; [|discriminate].
    intros H. injection H as ->.
    apply match_here_inv in E as [Hin [ws [Heq Hws]]].
    split; [exact Hin|]. exists "", ws. auto.
  - destruct (match_here (String c s)) as [y|] eqn:E.
    + intros H. injection H as ->.
      apply match_here_inv in E as [Hin [ws [Heq Hws]]].
      split; [exact Hin|]. exists "", ws. auto.
    + intros H. destruct (IH H) as [Hin [pre [ws [-> Hws]]]].
      split; [exact Hin|]. exists (String c pre), ws. auto.
Qed.

(** A text that ends in the options object of a named call has no
    match. *)
Lemma unqualified_match_named (pre r opts : string) :
  unqualified_match (pre +:+ named_role_call r opts) = None.
Proof.
  destruct (unqualified_match (pre +:+ named_role_call r opts)) as [x|] eqn:E;
    [|reflexivity].
  exfalso. apply unqualified_match_inv in E as [Hx [p [ws [Heq Hws]]]].
  assert (Hend : PyStr.endswith "')" (pre +:+ named_role_call r opts) = false).
  { unfold named_role_call. rewrite <- !append_assoc.
    rewrite endswith_tail by (simpl; lia). reflexivity. }
  assert (Hstrip : PyStr.rstrip (pre +:+ named_role_call r opts)
                   = pre +:+ named_role_call r opts).
  { unfold named_role_call. rewrite <- !append_assoc.
    rewrite rstrip_append. reflexivity. }
  rewrite Heq in Hstrip at 1.
  rewrite <- append_assoc, rstrip_append in Hstrip.
  rewrite (all_space_rstrip ws Hws) in Hstrip.
  rewrite rstrip_append, rstrip_role_call in Hstrip by exact Hx.
  assert (Hcall : role_call x = ("getByRole('" +:+ x) +:+ "')")
    by (unfold role_call; rewrite append_assoc; reflexivity).
  assert (Hq : p +:+ role_call x = pre +:+ named_role_call r opts).
  { rewrite Hcall in Hstrip at 1. simpl in Hstrip. exact Hstrip. }
  rewrite <- Hq, Hcall, <- append_assoc in Hend.
  rewrite endswith_append in Hend. discriminate.
Qed.

End RoleMatch.

Section UnqualifiedRole.

Import AuditLocators.

Lemma unqualified_role_in codes loc x :
  In (UNQUALIFIED_ROLE x) (problems_of codes loc) <->
  unqualified_match (pw_of loc) = Some x /\ loc_isInteractive loc = true.
Proof.
  unfold problems_of. split.
  - intros H. rewrite !in_app_iff in H.
    destruct H as [H|[H|[H|[H|[H|[H|H]]]]]].
    + destruct (unqualified_match (pw_of loc)) as [r|]; [|destruct H].
      destruct (loc_isInteractive loc); [|destruct H].
      destruct H as [H|[]]. injection H as ->. auto.
    + destruct (_ && _); [destruct H as [H|[]]; discriminate | destruct H].
    + destruct (_ && _); [destruct H as [H|[]]; discriminate | destruct H].
    + destruct (_ && _); [destruct H as [H|[]]; discriminate | destruct H].
    + destruct (_ && _); [destruct H as [H|[]]; discriminate | destruct H].
    + destruct (PyStr.contains _ _);
        [destruct H as [H|[]]; discriminate | destruct H].
    + destruct (loc_isConditional loc);
        [destruct H as [H|[]]; discriminate | destruct H].
  - intros [-> ->]. apply in_or_app. left. left. reflexivity.
Qed.

Lemma entry_in_problems bp pg loc p :
  In pg (bp_pages bp) -> In loc (pg_locators pg) ->
  In p (problems_of (pw_codes_on_page (pg_locators pg)) loc) ->
  In (mkEntry (default "?" (pg_route pg)) (name_of loc) (pw_of loc)
              (default "?" (loc_strategy loc)) (loc_isInteractive loc)
              (problems_of (pw_codes_on_page (pg_locators pg)) loc))
     (PROBLEMS bp).
Proof.
  intros Hpg Hloc Hp. unfold PROBLEMS. apply in_flat_map.
  exists pg. split; [exact Hpg|]. unfold audit_page.
  apply in_flat_map. exists loc. split; [exact Hloc|].
  unfold entry_of.
  destruct (problems_of (pw_codes_on_page (pg_locators pg)) loc);
    [destruct Hp | left; reflexivity].
Qed.


(** C6, the claim as worded fails: an interactive locator with strategy
    [role] that calls [getByRole('button')] without a name and goes on
    with [.first()], and one whose options hold no name, are locators
    of the rule as the specification words it, and get no finding. *)
Lemma unqualified_role_bare_call_only :
  RoleRule.unqualified "button" Examples.first_button = true
  /\ RoleRule.unqualified "button" Examples.exact_button = true
  /\ forall codes x,
       ~ In (UNQUALIFIED_ROLE x) (problems_of codes Examples.first_button)
       /\ ~ In (UNQUALIFIED_ROLE x) (problems_of codes Examples.exact_button).
Proof.
  split; [vm_compute; reflexivity|]. split; [vm_compute; reflexivity|].
  intros codes x.
  split; intros Hin; apply unqualified_role_in in Hin as [Hm _];
    vm_compute in Hm; discriminate Hm.
Qed.

End UnqualifiedRole.

(* ===================================================================== *)
(** * check_fk_coverage.py: foreign keys and list endpoints *)
(* ===================================================================== *)

Section Replace.

(** A text without an occurrence of [old] is left as it is. *)
Lemma remove_from_absent (old s : string) :
  PyStr.contains old s = false -> PyStr.remove_from old 0 s = s.
Proof.
  induction s as [|c s IH]; [reflexivity|].
  cbn [PyStr.contains PyStr.remove_from]. intros H.
  apply orb_false_iff in H as [Hs Hc]. rewrite Hs, (IH Hc). reflexivity.
Qed.

(** The scan goes over a part without an occurrence of the two code
    points [x y], also when the text goes on with [x]. *)
Lemma remove_from_prefix (x y : ascii) (base rest : string) :
  x <> y ->
  PyStr.contains (String x (String y "")) base = false ->
  PyStr.remove_from (String x (String y "")) 0 (base +:+ String x rest)
  = base +:+ PyStr.remove_from (String x (String y "")) 0 (String x rest).
Proof.
  intros Hxy. induction base as [|c base IH]; [reflexivity|].
  cbn [PyStr.contains]. intros H.
  apply orb_false_iff in H as [Hs Hc].
  rewrite !append_cons.
  assert (Hno : PyStr.startswith (String x (String y ""))
                  (String c (base +:+ String x rest)) = false).
  { destruct base as [|d base].
    - rewrite append_empty_l. simpl.
      destruct (Ascii.eqb_spec x c); [|reflexivity]. simpl.
      destruct (Ascii.eqb_spec y x); [congruence | reflexivity].
    - rewrite append_cons. simpl in Hs |- *. exact Hs. }
  cbn [PyStr.remove_from]. rewrite Hno, (IH Hc). reflexivity.
Qed.

Lemma lower_append (a b : string) :
  PyStr.lower (a +:+ b) = PyStr.lower a +:+ PyStr.lower b.
Proof.
  induction a as [|c a IH]; [reflexivity|].
  rewrite append_cons. cbn [PyStr.lower]. rewrite IH, append_cons.
  reflexivity.
Qed.

End Replace.

Section ForeignKeys.

Import CheckFkCoverage.

Lemma resource_suffix_only fname base :
  suffix_only fname base -> resource fname = PyStr.lower base.
Proof.
  intros [[-> | ->] [Hid HID]]; unfold resource, PyStr.remove_all.
  - rewrite (remove_from_prefix "I" "d" base "d") by (discriminate || exact Hid).
    change (PyStr.remove_from "Id" 0 "Id") with "".
    rewrite append_empty_r, remove_from_absent by exact HID. reflexivity.
  - rewrite (remove_from_prefix "I" "d" base "D") by (discriminate || exact Hid).
    change (PyStr.remove_from "Id" 0 "ID") with "ID".
    rewrite (remove_from_prefix "I" "D" base "D") by (discriminate || exact HID).
    change (PyStr.remove_from "ID" 0 "ID") with "".
    rewrite append_empty_r. reflexivity.
Qed.

Lemma strip_suffix_append base suf :
  suf = "Id" \/ suf = "ID" -> FkRule.strip_suffix (base +:+ suf) = base.
Proof.
  intros Hsuf. induction base as [|c base IH].
  - destruct Hsuf as [-> | ->]; reflexivity.
  - rewrite append_cons. cbn [FkRule.strip_suffix].
    assert (Hlen : String.length (String c (base +:+ suf)) <> 2).
    { simpl. rewrite length_append. destruct Hsuf as [-> | ->]; simpl; lia. }
    destruct (String.eqb_spec (String c (base +:+ suf)) "Id") as [E|_];
      [rewrite E in Hlen; simpl in Hlen; lia|].
    destruct (String.eqb_spec (String c (base +:+ suf)) "ID") as [E|_];
      [rewrite E in Hlen; simpl in Hlen; lia|].
    simpl. rewrite IH. reflexivity.
Qed.

(** On such a name the resource of the pass is the candidate of the
    rule. *)
Lemma resource_candidate fname base :
  suffix_only fname base -> resource fname = FkRule.candidate fname.
Proof.
  intros H. rewrite (resource_suffix_only _ _ H).
  destruct H as [[-> | ->] _]; unfold FkRule.candidate;
    rewrite strip_suffix_append; auto.
Qed.

Lemma is_fk_name_suffix fname base :
  suffix_only fname base -> is_fk_name fname = true.
Proof.
  intros [[-> | ->] _]; unfold is_fk_name; rewrite endswith_append;
    auto using orb_true_r.
Qed.

(** The search of the pass is the search of the rule in the chunk. *)
Lemma can_resolve_listed res eps e2d ep :
  can_resolve res (get_paths eps e2d ep)
  = FkRule.listed res (FkRule.same_chunk eps e2d ep).
Proof.
  unfold can_resolve, get_paths, FkRule.listed, FkRule.same_chunk.
  induction eps as [|e eps IH]; [reflexivity|]. simpl.
  destruct (bool_decide _); simpl.
  - destruct (String.eqb (ep_method e) "GET"); simpl; rewrite IH;
      reflexivity.
  - exact IH.
Qed.

Lemma gap_in_gaps b chunks e2d ep f x :
  ep_to_domain chunks = Some e2d ->
  In ep (bp_endpoints b) -> In f (fields_of ep) ->
  In x (field_gap (get_paths (bp_endpoints b) e2d ep) ep f) ->
  exists gs, gaps b chunks = Some gs /\ In x gs.
Proof.
  intros He2d Hep Hf Hx. unfold gaps. rewrite He2d. cbv zeta.
  eexists. split; [reflexivity|]. apply in_flat_map. exists ep.
  split; [exact Hep|]. unfold endpoint_gaps. apply in_flat_map.
  exists f. auto.
Qed.

Lemma fold_opt_app {A B} (f : B -> A -> option B) (l1 l2 : list A) (b : B) :
  fold_opt f (l1 ++ l2) b
  = match fold_opt f l1 b with
    | Some b' => fold_opt f l2 b'
    | None => None
    end.
Proof.
  revert b. induction l1 as [|x l1 IH]; intros b; simpl; [reflexivity|].
  destruct (f b x); [apply IH | reflexivity].
Qed.

Lemma fill_some (d : string) (eps : list Endpoint) (m : gmap string string) :
  fold_opt (fun m' ep => Some (<[ep_id ep := d]> m')) eps m
  = Some (foldl (fun m' ep => <[ep_id ep := d]> m') m eps).
Proof.
  revert m. induction eps as [|e eps IH]; intros m; [reflexivity|].
  simpl. apply IH.
Qed.

(** The loop over the endpoints of a chunk file: it raises when the
    chunk has an endpoint and no domain. *)
Lemma fill_chunk_eq (m : gmap string string) (cf : ChunkFile) :
  fill_chunk m cf
  = match cd_endpoints (cf_chunk cf), chunk_domain cf with
    | [], _ => Some m
    | eps, Some d => Some (foldl (fun m' ep => <[ep_id ep := d]> m') m eps)
    | _ :: _, None => None
    end.
Proof.
  unfold fill_chunk. destruct (chunk_domain cf) as [d|].
  - rewrite fill_some. destruct (cd_endpoints (cf_chunk cf)); reflexivity.
  - destruct (cd_endpoints (cf_chunk cf)); reflexivity.
Qed.

Lemma fill_lookup_out (d i : string) (eps : list Endpoint)
    (m : gmap string string) :
  ~ In i (map ep_id eps) ->
  foldl (fun m' ep => <[ep_id ep := d]> m') m eps !! i = m !! i.
Proof.
  revert m. induction eps as [|e eps IH]; intros m Hi; [reflexivity|].
  simpl in *. rewrite IH by tauto. apply lookup_insert_ne. tauto.
Qed.

Lemma fill_lookup_in (d i : string) (eps : list Endpoint)
    (m : gmap string string) :
  In i (map ep_id eps) ->
  foldl (fun m' ep => <[ep_id ep := d]> m') m eps !! i = Some d.
Proof.
  revert m. induction eps as [|e eps IH]; intros m Hi; [destruct Hi|].
  simpl. destruct (in_dec String.string_dec i (map ep_id eps)) as [Hin|Hout].
  - apply IH, Hin.
  - rewrite fill_lookup_out by exact Hout.
    destruct Hi as [<-|Hi]; [|contradiction]. apply lookup_insert_eq.
Qed.

Lemma fill_chunk_out (i : string) (cf : ChunkFile)
    (m m' : gmap string string) :
  fill_chunk m cf = Some m' -> ~ In i (chunk_ids cf) -> m' !! i = m !! i.
Proof.
  rewrite fill_chunk_eq. unfold chunk_ids. intros H Hout.
  destruct (cd_endpoints (cf_chunk cf)) as [|e es];
    [injection H as <-; reflexivity|].
  destruct (chunk_domain cf) as [d|]; [|discriminate H].
  injection H as <-. exact (fill_lookup_out d i (e :: es) m Hout).
Qed.

Lemma fill_chunk_in (i : string) (cf : ChunkFile)
    (m m' : gmap string string) :
  fill_chunk m cf = Some m' -> In i (chunk_ids cf) ->
  exists d, chunk_domain cf = Some d /\ m' !! i = Some d.
Proof.
  rewrite fill_chunk_eq. unfold chunk_ids. intros H Hin.
  destruct (cd_endpoints (cf_chunk cf)) as [|e es]; [destruct Hin|].
  destruct (chunk_domain cf) as [d|]; [|discriminate H].
  injection H as <-. exists d. split; [reflexivity|].
  exact (fill_lookup_in d i (e :: es) m Hin).
Qed.

Lemma chunks_lookup_out (i : string) (chunks : list ChunkFile)
    (m m' : gmap string string) :
  fold_opt fill_chunk chunks m = Some m' ->
  (forall cf, In cf chunks -> ~ In i (chunk_ids cf)) ->
  m' !! i = m !! i.
Proof.
  revert m. induction chunks as [|cf chunks IH]; intros m H Hout.
  - injection H as <-. reflexivity.
  - simpl in H. destruct (fill_chunk m cf) as [m1|] eqn:E; [|discriminate H].
    rewrite (IH m1 H) by (intros cf' Hcf'; apply Hout; right; exact Hcf').
    apply (fill_chunk_out i cf m m1 E). apply Hout. left. reflexivity.
Qed.

Lemma chunks_lookup_some (i d : string) (chunks : list ChunkFile)
    (m m' : gmap string string) :
  fold_opt fill_chunk chunks m = Some m' -> m' !! i = Some d ->
  m !! i = Some d \/ exists cf, In cf chunks /\ chunk_domain cf = Some d.
Proof.
  revert m. induction chunks as [|cf chunks IH]; intros m H Hi.
  - injection H as <-. left. exact Hi.
  - simpl in H. destruct (fill_chunk m cf) as [m1|] eqn:E; [|discriminate H].
    destruct (IH m1 H Hi) as [H1|[cf' [Hcf' Hd]]].
    + destruct (in_dec String.string_dec i (chunk_ids cf)) as [Hin|Hout].
      * destruct (fill_chunk_in i cf m m1 E Hin) as [d' [Hd' Hl]].
        right. exists cf. split; [left; reflexivity|]. congruence.
      * left. rewrite <- (fill_chunk_out i cf m m1 E Hout). exact H1.
    + right. exists cf'. split; [right; exact Hcf' | exact Hd].
Qed.

(** The dictionary is built when every chunk file that has an endpoint
    has a domain. *)
Lemma ep_to_domain_built (chunks : list ChunkFile) (m : gmap string string) :
  (forall cf, In cf chunks -> cd_endpoints (cf_chunk cf) <> [] ->
              chunk_domain cf <> None) ->
  exists m', fold_opt fill_chunk chunks m = Some m'.
Proof.
  revert m. induction chunks as [|cf chunks IH]; intros m H.
  - exists m. reflexivity.
  - simpl. rewrite fill_chunk_eq.
    pose proof (H cf (or_introl eq_refl)) as Hcf.
    assert (Hrest : forall cf', In cf' chunks ->
                      cd_endpoints (cf_chunk cf') <> [] ->
                      chunk_domain cf' <> None)
      by (intros cf' Hcf'; apply H; right; exact Hcf').
    destruct (cd_endpoints (cf_chunk cf)) as [|e es]; [apply IH, Hrest|].
    destruct (chunk_domain cf) as [d|]; [apply IH, Hrest|].
    exfalso. apply Hcf; [discriminate | reflexivity].
Qed.

(** And it is not built otherwise: the script raises KeyError. *)
Lemma ep_to_domain_raises (chunks : list ChunkFile)
    (m : gmap string string) :
  fold_opt fill_chunk chunks m = None ->
  exists cf, In cf chunks /\ cd_endpoints (cf_chunk cf) <> []
             /\ chunk_domain cf = None.
Proof.
  revert m. induction chunks as [|cf chunks IH]; intros m H;
    [discriminate H|].
  simpl in H. destruct (fill_chunk m cf) as [m1|] eqn:E.
  - destruct (IH m1 H) as [cf' [Hin Hc]].
    exists cf'. split; [right; exact Hin | exact Hc].
  - exists cf. split; [left; reflexivity|]. rewrite fill_chunk_eq in E.
    destruct (cd_endpoints (cf_chunk cf)) as [|e es]; [discriminate E|].
    destruct (chunk_domain cf); [discriminate E|].
    split; [discriminate | reflexivity].
Qed.

End ForeignKeys.

Section ForeignKeyRule.

Import CheckFkCoverage.

Variables (b : Blueprint) (chunks : list ChunkFile).
Variables (ep : Endpoint) (f : Field) (base : string).

Hypothesis with_domains :
  forall cf, In cf chunks -> cd_endpoints (cf_chunk cf) <> [] ->
             chunk_domain cf <> None.
Hypothesis in_blueprint : In ep (bp_endpoints b).
Hypothesis in_body : In f (fields_of ep).
Hypothesis key_name : suffix_only (field_name f) base.


End ForeignKeyRule.

Section ForeignKeyClaim.

Import CheckFkCoverage.


(** The score reads the kind of an unresolved required key from the
    prompt of the chunk: the same endpoint counts as unresolvable under
    one prompt and as resolved across chunks under another. *)
Lemma fk_kind_read_from_prompt :
  cd_endpoints (cf_chunk Examples.hinted_chunk)
  = cd_endpoints (cf_chunk Examples.cross_hinted_chunk)
  /\ ConfidenceScore.ep_with_zero_get_fk
       (ConfidenceScore.count_chunks [Examples.hinted_chunk]) = 1%Z
  /\ ConfidenceScore.ep_with_crosschunk_fk
       (ConfidenceScore.count_chunks [Examples.hinted_chunk]) = 0%Z
  /\ ConfidenceScore.ep_with_zero_get_fk
       (ConfidenceScore.count_chunks [Examples.cross_hinted_chunk]) = 0%Z
  /\ ConfidenceScore.ep_with_crosschunk_fk
       (ConfidenceScore.count_chunks [Examples.cross_hinted_chunk]) = 1%Z.
Proof. repeat split; vm_compute; reflexivity. Qed.

End ForeignKeyClaim.

(* ===================================================================== *)
(** * Request bodies on read methods *)
(* ===================================================================== *)

Section BodyBleedAudit.

Import AuditBlueprints.

(** When the audit has a [BODY_BLEED] error for an endpoint: the method
    is a read method and the body has a field. *)
Lemma audit_body_bleed ep e :
  In e (endpoint_errors ep) /\ is_body_bleed e = true <->
  e = BODY_BLEED (ep_method ep) (ep_path ep) (map field_name (fields_of ep))
  /\ PyStr.mem (ep_method ep) READ_METHODS = true
  /\ fields_of ep <> [].
Proof.
  unfold endpoint_errors. split.
  - intros [H Hb]. rewrite !in_app_iff in H.
    destruct H as [H|[H|[H|H]]].
    + apply in_flat_map in H as [p [_ H]].
      destruct (missing _); [destruct H as [<-|[]]; discriminate | destruct H].
    + apply in_flat_map in H as [p [_ H]].
      destruct (_ && _); [destruct H as [<-|[]]; discriminate | destruct H].
    + destruct (PyStr.mem (ep_method ep) READ_METHODS); [|destruct H].
      destruct (fields_of ep) as [|f fs] eqn:E; [destruct H|].
      destruct H as [<-|[]]. repeat split. discriminate.
    + apply in_flat_map in H as [p [_ H]].
      destruct (_ && _); [destruct H as [<-|[]]; discriminate | destruct H].
  - intros (-> & Hm & Hf). split; [|reflexivity].
    apply in_or_app. right. apply in_or_app. right.
    apply in_or_app. left. rewrite Hm.
    destruct (fields_of ep); [congruence | left; reflexivity].
Qed.

Lemma audit_body_bleed_blueprint b e :
  In e (errors b) -> is_body_bleed e = true ->
  exists ep, In ep (bp_endpoints b) /\ In e (endpoint_errors ep).
Proof.
  unfold errors. intros H Hb. rewrite !in_app_iff in H.
  destruct H as [H|[H|H]].
  - apply in_flat_map in H. exact H.
  - unfold auth_errors in H.
    destruct (PyStr.mem _ _); [destruct H as [<-|[]]; discriminate | destruct H].
  - apply in_flat_map in H as [pg [_ H]]. unfold page_errors in H.
    destruct (_ || _); [destruct H as [<-|[]]; discriminate | destruct H].
Qed.

(** The audit has no [BODY_BLEED] error for an endpoint whose request
    body is null, whatever its other fields are. *)
Lemma audit_no_bleed_without_body ep e :
  ep_requestBody ep = None -> In e (endpoint_errors ep) ->
  is_body_bleed e = false.
Proof.
  intros Hnone Hin. destruct (is_body_bleed e) eqn:E; [|reflexivity].
  destruct (proj1 (audit_body_bleed ep e) (conj Hin E)) as (_ & _ & Hf).
  unfold fields_of in Hf. rewrite Hnone in Hf. congruence.
Qed.

(** C1 in [audit_blueprints.py]: a GET endpoint whose request body is
    an object without fields gets no [BODY_BLEED] error, though the
    request body is not null. *)
Theorem audit_misses_empty_body :
  ep_method Examples.get_with_empty_body = "GET"
  /\ ep_requestBody Examples.get_with_empty_body <> None
  /\ In Examples.get_with_empty_body (bp_endpoints Examples.bleed_blueprint)
  /\ forall e, In e (errors Examples.bleed_blueprint) ->
               is_body_bleed e = false.
Proof.
  repeat split; try discriminate; [left; reflexivity|].
  intros e He. vm_compute in He. destruct He.
Qed.

End BodyBleedAudit.


Section BodyBleedValidation.

Import ValidateBlueprints.

Lemma In_insert_by {A} (le : A -> A -> bool) (x y : A) (l : list A) :
  In y (insert_by le x l) <-> y = x \/ In y l.
Proof.
  induction l as [|z l IH]; simpl.
  - split; intros [H|H]; auto.
  - destruct (le x z); simpl.
    + split; intros [H|H]; auto.
    + rewrite IH. split; intros H; intuition auto.
Qed.

(** Sorting keeps the entries. *)
Lemma In_sort_by {A} (le : A -> A -> bool) (y : A) (l : list A) :
  In y (sort_by le l) <-> In y l.
Proof.
  unfold sort_by. induction l as [|x l IH]; simpl; [reflexivity|].
  rewrite In_insert_by, IH. split; intros [H|H]; auto.
Qed.

(** What the loop of [body_bleed] prints. *)
Lemma bleed_loop_printed methods items acc st :
  printed (snd (for_fold items acc (bleed_step methods) st))
  = printed st ++ flat_map (bleed_line methods) items.
Proof.
  revert acc st. induction items as [|[[m p] ep] items IH]; intros acc st.
  - simpl. rewrite app_nil_r. reflexivity.
  - cbn [for_fold flat_map]. unfold bind at 1. unfold bleed_line at 1.
    unfold bleed_step at 1. cbn [fst snd].
    destruct (PyStr.mem m methods && is_some (ep_requestBody ep)).
    + unfold bind at 1. cbn [issue ret]. rewrite IH. cbn [printed].
      rewrite <- app_assoc. reflexivity.
    + unfold ret at 1. rewrite IH. reflexivity.
Qed.

(** The lines of [body_bleed]: the lines of the loop and, when the loop
    found nothing, the pass line. *)
Lemma body_bleed_printed methods bp_eps st :
  exists last,
    printed (snd (body_bleed methods bp_eps st))
    = printed st ++ flat_map (bleed_line methods) (sorted_items bp_eps) ++ last
    /\ forall l, In l last -> is_fail l = false.
Proof.
  unfold body_bleed. unfold bind at 1.
  pose proof (bleed_loop_printed methods (sorted_items bp_eps) false st) as H.
  destruct (for_fold (sorted_items bp_eps) false (bleed_step methods) st)
    as [[found|] st'].
  - simpl in H. destruct found; simpl.
    + exists []. rewrite app_nil_r. split; [exact H | intros l []].
    + exists [PASS ["No body bleed"]]. rewrite H, <- app_assoc.
      split; [reflexivity|]. intros l [<-|[]]. reflexivity.
  - simpl in H. simpl. exists []. rewrite app_nil_r.
    split; [exact H | intros l []].
Qed.

(** The loop of [validate_nextjs]: each endpoint of the index whose
    method is GET, DELETE or HEAD and whose request body is not null gets
    a [BODY_BLEED] failure line, and each such line comes from an endpoint
    of the index whose request body is not null. *)
Lemma nextjs_body_bleed bp_eps st method path ep :
  let out := printed (snd (body_bleed bleed_methods bp_eps st)) in
  (In ((method, path), ep) bp_eps ->
   In method ["GET"; "DELETE"; "HEAD"] -> ep_requestBody ep <> None ->
   In (FAIL "BODY_BLEED" [method; path]) out)
  /\ (In (FAIL "BODY_BLEED" [method; path]) out ->
      In (FAIL "BODY_BLEED" [method; path]) (printed st)
      \/ exists ep', In ((method, path), ep') bp_eps
                     /\ ep_requestBody ep' <> None).
Proof.
  intros out. destruct (body_bleed_printed bleed_methods bp_eps st)
    as [last [Hout Hlast]].
  unfold out. rewrite Hout. split.
  - intros Hin Hm Hbody. apply in_or_app. right. apply in_or_app. left.
    apply in_flat_map. exists ((method, path), ep).
    split; [apply In_sort_by; exact Hin|].
    unfold bleed_line. cbn [fst snd].
    assert (Hmem : PyStr.mem method bleed_methods = true).
    { apply mem_In. unfold bleed_methods. simpl in Hm |- *. tauto. }
    rewrite Hmem. destruct (ep_requestBody ep); [|congruence].
    left. reflexivity.
  - intros Hin. apply in_app_or in Hin as [Hin|Hin]; [left; exact Hin|].
    apply in_app_or in Hin as [Hin|Hin].
    + right. apply in_flat_map in Hin as [[[m p] ep'] [Hs Hl]].
      apply In_sort_by in Hs. unfold bleed_line in Hl. cbn [fst snd] in Hl.
      destruct (PyStr.mem m bleed_methods); [|destruct Hl].
      destruct (ep_requestBody ep') eqn:E; [|destruct Hl].
      destruct Hl as [Hl|[]]. injection Hl as -> ->.
      exists ep'. split; [exact Hs|]. rewrite E. discriminate.
    + specialize (Hlast _ Hin). discriminate.
Qed.

(** The endpoint that the audit lets pass is reported by this loop. *)
Lemma nextjs_reports_empty_body :
  In (FAIL "BODY_BLEED" ["GET"; "/api/patients"])
     (printed (snd (body_bleed bleed_methods
                      (index_endpoints
                         (bp_endpoints Examples.bleed_blueprint))
                      initial))).
Proof. vm_compute. left. reflexivity. Qed.

End BodyBleedValidation.


(* ===================================================================== *)
(** * The rules at work on the example documents *)
(* ===================================================================== *)

Section Witnesses.

Import Examples.



Lemma orphan_witness :
  DeepValidate.missing_ep two_of_each [one_of_each] = {[ "ep2" ]}
  /\ size (DeepValidate.missing_ep two_of_each [one_of_each]) = 1
  /\ DeepValidate.missing_pg two_of_each [one_of_each] = {[ "pg2" ]}
  /\ size (DeepValidate.missing_pg two_of_each [one_of_each]) = 1.
Proof.
  destruct (orphan_rule two_of_each [one_of_each]) as (_ & _ & Hep & Hpg).
  assert (H1 : DeepValidate.missing_ep two_of_each [one_of_each] = {[ "ep2" ]}
               /\ size (DeepValidate.missing_ep two_of_each [one_of_each]) = 1).
  { apply Hep.
    - apply elem_of_ep_ids_in_bp. eexists. split; [right; left; reflexivity|].
      reflexivity.
    - rewrite elem_of_ep_ids_in_chunks.
      intros (cf & ep & [<-|[]] & [<-|[]] & Heq). discriminate.
    - intros j Hj Hne. apply elem_of_ep_ids_in_bp in Hj as (ep & Hin & <-).
      destruct Hin as [<-|[<-|[]]]; [|elim Hne; reflexivity].
      apply elem_of_ep_ids_in_chunks. exists one_of_each. eexists.
      split; [left; reflexivity|]. split; [left; reflexivity | reflexivity]. }
  assert (H2 : DeepValidate.missing_pg two_of_each [one_of_each] = {[ "pg2" ]}
               /\ size (DeepValidate.missing_pg two_of_each [one_of_each]) = 1).
  { apply Hpg.
    - apply elem_of_page_ids_in_bp. eexists. split; [right; left; reflexivity|].
      reflexivity.
    - rewrite elem_of_page_ids_in_chunks.
      intros (cf & pg & [<-|[]] & [<-|[]] & Heq). discriminate.
    - intros j Hj Hne. apply elem_of_page_ids_in_bp in Hj as (pg & Hin & <-).
      destruct Hin as [<-|[<-|[]]]; [|elim Hne; reflexivity].
      apply elem_of_page_ids_in_chunks. exists one_of_each. eexists.
      split; [left; reflexivity|]. split; [left; reflexivity | reflexivity]. }
  destruct H1 as [H1 H1']. destruct H2 as [H2 H2'].
  repeat split; assumption.
Defined.

Lemma no_auth_witness :
  bp_auth no_auth_blueprint = None
  /\ In (AuditBlueprints.AUTH_INCOMPLETE "MISSING" "MISSING")
        (AuditBlueprints.errors no_auth_blueprint)
  /\ ConfidenceScore.score no_auth_blueprint [plain_chunk] = 80%Z.
Proof.
  destruct (no_auth_scenario no_auth_blueprint [plain_chunk] eq_refl)
    as [Hfinding Hscore].
  split; [reflexivity|]. split; [exact Hfinding|].
  apply Hscore; reflexivity.
Defined.

Lemma score_monotone_witness :
  let t := ConfidenceScore.count_chunks [hinted_chunk] in
  (0 < ConfidenceScore.ep_with_zero_get_fk t)%Z
  /\ (ConfidenceScore.score_of None (ConfidenceScore.one_more_zero_get_fk t)
      <= ConfidenceScore.score_of None t)%Z.
Proof.
  intros t.
  assert (Hpos : (0 < ConfidenceScore.ep_with_zero_get_fk t)%Z)
    by reflexivity.
  split; [exact Hpos|].
  apply (score_monotone None t Hpos).
Defined.

Lemma duplicate_per_locator_witness :
  In save_a (pg_locators twin_page)
  /\ List.filter AuditLocators.is_duplicate
       (AuditLocators.problems_of
          (AuditLocators.pw_codes_on_page (pg_locators twin_page)) save_a)
     = [AuditLocators.DUPLICATE_ON_PAGE ["saveTop"; "saveBottom"]].
Proof.
  assert (Hin : In save_a (pg_locators twin_page)) by (left; reflexivity).
  split; [exact Hin|].
  destruct (duplicate_per_locator twin_page save_a Hin) as (H & _ & _).
  apply H.
  - discriminate.
  - apply le_n.
Defined.



End Witnesses.


(* ===================================================================== *)
(** * Further properties of audit_locators.py *)
(* ===================================================================== *)

Section LocatorAudit.

Import AuditLocators.

Lemma rstrip_cons (c d : ascii) (s r : string) :
  PyStr.rstrip s = String d r -> PyStr.rstrip (String c s) = String c (String d r).
Proof. intros H. cbn [PyStr.rstrip]. rewrite H. reflexivity. Qed.

Lemma rstrip_fixed (s : string) : PyStr.rstrip (PyStr.rstrip s) = PyStr.rstrip s.
Proof.
  induction s as [|c s IH]; [reflexivity|].
  cbn [PyStr.rstrip]. destruct (PyStr.rstrip s) as [|d r] eqn:E.
  - destruct (PyStr.isspace c) eqn:Ec; [reflexivity|].
    cbn [PyStr.rstrip]. rewrite Ec. reflexivity.
  - apply rstrip_cons. exact IH.
Qed.

Lemma pw_of_stripped (loc : Locator) : PyStr.rstrip (pw_of loc) = pw_of loc.
Proof. unfold pw_of, PyStr.strip. apply rstrip_fixed. Qed.

(** X1. The finding [UNQUALIFIED_ROLE r] is reported for a locator
    exactly when the locator is interactive, [r] is one of the nine roles
    of the pattern, and the selector code without the white space at its
    ends finishes with the call [getByRole('r')]. *)
Theorem unqualified_role_exact codes loc r :
  In (UNQUALIFIED_ROLE r) (problems_of codes loc) <->
  loc_isInteractive loc = true /\ In r interactive_roles
  /\ exists pre, pw_of loc = pre +:+ role_call r.
Proof.
  rewrite unqualified_role_in. split.
  - intros [Hm Hi]. split; [exact Hi|].
    apply unqualified_match_inv in Hm as [Hr [pre [ws [Heq Hws]]]].
    split; [exact Hr|]. exists pre.
    pose proof (pw_of_stripped loc) as Hs. rewrite Heq in Hs at 1.
    rewrite !rstrip_append, (all_space_rstrip ws Hws) in Hs.
    rewrite rstrip_role_call in Hs by exact Hr.
    rewrite <- Hs. unfold role_call. reflexivity.
  - intros (Hi & Hr & pre & Hpw). split; [|exact Hi].
    rewrite Hpw. apply unqualified_match_role_call. exact Hr.
Qed.

Lemma after_paren_never (rest : string) : after_paren rest = false.
Proof.
  unfold after_paren, at_dollar.
  destruct rest as [|c rest]; [reflexivity|].
  destruct rest as [|d rest].
  - simpl. destruct (Ascii.eqb_spec c "010") as [->|]; reflexivity.
  - simpl. destruct (Ascii.eqb c "010"); reflexivity.
Qed.

Lemma dot_star_paren_never (rest : string) : dot_star_paren rest = false.
Proof.
  induction rest as [|c rest IH]; [reflexivity|].
  cbn [dot_star_paren]. rewrite after_paren_never, IH.
  rewrite andb_false_r, andb_false_r. reflexivity.
Qed.

(** X2. The pattern of the heading rule matches no text, so the finding
    [HEADING_PARTIAL] is never reported, whatever the locator is. *)
Theorem heading_partial_never :
  (forall pw, heading_partial_search pw = false
              /\ heading_partial_search pw = heading_partial_match pw)
  /\ (forall codes loc, ~ In HEADING_PARTIAL (problems_of codes loc)).
Proof.
  assert (Hnone : forall pw, heading_partial_search pw = false).
  { induction pw as [|c pw IH].
    - reflexivity.
    - cbn [heading_partial_search]. rewrite IH.
      destruct (drop_prefix "name: '" (String c pw));
        rewrite ?dot_star_paren_never; reflexivity. }
  split.
  - intros pw. split; [apply Hnone | rewrite Hnone; reflexivity].
  - intros codes loc H. unfold problems_of in H.
    rewrite !in_app_iff in H.
    destruct H as [H|[H|[H|[H|[H|[H|H]]]]]].
    + destruct (unqualified_match (pw_of loc)); [|destruct H].
      destruct (loc_isInteractive loc);
        [destruct H as [H|[]]; discriminate | destruct H].
    + destruct (_ && _); [destruct H as [H|[]]; discriminate | destruct H].
    + destruct (_ && _); [destruct H as [H|[]]; discriminate | destruct H].
    + destruct (_ && _); [destruct H as [H|[]]; discriminate | destruct H].
    + unfold heading_partial_match in H. rewrite andb_false_r in H.
      destruct H.
    + destruct (PyStr.contains _ _);
        [destruct H as [H|[]]; discriminate | destruct H].
    + destruct (loc_isConditional loc);
        [destruct H as [H|[]]; discriminate | destruct H].
Qed.

Lemma problems_entry bp pg loc p :
  In pg (bp_pages bp) -> In loc (pg_locators pg) ->
  In p (problems_of (pw_codes_on_page (pg_locators pg)) loc) ->
  exists e, In e (PROBLEMS bp) /\ In p (e_problems e).
Proof.
  intros Hpg Hloc Hp. eexists. split.
  - apply (entry_in_problems bp pg loc p Hpg Hloc Hp).
  - exact Hp.
Qed.

(** X3. An interactive locator with the flag [DYNAMIC_LIST] anywhere in
    the blueprint makes the verdict of the audit the negative one; a
    conditional locator anywhere in the blueprint rules out the clean
    verdict. *)
Theorem verdict_of_flagged_locator bp pg loc :
  In pg (bp_pages bp) -> In loc (pg_locators pg) ->
  (PyStr.mem "DYNAMIC_LIST" (loc_flags loc) = true ->
   loc_isInteractive loc = true ->
   verdict_of (PROBLEMS bp) = NO_FIX_STRICT_FIRST)
  /\ (loc_isConditional loc = true ->
      verdict_of (PROBLEMS bp) <> YES_CLEAN).
Proof.
  intros Hpg Hloc. split.
  - intros Hflag Hint.
    assert (Hp : In DYNAMIC_LIST_INTERACTIVE
                   (problems_of (pw_codes_on_page (pg_locators pg)) loc)).
    { unfold problems_of. rewrite Hflag, Hint.
      apply in_or_app. right. apply in_or_app. right.
      apply in_or_app. left. left. reflexivity. }
    destruct (problems_entry bp pg loc _ Hpg Hloc Hp) as [e [He Hpe]].
    unfold verdict_of.
    assert (Hs : In e (strict_failures (PROBLEMS bp))).
    { apply filter_In. split; [exact He|]. unfold is_strict.
      apply existsb_exists. exists DYNAMIC_LIST_INTERACTIVE.
      split; [exact Hpe | reflexivity]. }
    destruct (strict_failures (PROBLEMS bp)); [destruct Hs | reflexivity].
  - intros Hcond.
    assert (Hp : In CONDITIONAL
                   (problems_of (pw_codes_on_page (pg_locators pg)) loc)).
    { unfold problems_of. rewrite Hcond.
      repeat (apply in_or_app; right). left. reflexivity. }
    destruct (problems_entry bp pg loc _ Hpg Hloc Hp) as [e [He Hpe]].
    unfold verdict_of.
    assert (Hl : In e (likely_failures (PROBLEMS bp))).
    { apply filter_In. split; [exact He|]. unfold is_likely.
      apply existsb_exists. exists CONDITIONAL.
      split; [exact Hpe | reflexivity]. }
    destruct (strict_failures (PROBLEMS bp)); [|discriminate].
    destruct (likely_failures (PROBLEMS bp)); [destruct Hl | discriminate].
Qed.

Lemma verdict_of_flagged_locator_witness :
  verdict_of (PROBLEMS Examples.list_blueprint) = NO_FIX_STRICT_FIRST
  /\ verdict_of (PROBLEMS Examples.banner_blueprint) <> YES_CLEAN.
Proof.
  split.
  - destruct (verdict_of_flagged_locator Examples.list_blueprint
                (Examples.page_of "pg4" "/visits" [Examples.row_button])
                Examples.row_button (or_introl eq_refl) (or_introl eq_refl))
      as [H _].
    exact (H eq_refl eq_refl).
  - destruct (verdict_of_flagged_locator Examples.banner_blueprint
                (Examples.page_of "pg5" "/home" [Examples.banner])
                Examples.banner (or_introl eq_refl) (or_introl eq_refl))
      as [_ H].
    exact (H eq_refl).
Defined.

Lemma sharing_app pw l1 l2 :
  sharing pw (l1 ++ l2) = sharing pw l1 ++ sharing pw l2.
Proof. unfold sharing. apply List.filter_app. Qed.

(** X4. Two locators of a page whose selector codes, white space at the
    ends removed, are the same and not empty get the same
    [DUPLICATE_ON_PAGE] finding, each in its own problem list, and the
    finding names both of them. *)
Theorem duplicate_pair_symmetric (pg : Page) (l1 l2 l3 : list Locator)
    (a b : Locator) :
  pg_locators pg = l1 ++ a :: l2 ++ b :: l3 ->
  pw_of a = pw_of b -> pw_of a <> "" ->
  let codes := pw_codes_on_page (pg_locators pg) in
  exists names,
    In (DUPLICATE_ON_PAGE names) (problems_of codes a)
    /\ In (DUPLICATE_ON_PAGE names) (problems_of codes b)
    /\ In (name_of a) names /\ In (name_of b) names
    /\ 2 <= length names.
Proof.
  intros Hlocs Hab Hne codes.
  apply nonempty_true in Hne.
  set (group := sharing (pw_of a) (pg_locators pg)).
  assert (Hgroup : exists g1 g2 g3, group = g1 ++ a :: g2 ++ b :: g3).
  { unfold group. rewrite Hlocs.
    rewrite sharing_app. cbn [sharing List.filter].
    rewrite String.eqb_refl.
    change (List.filter (fun l => String.eqb (pw_of l) (pw_of a))
              (l2 ++ b :: l3)) with (sharing (pw_of a) (l2 ++ b :: l3)).
    rewrite sharing_app. cbn [sharing List.filter].
    rewrite <- Hab, String.eqb_refl. eauto. }
  destruct Hgroup as (g1 & g2 & g3 & Hg).
  assert (Hnames : names_for codes (pw_of a) = map name_of group).
  { unfold codes. apply names_for_page. exact Hne. }
  assert (Hlen : 2 <= length (map name_of group)).
  { rewrite length_map, Hg, !length_app. simpl. rewrite length_app. simpl.
    lia. }
  assert (Hdup : forall l, pw_of l = pw_of a ->
            In (DUPLICATE_ON_PAGE (map name_of group)) (problems_of codes l)).
  { intros l Hl.
    assert (Hf : In (DUPLICATE_ON_PAGE (map name_of group))
                   (List.filter is_duplicate (problems_of codes l))).
    { rewrite duplicates_of, Hl, Hne, Hnames. simpl.
      destruct (Nat.ltb_spec 1 (length (map name_of group))); [|lia].
      left. reflexivity. }
    apply filter_In in Hf as [Hf _]. exact Hf. }
  exists (map name_of group). split; [apply Hdup; reflexivity|].
  split; [apply Hdup; symmetry; exact Hab|].
  split; [|split; [|exact Hlen]].
  - apply in_map. rewrite Hg. apply in_or_app. right. left. reflexivity.
  - apply in_map. rewrite Hg. apply in_or_app. right. right.
    apply in_or_app. right. left. reflexivity.
Qed.

Lemma duplicate_pair_symmetric_witness :
  exists names,
    In (DUPLICATE_ON_PAGE names)
       (problems_of (pw_codes_on_page (pg_locators Examples.twin_page))
                    Examples.save_a)
    /\ In (DUPLICATE_ON_PAGE names)
          (problems_of (pw_codes_on_page (pg_locators Examples.twin_page))
                       Examples.save_b)
    /\ In "saveTop" names /\ In "saveBottom" names /\ 2 <= length names.
Proof.
  assert (Hne : pw_of Examples.save_a <> "") by discriminate.
  exact (duplicate_pair_symmetric Examples.twin_page [] [] []
           Examples.save_a Examples.save_b eq_refl eq_refl Hne).
Defined.

End LocatorAudit.


(* ===================================================================== *)
(** * Further properties of validate_chunks.py *)
(* ===================================================================== *)

Section ChunkValidation.

Import ValidateChunks.

Ltac absurd_in H :=
  repeat match type of H with
  | In _ (flat_map _ _) => apply in_flat_map in H as [? [_ H]]
  | In _ (_ ++ _) => apply in_app_or in H as [H|H]
  | In _ (if ?c then _ else _) => destruct c
  | In _ (match ?c with _ => _ end) => destruct c
  | In _ [] => destruct H
  | In _ (_ :: _) => destruct H as [H|H]; [discriminate H|]
  end.

Lemma filter_split_length {A} (f : A -> bool) (l : list A) :
  length (List.filter f l) + length (List.filter (fun x => negb (f x)) l)
  = length l.
Proof.
  induction l as [|x l IH]; [reflexivity|].
  simpl. destruct (f x); simpl; lia.
Qed.

Lemma chunk_rows_endpoints cf :
  length (List.filter is_endpoint_row (chunk_rows cf))
  = length (cd_endpoints (cf_chunk cf)).
Proof.
  unfold chunk_rows. rewrite List.filter_app, length_app.
  assert (H1 : forall eps f,
            List.filter is_endpoint_row
              (map (fun ep => mkRow (cf_name cf) endpoint (ep_id ep)
                                 (ep_key ep) (f ep)) eps)
            = map (fun ep => mkRow (cf_name cf) endpoint (ep_id ep)
                               (ep_key ep) (f ep)) eps).
  { intros eps f. induction eps as [|e eps IH]; [reflexivity|].
    simpl. rewrite IH. reflexivity. }
  assert (H2 : forall pgs f,
            List.filter is_endpoint_row
              (map (fun pg => mkRow (cf_name cf) page (pg_id pg)
                                 ("PAGE " +:+ default "?" (pg_route pg))
                                 (f pg)) pgs) = []).
  { intros pgs f. induction pgs as [|g pgs IH]; [reflexivity|].
    simpl. exact IH. }
  rewrite H1, H2, length_map. simpl. lia.
Qed.


(** The parts of the issue list of an endpoint. *)
Lemma body_issue_in auth ep x :
  x = REQ_BODY_NULL \/ x = REQ_BODY_FIELDS_EMPTY ->
  In x (endpoint_issues auth ep) ->
  PyStr.mem (ep_method ep) ["POST"; "PUT"; "PATCH"] = true
  /\ PyStr.mem (ep_key ep) LEGITIMATELY_EMPTY_BODY = false
  /\ In x (match ep_requestBody ep with
           | None => [REQ_BODY_NULL]
           | Some b => match body_fields b with
                       | [] => [REQ_BODY_FIELDS_EMPTY]
                       | _ => []
                       end
           end).
Proof.
  intros Hx H. unfold endpoint_issues in H. rewrite !in_app_iff in H.
  destruct H as [H|[H|[H|[H|[H|[H|[H|[H|H]]]]]]]].
  - destruct Hx as [-> | ->]; absurd_in H.
  - destruct Hx as [-> | ->]; absurd_in H.
  - destruct Hx as [-> | ->]; absurd_in H.
  - destruct (PyStr.mem (ep_method ep) ["POST"; "PUT"; "PATCH"]);
      [|destruct H].
    destruct (PyStr.mem (ep_key ep) LEGITIMATELY_EMPTY_BODY);
      [destruct H|].
    simpl in H. auto.
  - destruct (ep_requestBody ep); [|destruct H].
    destruct Hx as [-> | ->]; absurd_in H.
  - destruct Hx as [-> | ->]; absurd_in H.
  - destruct Hx as [-> | ->]; absurd_in H.
  - destruct Hx as [-> | ->]; absurd_in H.
  - destruct Hx as [-> | ->]; absurd_in H.
Qed.


Lemma colon_tokens_none (s : string) :
  PyStr.contains ":" s = false -> PyRe.colon_tokens s = [].
Proof.
  induction s as [|c s IH]; [reflexivity|].
  cbn [PyStr.contains PyRe.colon_tokens]. intros H.
  apply orb_false_iff in H as [Hs Hc]. cbn [PyStr.startswith] in Hs.
  destruct s; rewrite andb_true_r in Hs; rewrite Ascii.eqb_sym, Hs;
    apply IH, Hc.
Qed.

Lemma path_param_issue_in auth ep x :
  (exists t, x = PATH_PARAM_NOT_DECLARED t)
  \/ (exists n, x = ORPHAN_PATH_PARAM n) ->
  In x (endpoint_issues auth ep) ->
  In x (flat_map (fun t =>
          if existsb (fun p => String.eqb (param_name p) t) (ep_pathParams ep)
          then [] else [PATH_PARAM_NOT_DECLARED t])
          (PyRe.colon_tokens (ep_path ep)))
  \/ In x (flat_map (fun p =>
          if PyStr.mem (param_name p) (PyRe.colon_tokens (ep_path ep))
          then [] else [ORPHAN_PATH_PARAM (param_name p)])
          (ep_pathParams ep)).
Proof.
  intros Hx H. unfold endpoint_issues in H. rewrite !in_app_iff in H.
  destruct H as [H|[H|[H|[H|[H|[H|[H|[H|H]]]]]]]]; auto;
    exfalso; destruct Hx as [[t ->]|[n ->]]; absurd_in H.
Qed.


Lemma startswith_rstrip (p s : string) :
  PyStr.rstrip p = p -> PyStr.startswith p s = true ->
  PyStr.startswith p (PyStr.rstrip s) = true.
Proof.
  intros Hp Hs. apply startswith_inv in Hs as [r ->].
  rewrite rstrip_append. destruct (PyStr.rstrip r) as [|d r'].
  - rewrite Hp. rewrite <- (append_empty_r p) at 2. apply startswith_app.
  - apply startswith_app.
Qed.

Lemma startswith_contains (p s : string) :
  PyStr.startswith p s = true -> PyStr.contains p s = true.
Proof. intros H. destruct s; simpl; rewrite H; reflexivity. Qed.

(** X8. The two scripts agree on a selector code that begins with
    [page.]: check_locators does not report it as empty or as lacking
    the page prefix, and validate_chunks reports it neither as missing
    nor as suspect. *)
Theorem page_prefix_accepted (loc : Locator) :
  PyStr.startswith "page." (loc_playwrightCode loc) = true ->
  (forall repo chunk route b,
     In b (CheckLocators.check_locator repo chunk route loc) ->
     forall name code,
       b <> CheckLocators.EMPTY_CODE repo chunk route name
       /\ b <> CheckLocators.MISSING_PAGE_PREFIX repo chunk route code)
  /\ (forall name code,
        ~ In (LOCATOR_NO_PW_CODE name) (locator_issues loc)
        /\ ~ In (LOCATOR_SUSPECT_PW_CODE name code) (locator_issues loc)).
Proof.
  intros Hpre.
  assert (Hcode : exists r, loc_playwrightCode loc = "page." +:+ r)
    by (apply startswith_inv; exact Hpre).
  destruct Hcode as [r Hcode].
  assert (Hstrip : PyStr.startswith "page."
                     (PyStr.strip (loc_playwrightCode loc)) = true).
  { unfold PyStr.strip. apply startswith_rstrip; [reflexivity|].
    rewrite Hcode. reflexivity. }
  split.
  - intros repo chunk route b Hb name code.
    assert (Hne : PyStr.nonempty (loc_playwrightCode loc) = true)
      by (rewrite Hcode; reflexivity).
    assert (Hs : String.eqb (PyStr.strip (loc_playwrightCode loc)) "" = false).
    { destruct (PyStr.strip (loc_playwrightCode loc)); [discriminate Hstrip|].
      reflexivity. }
    unfold CheckLocators.check_locator in Hb.
    rewrite !in_app_iff in Hb.
    destruct Hb as [Hb|[Hb|[Hb|[Hb|Hb]]]].
    + rewrite Hne in Hb. cbn [negb orb] in Hb. rewrite Hs in Hb.
      destruct Hb.
    + destruct (_ || _); [|destruct Hb].
      destruct Hb as [<-|[]]. split; discriminate.
    + destruct (PyRe.has_bare_segment _); [|destruct Hb].
      destruct Hb as [<-|[]]. split; discriminate.
    + destruct (_ && _); [|destruct Hb].
      destruct Hb as [<-|[]]. split; discriminate.
    + unfold CheckLocators.lacks_page_prefix in Hb.
      rewrite Hne, Hpre in Hb. destruct Hb.
  - intros name code. unfold locator_issues.
    assert (Hne : PyStr.nonempty (PyStr.strip (loc_playwrightCode loc)) = true).
    { destruct (PyStr.strip (loc_playwrightCode loc)); [discriminate Hstrip|].
      reflexivity. }
    assert (Hkw : existsb
                    (fun kw => PyStr.contains kw
                                 (PyStr.strip (loc_playwrightCode loc)))
                    pw_keywords = true).
    { apply existsb_exists. exists "page.". split.
      - unfold pw_keywords. simpl. tauto.
      - apply startswith_contains. exact Hstrip. }
    rewrite Hne, Hkw. simpl.
    split; intros H; destruct (Qltb _ _); simpl in H;
      repeat (destruct H as [H|H]; [discriminate H|]); exact H.
Qed.



Lemma page_prefix_accepted_witness :
  ~ In (LOCATOR_NO_PW_CODE "saveTop") (locator_issues Examples.save_a)
  /\ ~ In (LOCATOR_SUSPECT_PW_CODE "saveTop" "page.getByTestId('save')")
          (locator_issues Examples.save_a).
Proof.
  destruct (page_prefix_accepted Examples.save_a eq_refl) as [_ H].
  exact (H "saveTop" "page.getByTestId('save')").
Defined.

End ChunkValidation.


(* ===================================================================== *)
(** * Further properties of scripts/check_locators.py *)
(* ===================================================================== *)

Section LocatorCheck.

Import CheckLocators.

Local Open Scope Z_scope.

(** X9. The counters of the summary agree with the documents.  A run
    that goes through has counted every page of every chunk once,
    either as a page with locators or as a page without, and every
    locator of these pages; the only other end of a run is the KeyError
    of a page without a route that has a locator with a finding, and
    then no summary is printed. *)
Theorem summary_counters (dirs : list (string * list ChunkFile)) :
  match run dirs with
  | Some st =>
      total_pages st = Z.of_nat (length (all_pages dirs))
      /\ total_pages st = pages_with_locators st + pages_no_locators st
      /\ pages_no_locators st
         = Z.of_nat (length (List.filter (fun p => negb (has_locators p))
                                         (all_pages dirs)))
      /\ total_locators st
         = Z.of_nat (length (flat_map pg_locators (all_pages dirs)))
      /\ forall pg, In pg (all_pages dirs) -> pg_route pg = None ->
                    forall l, In l (pg_locators pg) -> flagged l = false
  | None =>
      exists pg, In pg (all_pages dirs) /\ pg_route pg = None
                 /\ exists l, In l (pg_locators pg) /\ flagged l = true
  end.
Proof.
  pose proof (run_spec dirs) as Hrun.
  destruct (run dirs) as [st|]; [|apply raises_on_inv; exact Hrun].
  destruct Hrun as [Hno [(H1 & H2 & H3 & H4) _]].
  simpl in H1, H2, H3, H4.
  pose proof (filter_split_length has_locators (all_pages dirs)) as Hsplit.
  repeat split; try lia.
  intros pg Hpg Hr l Hl. destruct (flagged l) eqn:E; [|reflexivity].
  assert (Hyes : existsb raises_on (all_pages dirs) = true).
  { apply raises_on_inv. exists pg. split; [exact Hpg|].
    split; [exact Hr|]. exists l. split; assumption. }
  congruence.
Qed.

Lemma lstrip_all_space (s : string) :
  PyStr.all_space s = true -> PyStr.lstrip s = "".
Proof.
  induction s as [|c s IH]; [reflexivity|].
  cbn [PyStr.all_space PyStr.lstrip]. intros H.
  apply andb_true_iff in H as [Hc Hs]. rewrite Hc. apply IH, Hs.
Qed.

Lemma startswith_space (p s : string) :
  PyStr.nonempty p = true -> PyStr.all_space p = false ->
  PyStr.isspace match p with String a _ => a | EmptyString => " "%char end
  = false ->
  PyStr.nonempty s = true -> PyStr.all_space s = true ->
  PyStr.startswith p s = false.
Proof.
  destruct p as [|a p]; [discriminate|]. destruct s as [|b s]; [discriminate|].
  intros _ _ Ha _ Hs. cbn [PyStr.all_space] in Hs.
  apply andb_true_iff in Hs as [Hb _]. cbn [PyStr.startswith].
  destruct (Ascii.eqb_spec a b) as [->|]; [congruence | reflexivity].
Qed.

(** X10. A selector code that is not empty and has white space only is
    reported twice by the loop body: as an empty code and as a code
    without the page prefix. *)
Theorem blank_code_reported_twice repo chunk route (loc : Locator) :
  loc_playwrightCode loc <> "" ->
  PyStr.all_space (loc_playwrightCode loc) = true ->
  In (EMPTY_CODE repo chunk route (default "" (loc_name loc)))
     (check_locator repo chunk route loc)
  /\ In (MISSING_PAGE_PREFIX repo chunk route
           (PyStr.take 120 (loc_playwrightCode loc)))
        (check_locator repo chunk route loc).
Proof.
  intros Hne Hsp. apply nonempty_true in Hne.
  unfold check_locator. split.
  - assert (Hs : PyStr.strip (loc_playwrightCode loc) = "").
    { unfold PyStr.strip. rewrite lstrip_all_space by exact Hsp.
      reflexivity. }
    rewrite Hs. rewrite orb_true_r. apply in_or_app. left. left. reflexivity.
  - assert (Hl : lacks_page_prefix (loc_playwrightCode loc) = true).
    { unfold lacks_page_prefix. rewrite Hne.
      rewrite !startswith_space by (reflexivity || assumption).
      reflexivity. }
    rewrite Hl. repeat (apply in_or_app; right). left. reflexivity.
Qed.

Lemma blank_code_witness :
  In (EMPTY_CODE "remix" "c.json" "/r" "blank")
     (check_locator "remix" "c.json" "/r" Examples.blank_locator)
  /\ In (MISSING_PAGE_PREFIX "remix" "c.json" "/r" "   ")
        (check_locator "remix" "c.json" "/r" Examples.blank_locator).
Proof.
  assert (Hne : loc_playwrightCode Examples.blank_locator <> "")
    by discriminate.
  exact (blank_code_reported_twice "remix" "c.json" "/r"
           Examples.blank_locator Hne eq_refl).
Defined.

Lemma after_segchars_app (w post : string) :
  all_segchars w = true ->
  PyRe.after_segchars (w +:+ String "]" post) = String "]" post.
Proof.
  induction w as [|c w IH]; [reflexivity|].
  cbn [all_segchars]. intros H. apply andb_true_iff in H as [Hc Hw].
  rewrite append_cons. cbn [PyRe.after_segchars]. rewrite Hc. apply IH, Hw.
Qed.

Lemma after_segchars_split (s : string) :
  exists w, s = w +:+ PyRe.after_segchars s /\ all_segchars w = true.
Proof.
  induction s as [|c s [w [Hs Hw]]]; [exists ""; split; reflexivity|].
  cbn [PyRe.after_segchars]. destruct (PyRe.issegchar c) eqn:E.
  - exists (String c w). split.
    + rewrite append_cons, <- Hs. reflexivity.
    + cbn [all_segchars]. rewrite E, Hw. reflexivity.
  - exists "". split; reflexivity.
Qed.

Lemma has_bare_segment_app (pre s : string) :
  PyRe.has_bare_segment s = true -> PyRe.has_bare_segment (pre +:+ s) = true.
Proof.
  intros H. induction pre as [|c pre IH]; [exact H|].
  rewrite append_cons. cbn [PyRe.has_bare_segment]. rewrite IH.
  apply orb_true_r.
Qed.

Lemma startswith_bracket (s : string) :
  PyStr.startswith "]" s = true -> exists post, s = String "]" post.
Proof.
  destruct s as [|c s]; [discriminate|]. cbn [PyStr.startswith].
  rewrite andb_true_r. intros H. apply Ascii.eqb_eq in H. subst c.
  exists s. reflexivity.
Qed.

Lemma has_bare_segment_iff (s : string) :
  PyRe.has_bare_segment s = true <->
  exists pre l w post,
    s = pre +:+ String "[" (String l (w +:+ String "]" post))
    /\ PyRe.isletter l = true /\ all_segchars w = true.
Proof.
  split.
  - induction s as [|c s IH]; [discriminate|].
    cbn [PyRe.has_bare_segment]. intros H.
    apply orb_true_iff in H as [H|H].
    + apply andb_true_iff in H as [Hc H]. apply Ascii.eqb_eq in Hc. subst c.
      destruct s as [|l rest]; [discriminate|].
      apply andb_true_iff in H as [Hl Hr].
      apply startswith_bracket in Hr as [post Hpost].
      destruct (after_segchars_split rest) as [w [Hrest Hw]].
      exists "", l, w, post. rewrite <- Hpost, <- Hrest. auto.
    + destruct (IH H) as (pre & l & w & post & -> & Hl & Hw).
      exists (String c pre), l, w, post. rewrite append_cons. auto.
  - intros (pre & l & w & post & -> & Hl & Hw).
    apply has_bare_segment_app. cbn [PyRe.has_bare_segment].
    rewrite Hl, (after_segchars_app w post Hw). reflexivity.
Qed.

(** X11. The finding [DYNAMIC_SEGMENT] is reported for a locator exactly
    when its selector code has, somewhere, an opening bracket, a letter,
    any number of letters, digits, underscores and hyphens, and a
    closing bracket; the finding carries the first 120 code points of
    the code. *)
Theorem dynamic_segment_exact repo chunk route (loc : Locator) (shown : string) :
  In (DYNAMIC_SEGMENT repo chunk route shown)
     (check_locator repo chunk route loc)
  <-> shown = PyStr.take 120 (loc_playwrightCode loc)
      /\ exists pre l w post,
           loc_playwrightCode loc
           = pre +:+ String "[" (String l (w +:+ String "]" post))
           /\ PyRe.isletter l = true /\ all_segchars w = true.
Proof.
  rewrite <- has_bare_segment_iff. unfold check_locator. cbv zeta.
  rewrite !in_app_iff. split.
  - intros [H|[H|[H|[H|H]]]].
    + destruct (_ || _); simpl in H; [destruct H as [H|[]]|destruct H].
      discriminate.
    + destruct (_ || _); simpl in H; [destruct H as [H|[]]|destruct H].
      discriminate.
    + destruct (PyRe.has_bare_segment _); simpl in H;
        [destruct H as [H|[]]|destruct H].
      injection H as <-. auto.
    + destruct (_ && _); simpl in H; [destruct H as [H|[]]|destruct H].
      discriminate.
    + destruct (lacks_page_prefix _); simpl in H;
        [destruct H as [H|[]]|destruct H].
      discriminate.
  - intros [-> H]. right. right. left. rewrite H. left. reflexivity.
Qed.

End LocatorCheck.

(* ===================================================================== *)
(** * Further properties of scripts/check_fk_coverage.py *)
(* ===================================================================== *)

Section FkCoverage.

Import CheckFkCoverage.

(** X12. When every chunk file that has an endpoint has a domain, the
    dictionary from endpoint identifiers to domains is built, and for
    an identifier that several chunk files list it keeps the domain of
    the last of these files. *)
Theorem ep_to_domain_last_wins (before after : list ChunkFile)
    (cf : ChunkFile) (i : string) :
  (forall cf', In cf' (before ++ cf :: after) ->
               cd_endpoints (cf_chunk cf') <> [] ->
               chunk_domain cf' <> None) ->
  In i (chunk_ids cf) ->
  (forall cf', In cf' after -> ~ In i (chunk_ids cf')) ->
  exists m d,
    ep_to_domain (before ++ cf :: after) = Some m
    /\ chunk_domain cf = Some d
    /\ m !! i = Some d.
Proof.
  intros Hdom Hin Hafter.
  destruct (ep_to_domain_built _ ∅ Hdom) as [m Hm].
  fold (ep_to_domain (before ++ cf :: after)) in Hm.
  pose proof Hm as Hsplit. unfold ep_to_domain in Hsplit.
  rewrite fold_opt_app in Hsplit.
  destruct (fold_opt fill_chunk before ∅) as [m0|]; [|discriminate Hsplit].
  simpl in Hsplit.
  destruct (fill_chunk m0 cf) as [m1|] eqn:E; [|discriminate Hsplit].
  destruct (fill_chunk_in i cf m0 m1 E Hin) as [d [Hd Hl]].
  exists m, d. split; [exact Hm|]. split; [exact Hd|].
  rewrite (chunks_lookup_out i after m1 m Hsplit Hafter). exact Hl.
Qed.

Lemma ep_to_domain_last_wins_witness :
  exists m d,
    ep_to_domain [Examples.archive_chunk; Examples.orders_chunk;
                  Examples.customers_chunk] = Some m
    /\ chunk_domain Examples.orders_chunk = Some d
    /\ m !! "ep_order_list" = Some d.
Proof.
  apply (ep_to_domain_last_wins [Examples.archive_chunk]
           [Examples.customers_chunk] Examples.orders_chunk "ep_order_list").
  - intros cf' [<-|[<-|[<-|[]]]] _; discriminate.
  - right. left. reflexivity.
  - intros cf' [<-|[]] [H|[]]. discriminate.
Defined.

Lemma contains_empty (s : string) : PyStr.contains "" s = true.
Proof. destruct s; reflexivity. Qed.

Lemma can_resolve_empty (paths : list string) :
  can_resolve "" paths = match paths with [] => false | _ => true end.
Proof.
  destruct paths as [|p paths]; [reflexivity|].
  unfold can_resolve. simpl existsb. rewrite contains_empty. reflexivity.
Qed.

(** X13. A key field whose name leaves nothing once [Id] and [ID] are
    taken out of it, such as the field [Id], counts as resolved as soon
    as the chunk of its endpoint has any GET endpoint, and is a gap only
    when the chunk has none. *)
Theorem empty_resource_resolved (paths : list string) (ep : Endpoint)
    (f : Field) :
  is_fk_name (field_name f) = true ->
  resource (field_name f) = "" ->
  (paths <> [] -> field_gap paths ep f = [])
  /\ (paths = [] ->
      field_gap paths ep f
      = [(bucket_of f,
          mkGap (ep_method ep) (ep_path ep) (field_name f) ["none"])]).
Proof.
  intros Hfk Hres. unfold field_gap. cbv zeta.
  rewrite Hfk, Hres, can_resolve_empty. cbn [negb]. split.
  - intros Hne. destruct paths; [contradiction | reflexivity].
  - intros ->. reflexivity.
Qed.

Lemma empty_resource_witness :
  field_gap ["/orders"] Examples.post_orders Examples.bare_id = []
  /\ field_gap [] Examples.post_orders Examples.bare_id
     = [(REQUIRED_GAP, mkGap "POST" "/orders" "Id" ["none"])].
Proof.
  split.
  - destruct (empty_resource_resolved ["/orders"] Examples.post_orders
                Examples.bare_id eq_refl eq_refl) as [H _].
    apply H. discriminate.
  - destruct (empty_resource_resolved [] Examples.post_orders
                Examples.bare_id eq_refl eq_refl) as [_ H].
    exact (H eq_refl).
Defined.

Lemma get_paths_unlisted (eps : list Endpoint) (chunks : list ChunkFile)
    (e2d : gmap string string) (ep : Endpoint) :
  ep_to_domain chunks = Some e2d ->
  (forall cf, In cf chunks -> ~ In (ep_id ep) (chunk_ids cf)) ->
  (forall cf, In cf chunks -> chunk_domain cf <> Some "?") ->
  get_paths eps e2d ep = [].
Proof.
  intros He2d Hout Hdom. unfold get_paths. cbv zeta.
  assert (Hnone : e2d !! ep_id ep = None).
  { rewrite (chunks_lookup_out _ chunks ∅ e2d He2d Hout).
    apply lookup_empty. }
  rewrite Hnone. cbn [default].
  induction eps as [|e eps IH]; [reflexivity|]. simpl.
  destruct (bool_decide (e2d !! ep_id e = Some "?")) eqn:E.
  - apply bool_decide_eq_true in E.
    apply (chunks_lookup_some _ _ chunks ∅ e2d He2d) in E
      as [E|[cf [Hcf E]]].
    + rewrite lookup_empty in E. discriminate.
    + exfalso. exact (Hdom cf Hcf E).
  - simpl. exact IH.
Qed.



Lemma endswith_lower (suf s : string) :
  PyStr.endswith suf s = true ->
  PyStr.endswith (PyStr.lower suf) (PyStr.lower s) = true.
Proof.
  intros H. apply endswith_inv in H as [pre ->].
  rewrite lower_append. apply endswith_append.
Qed.

(** X15. The two scripts do not test a key name alike: every name that
    the coverage pass takes for a key (it ends in [Id] or in [ID]) is
    one for the confidence score as well, whose test ignores the case of
    the letters; the name [paid] is a key for the score only. *)
Theorem key_name_tests (fname : string) :
  is_fk_name fname = true ->
  PyRe.ends_in_id fname = true
  /\ PyRe.ends_in_id "paid" = true /\ is_fk_name "paid" = false.
Proof.
  intros H. split; [|split; reflexivity].
  unfold PyRe.ends_in_id. apply orb_true_iff. left.
  unfold is_fk_name in H. apply orb_true_iff in H as [H|H];
    apply endswith_lower in H; exact H.
Qed.

Lemma key_name_tests_witness :
  PyRe.ends_in_id "customerId" = true
  /\ PyRe.ends_in_id "paid" = true /\ is_fk_name "paid" = false.
Proof. exact (key_name_tests "customerId" eq_refl). Defined.

End FkCoverage.

(* ===================================================================== *)
(** * Further properties of scripts/confidence_score.py *)
(* ===================================================================== *)

Section ScoreCounters.

Import ConfidenceScore.
Local Open Scope Z_scope.

Lemma adds_trans t t1 t2 eps1 eps2 pages1 pages2 :
  adds t t1 eps1 pages1 -> adds t1 t2 eps2 pages2 ->
  adds t t2 (eps1 ++ eps2) (pages1 ++ pages2).
Proof.
  unfold adds.
  intros (A1 & A2 & A3 & A4 & A5 & A6 & A7 & A8 & A9)
         (B1 & B2 & B3 & B4 & B5 & B6 & B7 & B8 & B9).
  rewrite !flat_map_app, !List.filter_app, !length_app. lia.
Qed.

Lemma adds_refl t : adds t t [] [].
Proof. unfold adds. simpl. lia. Qed.

Lemma hint_of_required_key msg f h :
  hint_of msg f = Some h -> is_required_key f = true.
Proof.
  unfold hint_of, is_required_key.
  destruct (PyRe.ends_in_id (field_name f) && field_required f);
    [reflexivity | discriminate].
Qed.

Lemma count_fields_adds msg fs t :
  let t' := fold_left (count_field msg) fs t in
  total_ep t' = total_ep t /\ ep_page_routes t' = ep_page_routes t
  /\ ep_api_routes t' = ep_api_routes t /\ total_pages t' = total_pages t
  /\ locator_pages t' = locator_pages t
  /\ total_locators t' = total_locators t
  /\ ep_with_zero_get_fk t <= ep_with_zero_get_fk t'
  /\ ep_with_crosschunk_fk t <= ep_with_crosschunk_fk t'
  /\ (ep_with_zero_get_fk t' - ep_with_zero_get_fk t)
     + (ep_with_crosschunk_fk t' - ep_with_crosschunk_fk t)
     <= Z.of_nat (length (List.filter is_required_key fs)).
Proof.
  revert t. induction fs as [|f fs IH]; intros t; cbv zeta.
  - simpl. lia.
  - simpl fold_left.
    destruct (IH (count_field msg t f))
      as (H1 & H2 & H3 & H4 & H5 & H6 & H7 & H8 & H9).
    cbv zeta in H1, H2, H3, H4, H5, H6, H7, H8, H9.
    rewrite H1, H2, H3, H4, H5, H6. simpl List.filter.
    unfold count_field in *.
    destruct (hint_of msg f) as [h|] eqn:E.
    + rewrite (hint_of_required_key msg f h E).
      destruct h; simpl in *; repeat split; lia.
    + destruct (is_required_key f); simpl in *; repeat split; lia.
Qed.

Lemma count_endpoint_adds msg t ep : adds t (count_endpoint msg t ep) [ep] [].
Proof.
  unfold count_endpoint. cbv zeta.
  match goal with
  | |- adds _ (fold_left _ _ ?t1) _ _ =>
      destruct (count_fields_adds msg (fields_of ep) t1)
        as (H1 & H2 & H3 & H4 & H5 & H6 & H7 & H8 & H9)
  end.
  cbv zeta in H1, H2, H3, H4, H5, H6, H7, H8, H9.
  unfold adds. rewrite H1, H2, H3, H4, H5, H6.
  simpl flat_map. rewrite app_nil_r. simpl List.filter.
  destruct (ep_isPageRoute ep); simpl in *; repeat split; lia.
Qed.

Lemma count_page_adds t pg : adds t (count_page t pg) [] [pg].
Proof.
  unfold adds, count_page, has_locators. simpl flat_map. simpl List.filter.
  rewrite app_nil_r.
  destruct (pg_locators pg); simpl; repeat split; lia.
Qed.

Lemma count_endpoints_adds msg eps t :
  adds t (fold_left (count_endpoint msg) eps t) eps [].
Proof.
  revert t. induction eps as [|ep eps IH]; intros t; [apply adds_refl|].
  simpl fold_left.
  apply (adds_trans t _ _ [ep] eps [] [] (count_endpoint_adds msg t ep)).
  apply IH.
Qed.

Lemma count_pages_adds pages t :
  adds t (fold_left count_page pages t) [] pages.
Proof.
  revert t. induction pages as [|pg pages IH]; intros t; [apply adds_refl|].
  simpl fold_left.
  apply (adds_trans t _ _ [] [] [pg] pages (count_page_adds t pg)).
  apply IH.
Qed.

Lemma count_chunk_adds t cf :
  adds t (count_chunk t cf) (cd_endpoints (cf_chunk cf))
       (cd_pages (cf_chunk cf)).
Proof.
  unfold count_chunk. cbv zeta.
  pose proof (adds_trans t _ _ _ _ _ _
                (count_endpoints_adds (cf_llmUserMessage cf)
                   (cd_endpoints (cf_chunk cf)) t)
                (count_pages_adds (cd_pages (cf_chunk cf)) _)) as H.
  rewrite app_nil_r in H. exact H.
Qed.

Lemma count_chunks_adds chunks t :
  adds t (fold_left count_chunk chunks t) (all_endpoints chunks)
       (all_pages chunks).
Proof.
  revert t. induction chunks as [|cf chunks IH]; intros t; [apply adds_refl|].
  simpl fold_left. unfold all_endpoints, all_pages. simpl flat_map.
  apply (adds_trans t _ _ _ _ _ _ (count_chunk_adds t cf)). apply IH.
Qed.

(** X16. The counters of the report agree with the chunk files: the
    total of the endpoints is their number and the sum of the API
    routes and the page routes, the pages and the pages with locators
    are counted once each, the locator count is the number of all the
    locators, and the two counts of required keys together never exceed
    the number of the required fields whose name ends in [id]. *)
Theorem tally_of_chunks (chunks : list ChunkFile) :
  let t := count_chunks chunks in
  total_ep t = Z.of_nat (length (all_endpoints chunks))
  /\ total_ep t = ep_api_routes t + ep_page_routes t
  /\ ep_page_routes t
     = Z.of_nat (length (List.filter ep_isPageRoute (all_endpoints chunks)))
  /\ total_pages t = Z.of_nat (length (all_pages chunks))
  /\ locator_pages t
     = Z.of_nat (length (List.filter has_locators (all_pages chunks)))
  /\ total_locators t
     = Z.of_nat (length (flat_map pg_locators (all_pages chunks)))
  /\ 0 <= ep_with_zero_get_fk t /\ 0 <= ep_with_crosschunk_fk t
  /\ ep_with_zero_get_fk t + ep_with_crosschunk_fk t
     <= Z.of_nat (length (List.filter is_required_key
                            (flat_map fields_of (all_endpoints chunks)))).
Proof.
  destruct (count_chunks_adds chunks zero)
    as (H1 & H2 & H3 & H4 & H5 & H6 & H7 & H8 & H9).
  fold (count_chunks chunks) in H1, H2, H3, H4, H5, H6, H7, H8, H9.
  simpl in H1, H2, H3, H4, H5, H6, H7, H8, H9.
  pose proof (filter_split_length ep_isPageRoute (all_endpoints chunks)).
  cbv zeta. repeat split; lia.
Qed.

Lemma score_of_penalties auth t :
  reachable t -> score_of auth t = Z.max 0 (100 - penalties auth t).
Proof.
  intros (H1 & H2 & H3 & H4 & H5).
  pose proof (auth_penalty_range auth).
  unfold score_of, penalties. cbv zeta.
  repeat match goal with
         | |- context [(?a >? ?b)] => destruct (Z.gtb_spec a b)
         end; lia.
Qed.

(** X17. The penalty for page routes is three points for each page
    route and is capped at fifteen: with counters that the loops can
    reach, and [others] the sum of the penalties for the auth object,
    the foreign keys and the pages without locators, the score is
    [100 - others] less three times the page routes when there are at
    most five of them, and less fifteen when there are five or more,
    never below zero. *)
Theorem page_route_penalty_capped auth (t : tally) :
  reachable t ->
  let others := auth_penalty auth + ep_with_zero_get_fk t * 5
                + ep_with_crosschunk_fk t * 2
                + (total_pages t - locator_pages t) * 2 in
  (ep_page_routes t <= 5 ->
   score_of auth t = Z.max 0 (100 - others - 3 * ep_page_routes t))
  /\ (5 <= ep_page_routes t ->
      score_of auth t = Z.max 0 (100 - others - 15)).
Proof.
  intros Hr. cbv zeta. rewrite (score_of_penalties auth t Hr).
  unfold penalties. split; intros H; f_equal; lia.
Qed.

Lemma page_route_cap_witness :
  score_of None Examples.five_page_routes = 65
  /\ score_of None Examples.nine_page_routes = 65
  /\ score_of None (mkTally 4 0 0 0 0 0 4 0) = 68.
Proof.
  assert (Hr : forall n, 0 <= n -> reachable (mkTally n 0 0 0 0 0 n 0)).
  { intros n Hn. unfold reachable. simpl. lia. }
  split; [|split].
  - destruct (page_route_penalty_capped None Examples.five_page_routes
                (Hr 5 ltac:(lia))) as [_ H].
    rewrite H; [reflexivity | simpl; lia].
  - destruct (page_route_penalty_capped None Examples.nine_page_routes
                (Hr 9 ltac:(lia))) as [_ H].
    rewrite H; [reflexivity | simpl; lia].
  - destruct (page_route_penalty_capped None (mkTally 4 0 0 0 0 0 4 0)
                (Hr 4 ltac:(lia))) as [H _].
    rewrite H; [reflexivity | simpl; lia].
Defined.

(** X18. The score of a run is 100 less the sum of the penalties, or 0
    when the penalties exceed 100: with the counters that the loops
    produce no statement adds to the score, so the upper bound of the
    final clamp never acts. *)
Theorem score_closed_form (bp : Blueprint) (chunks : list ChunkFile) :
  score bp chunks
  = Z.max 0 (100 - penalties (bp_auth bp) (count_chunks chunks))
  /\ 0 <= penalties (bp_auth bp) (count_chunks chunks).
Proof.
  pose proof (count_chunks_reachable chunks) as Hr. split.
  - apply score_of_penalties, Hr.
  - destruct Hr as (H1 & H2 & H3 & H4 & H5).
    pose proof (auth_penalty_range (bp_auth bp)). unfold penalties. lia.
Qed.

(** X19. A blueprint without an [auth] object never gets the verdict
    HIGH: its score is at most 80, whatever the chunk files hold. *)
Theorem no_auth_never_high (bp : Blueprint) (chunks : list ChunkFile) :
  auth_present (bp_auth bp) = false ->
  score bp chunks <= 80 /\ verdict (score bp chunks) <> HIGH.
Proof.
  intros Hauth.
  assert (Hs : score bp chunks <= 80).
  { unfold score. rewrite score_of_penalties by apply count_chunks_reachable.
    destruct (count_chunks_reachable chunks) as (H1 & H2 & H3 & H4 & H5).
    unfold penalties, auth_penalty. rewrite Hauth. cbn [negb]. lia. }
  split; [exact Hs|]. unfold verdict.
  destruct (Z.geb_spec (score bp chunks) 85); [lia|].
  destruct (_ >=? 70); [discriminate|].
  destruct (_ >=? 55); discriminate.
Qed.

Lemma no_auth_never_high_witness :
  score Examples.no_auth_blueprint [Examples.plain_chunk] <= 80
  /\ verdict (score Examples.no_auth_blueprint [Examples.plain_chunk])
     <> HIGH.
Proof.
  exact (no_auth_never_high Examples.no_auth_blueprint
           [Examples.plain_chunk] eq_refl).
Defined.

End ScoreCounters.

(* ===================================================================== *)
(** * Further properties of scripts/deep_validate.py *)
(* ===================================================================== *)

Section DeepReport.

Import DeepValidate.
Local Open Scope Z_scope.

Lemma difference_empty (a b : gset string) : a ∖ b = ∅ <-> a ⊆ b.
Proof.
  split.
  - intros H x Hx. destruct (decide (x ∈ b)) as [Hb|Hb]; [exact Hb|].
    assert (Hd : x ∈ a ∖ b) by (apply elem_of_difference; auto).
    rewrite H in Hd. apply not_elem_of_empty in Hd. destruct Hd.
  - intros H. apply set_eq. intros x. rewrite elem_of_difference. split.
    + intros [Ha Hb]. destruct Hb. apply H, Ha.
    + intros Hx. apply not_elem_of_empty in Hx. destruct Hx.
Qed.

Lemma size_zero (a : gset string) : size a = 0%nat <-> a = ∅.
Proof.
  split; [intros H; apply leibniz_equiv, size_empty_inv, H|].
  intros ->. apply size_empty.
Qed.

Lemma cross_check_range (in_bp in_chunks : gset string) :
  0 <= cross_check in_bp in_chunks <= 100
  /\ (cross_check in_bp in_chunks = 100
      <-> in_bp <> ∅ /\ in_bp ⊆ in_chunks)
  /\ (in_bp = ∅ -> cross_check in_bp in_chunks = 0).
Proof.
  unfold cross_check, pct_value.
  assert (Hle : (size (in_bp ∖ in_chunks) <= size in_bp)%nat).
  { apply subseteq_size. intros x Hx. apply elem_of_difference in Hx.
    tauto. }
  assert (Hsub : size (in_bp ∖ in_chunks) = 0%nat <-> in_bp ⊆ in_chunks).
  { rewrite size_zero. apply difference_empty. }
  pose proof (size_zero in_bp) as Hemp.
  destruct (Z.eqb_spec (Z.of_nat (size in_bp)) 0) as [E|E].
  - split; [lia|]. split; [|reflexivity].
    split; [discriminate|]. intros [Hne _]. exfalso. apply Hne, Hemp. lia.
  - set (a := Z.of_nat (size in_bp)) in *.
    set (m := Z.of_nat (size (in_bp ∖ in_chunks))) in *.
    assert (Ha : 0 < a) by lia. assert (Hm : 0 <= m <= a) by lia.
    assert (Hq : 0 <= 100 * (a - m) / a <= 100).
    { split; [apply Z.div_pos; lia|].
      apply Z.div_le_upper_bound; lia. }
    split; [exact Hq|]. split.
    + split.
      * intros H100. split; [intros Hz; apply Hemp in Hz; lia|].
        apply Hsub.
        pose proof (Z.mul_div_le (100 * (a - m)) a Ha) as Hd.
        rewrite H100 in Hd. lia.
      * intros [_ Hs]. apply Hsub in Hs.
        replace m with 0 by lia. rewrite Z.sub_0_r.
        apply Z.div_mul. lia.
    + intros Hz. apply Hemp in Hz. lia.
Qed.

(** X20. The percentage of a cross-check line lies between 0 and 100;
    it is 100 exactly when the blueprint has an identifier and every
    identifier of the blueprint is in a chunk, and it is 0 for a
    blueprint without identifiers, where nothing is missing. *)
Theorem cross_check_percentage (bp : Blueprint) (chunks : list ChunkFile) :
  0 <= ep_cross_check bp chunks <= 100
  /\ 0 <= pg_cross_check bp chunks <= 100
  /\ (ep_cross_check bp chunks = 100
      <-> ep_ids_in_bp bp <> ∅ /\ missing_ep bp chunks = ∅)
  /\ (pg_cross_check bp chunks = 100
      <-> page_ids_in_bp bp <> ∅ /\ missing_pg bp chunks = ∅)
  /\ ep_cross_check (mkBlueprint (bp_auth bp) [] (bp_pages bp)) chunks = 0
  /\ pg_cross_check (mkBlueprint (bp_auth bp) (bp_endpoints bp) []) chunks
     = 0.
Proof.
  unfold ep_cross_check, pg_cross_check, missing_ep, missing_pg.
  destruct (cross_check_range (ep_ids_in_bp bp) (ep_ids_in_chunks chunks))
    as (E1 & E2 & _).
  destruct (cross_check_range (page_ids_in_bp bp) (page_ids_in_chunks chunks))
    as (P1 & P2 & _).
  pose proof difference_empty as Hd.
  split; [exact E1|]. split; [exact P1|].
  split; [rewrite E2, Hd; reflexivity|].
  split; [rewrite P2, Hd; reflexivity|].
  split; apply cross_check_range; reflexivity.
Qed.

Lemma total_issues_nonneg bp chunks : 0 <= total_issues bp chunks.
Proof. unfold total_issues. lia. Qed.

(** X21. The quality is a multiple of 5 between 0 and 100, so the bar
    shows it exactly: its full cells are a fifth of the quality and its
    cells are 20 in all.  The quality is 100 only without any issue,
    and 0 from twenty issues on. *)
Theorem quality_bar (bp : Blueprint) (chunks : list ChunkFile) :
  let c := confidence bp chunks in
  0 <= c <= 100
  /\ c = 5 * fst (bar c)
  /\ 0 <= fst (bar c) /\ 0 <= snd (bar c)
  /\ fst (bar c) + snd (bar c) = 20
  /\ (c = 100 <-> total_issues bp chunks = 0)
  /\ (c = 0 <-> 20 <= total_issues bp chunks).
Proof.
  pose proof (total_issues_nonneg bp chunks) as Hn.
  unfold confidence, bar. cbv zeta. cbn [fst snd].
  set (n := total_issues bp chunks) in *.
  destruct (Z.max_spec 0 (100 - n * 5)) as [[Hlt ->]|[Hge ->]].
  - replace (100 - n * 5) with ((20 - n) * 5) by lia.
    rewrite Z.div_mul by lia. repeat split; lia.
  - change (0 / 5) with 0. repeat split; lia.
Qed.

Lemma mem_write_valid (m : string) :
  PyStr.mem m ["POST"; "PUT"; "PATCH"] = true ->
  PyStr.mem m ValidateChunks.VALID_METHODS = true.
Proof.
  unfold PyStr.mem, ValidateChunks.VALID_METHODS. cbn [existsb].
  destruct (String.eqb m "GET"), (String.eqb m "POST"),
    (String.eqb m "PUT"), (String.eqb m "PATCH");
    cbn [orb]; intros H; try reflexivity; discriminate H.
Qed.



(** X23. The two reports read a locator without a confidence
    differently: the chunk validation takes it for 0 and reports a low
    confidence, the deep validation takes it for 1 and does not list the
    locator as one of low confidence.  A confidence that is given and
    that the chunk validation reports as low is low for the deep
    validation as well, whose threshold is the higher one. *)
Theorem confidence_defaults (loc : Locator) :
  (loc_confidence loc = None ->
     In (ValidateChunks.LOCATOR_LOW_CONFIDENCE (default "?" (loc_name loc)) 0)
        (ValidateChunks.locator_issues loc)
     /\ is_low_conf loc = false)
  /\ (forall c, loc_confidence loc = Some c ->
        In (ValidateChunks.LOCATOR_LOW_CONFIDENCE
              (default "?" (loc_name loc)) c)
           (ValidateChunks.locator_issues loc) ->
        is_low_conf loc = true).
Proof.
  split.
  - intros Hnone. split.
    + apply locator_low_confidence. rewrite Hnone. repeat split.
    + unfold is_low_conf. rewrite Hnone. reflexivity.
  - intros c Hc H. apply locator_low_confidence in H as (_ & _ & Hlow).
    rewrite Hc in Hlow. unfold is_low_conf. rewrite Hc. cbn [default] in *.
    unfold ValidateChunks.confidence_or_0 in Hlow. cbn [default] in Hlow.
    apply Qltb_lt in Hlow. apply Qltb_lt.
    eapply Qlt_trans; [exact Hlow|]. reflexivity.
Qed.

Lemma confidence_defaults_witness :
  (In (ValidateChunks.LOCATOR_LOW_CONFIDENCE "title" 0)
      (ValidateChunks.locator_issues Examples.unrated_locator)
   /\ is_low_conf Examples.unrated_locator = false)
  /\ is_low_conf Examples.unsure_locator = true.
Proof.
  split.
  - exact (proj1 (confidence_defaults Examples.unrated_locator) eq_refl).
  - apply (proj2 (confidence_defaults Examples.unsure_locator) (3 # 10)%Q
             eq_refl).
    left. reflexivity.
Defined.

End DeepReport.

(* ===================================================================== *)
(** * Further properties of scripts/audit_blueprints.py *)
(* ===================================================================== *)

Section BlueprintAudit.

Import AuditBlueprints.

Lemma endpoint_error_in_errors b ep e :
  In ep (bp_endpoints b) -> In e (endpoint_errors ep) -> In e (errors b).
Proof.
  intros Hep He. unfold errors. apply in_or_app. left.
  apply in_flat_map. exists ep. auto.
Qed.

Lemma error_fails_run b e bps :
  In e (errors b) -> In b bps -> exit_status bps = 1%Z.
Proof.
  intros He Hb. unfold exit_status. rewrite audit_total_errors.
  assert (Hin : In e (flat_map errors bps))
    by (apply in_flat_map; exists b; auto).
  destruct (flat_map errors bps) as [|x xs]; [destruct Hin|].
  reflexivity.
Qed.

(** X24. A body field whose name ends in [Id] or [ID] and that has no
    example is an error of the audit, and any run over the blueprint
    ends with status 1.  When the field is required the same field is
    counted a second time, as a required field without example; when it
    is optional it is also listed among the warnings. *)
Theorem key_field_without_example (b : Blueprint) (ep : Endpoint)
    (f : Field) :
  In ep (bp_endpoints b) -> In f (fields_of ep) ->
  is_fk_name (field_name f) = true -> missing (field_example f) = true ->
  In (FK_NO_EXAMPLE (ep_method ep) (ep_path ep) (field_name f)) (errors b)
  /\ (if field_required f
      then In (NO_FIELD_EXAMPLE (ep_method ep) (ep_path ep) (field_name f))
              (errors b)
      else In (WARN_NO_EXAMPLE (ep_method ep) (ep_path ep) (field_name f))
              (warnings b))
  /\ forall bps, In b bps -> exit_status bps = 1%Z.
Proof.
  intros Hep Hf Hfk Hmiss.
  assert (Hfkerr : In (FK_NO_EXAMPLE (ep_method ep) (ep_path ep)
                         (field_name f)) (errors b)).
  { apply (endpoint_error_in_errors b ep _ Hep). unfold endpoint_errors.
    cbv zeta. repeat (apply in_or_app; right).
    apply in_flat_map. exists f. split; [exact Hf|].
    rewrite Hfk, Hmiss. left. reflexivity. }
  split; [exact Hfkerr|]. split.
  - destruct (field_required f) eqn:Hreq.
    + apply (endpoint_error_in_errors b ep _ Hep). unfold endpoint_errors.
      cbv zeta. apply in_or_app. right. apply in_or_app. left.
      apply in_flat_map. exists f. split; [exact Hf|].
      rewrite Hmiss, Hreq. left. reflexivity.
    + unfold warnings. apply in_or_app. left. apply in_flat_map.
      exists ep. split; [exact Hep|]. unfold endpoint_warnings. cbv zeta.
      apply in_or_app. left. apply in_flat_map. exists f.
      split; [exact Hf|]. rewrite Hmiss, Hreq. left. reflexivity.
  - intros bps Hb. exact (error_fails_run b _ bps Hfkerr Hb).
Qed.

Lemma key_field_without_example_witness :
  In (FK_NO_EXAMPLE "POST" "/orders" "customerId")
     (errors Examples.shop_with_customers)
  /\ In (NO_FIELD_EXAMPLE "POST" "/orders" "customerId")
        (errors Examples.shop_with_customers)
  /\ exit_status [Examples.shop_with_customers] = 1%Z.
Proof.
  destruct (key_field_without_example Examples.shop_with_customers
              Examples.post_orders Examples.customerId
              (or_introl eq_refl) (or_introl eq_refl) eq_refl eq_refl)
    as (H1 & H2 & H3).
  split; [exact H1|]. split; [exact H2|].
  apply H3. left. reflexivity.
Defined.

Lemma or_else_missing (o : option string) (d : string) :
  or_else o d = "MISSING"
  <-> usable o = false /\ (blank o = false \/ d = "MISSING").
Proof.
  unfold or_else, usable, blank. destruct o as [[|c s]|];
    cbn [PyStr.nonempty negb andb].
  - split; [intros ->; auto|]. intros [_ [H|H]]; [discriminate H | exact H].
  - destruct (String.eqb_spec (String c s) "MISSING") as [E|E]; cbn [negb].
    + split; [intros _; auto | intros _; exact E].
    + split; [intros H; contradiction | intros [H _]; discriminate H].
  - split; [intros ->; auto|]. intros [_ [H|H]]; [discriminate H | exact H].
Qed.

(** X25. The audit takes the [auth] object of a blueprint for complete
    exactly when its login endpoint is usable and its token type is:
    the key [tokenType] when that is there and not empty, the key
    [type] otherwise.  A value is usable when it is not empty and is not
    the word MISSING, which the script itself puts for a missing
    value. *)
Theorem auth_complete_exact (a : AuthConfig) :
  auth_errors (Some a) = [] <->
  (usable (auth_tokenType a) = true
   \/ (blank (auth_tokenType a) = true /\ usable (auth_type a) = true))
  /\ usable (auth_loginEndpoint a) = true.
Proof.
  unfold auth_errors, token_type, login_ep, auth_get.
  assert (Hmem : forall x y,
            PyStr.mem "MISSING" [x; y] = false
            <-> x <> "MISSING" /\ y <> "MISSING").
  { intros x y. unfold PyStr.mem. cbn [existsb]. rewrite orb_false_r.
    rewrite orb_false_iff, !String.eqb_neq. split; intros [H1 H2]; split;
      congruence. }
  assert (Hlist : forall (c : bool) (e : error),
            (if c then [e] else []) = [] <-> c = false).
  { intros [|] e; split; congruence. }
  rewrite Hlist, Hmem, !or_else_missing.
  destruct (usable (auth_tokenType a)), (blank (auth_tokenType a)),
    (usable (auth_type a)), (usable (auth_loginEndpoint a)),
    (blank (auth_loginEndpoint a)), (blank (auth_type a));
    intuition (discriminate || congruence).
Qed.

Lemma auth_complete_witness :
  auth_errors (Some Examples.typed_auth) = [].
Proof.
  apply (proj2 (auth_complete_exact Examples.typed_auth)).
  split; [right; split|]; reflexivity.
Defined.

End BlueprintAudit.

(* ===================================================================== *)
(** * Further properties of scripts/validate_blueprints.py *)
(* ===================================================================== *)

Section BlueprintValidation.

Import ValidateBlueprints.

Lemma key_eqb_eq (a b : key) : key_eqb a b = true <-> a = b.
Proof.
  destruct a as [a1 a2], b as [b1 b2]. unfold key_eqb. cbn [fst snd].
  rewrite andb_true_iff, !String.eqb_eq. split.
  - intros [-> ->]. reflexivity.
  - intros H. injection H as -> ->. auto.
Qed.

Lemma key_eqb_refl (a : key) : key_eqb a a = true.
Proof. apply key_eqb_eq. reflexivity. Qed.

Lemma dict_get_set {V} (k k' : key) (v : V) (d : list (key * V)) :
  dict_get k (dict_set k' v d)
  = if key_eqb k k' then Some v else dict_get k d.
Proof.
  unfold dict_get. induction d as [|[k0 v0] d IH]; cbn [dict_set].
  - cbn [List.find fst]. destruct (key_eqb k k'); reflexivity.
  - destruct (key_eqb k' k0) eqn:E0.
    + apply key_eqb_eq in E0. subst k0. cbn [List.find fst].
      destruct (key_eqb k k'); reflexivity.
    + cbn [List.find fst]. destruct (key_eqb k k0) eqn:E1.
      * destruct (key_eqb k k') eqn:E2; [|reflexivity].
        apply key_eqb_eq in E1, E2. subst k0 k'.
        rewrite key_eqb_refl in E0. discriminate.
      * exact IH.
Qed.

Lemma dict_set_keys {V} (k k' : key) (v : V) (d : list (key * V)) :
  In k (map fst (dict_set k' v d)) <-> k = k' \/ In k (map fst d).
Proof.
  induction d as [|[k0 v0] d IH]; cbn [dict_set].
  - simpl. split; intros [H|H]; auto.
  - destruct (key_eqb k' k0) eqn:E0.
    + apply key_eqb_eq in E0. subst k0. simpl.
      split; [intros [H|H]; auto | intros [H|[H|H]]; auto].
    + cbn [map fst In]. rewrite IH. tauto.
Qed.

Lemma dict_set_nodup {V} (k : key) (v : V) (d : list (key * V)) :
  List.NoDup (map fst d) -> List.NoDup (map fst (dict_set k v d)).
Proof.
  induction d as [|[k0 v0] d IH]; cbn [dict_set]; intros Hd.
  - simpl. constructor; [intros []|constructor].
  - destruct (key_eqb k k0) eqn:E0.
    + apply key_eqb_eq in E0. subst k0. exact Hd.
    + cbn [map fst] in *. apply List.NoDup_cons_iff in Hd as [Hk0 Hd].
      apply List.NoDup_cons_iff. split; [|apply IH, Hd].
      rewrite dict_set_keys. intros [->|H]; [|contradiction].
      rewrite key_eqb_refl in E0. discriminate.
Qed.

Lemma index_from_nodup (eps : list Endpoint) (d : list (key * Endpoint)) :
  List.NoDup (map fst d) ->
  List.NoDup
    (map fst (fold_left (fun d ep => dict_set (ep_method ep, ep_path ep) ep d)
                        eps d)).
Proof.
  revert d. induction eps as [|e eps IH]; intros d Hd; [exact Hd|].
  simpl. apply IH, dict_set_nodup, Hd.
Qed.

Lemma dict_get_in {V} (k : key) (v : V) (d : list (key * V)) :
  List.NoDup (map fst d) -> (In (k, v) d <-> dict_get k d = Some v).
Proof.
  unfold dict_get. induction d as [|[k0 v0] d IH]; intros Hd.
  - simpl. split; [intros [] | discriminate].
  - cbn [map fst] in Hd. apply List.NoDup_cons_iff in Hd as [Hk0 Hd].
    cbn [List.find fst]. destruct (key_eqb k k0) eqn:E.
    + apply key_eqb_eq in E. subst k0. cbn [option_map snd]. split.
      * intros [H|H]; [injection H as ->; reflexivity|].
        exfalso. apply Hk0. apply in_map_iff. exists (k, v). auto.
      * intros H. injection H as ->. left. reflexivity.
    + rewrite <- (IH Hd). split; [|right; assumption].
      intros [H|H]; [|exact H]. injection H as -> ->.
      rewrite key_eqb_refl in E. discriminate.
Qed.

Lemma index_get_after (k : key) (after : list Endpoint)
    (d : list (key * Endpoint)) :
  (forall e, In e after -> key_of e <> k) ->
  dict_get k (fold_left (fun d ep => dict_set (ep_method ep, ep_path ep) ep d)
                        after d)
  = dict_get k d.
Proof.
  revert d. induction after as [|e after IH]; intros d H; [reflexivity|].
  simpl. rewrite IH by (intros e' He'; apply H; right; exact He').
  rewrite dict_get_set.
  destruct (key_eqb k (ep_method e, ep_path e)) eqn:E; [|reflexivity].
  apply key_eqb_eq in E. exfalso. apply (H e); [left; reflexivity|].
  symmetry. exact E.
Qed.

(** X26. The index of the endpoints by method and path keeps one
    endpoint for each pair: of the endpoints of the blueprint that share
    a method and a path, the last one is in the index and the earlier
    ones are not looked at by the checks that go through the index. *)
Theorem index_last_wins (before after : list Endpoint) (ep : Endpoint) :
  (forall e, In e after -> key_of e <> key_of ep) ->
  dict_get (key_of ep) (index_endpoints (before ++ ep :: after)) = Some ep
  /\ forall e, In (key_of ep, e) (index_endpoints (before ++ ep :: after))
               <-> e = ep.
Proof.
  intros Hafter.
  assert (Hget : dict_get (key_of ep)
                   (index_endpoints (before ++ ep :: after)) = Some ep).
  { unfold index_endpoints. rewrite fold_left_app. simpl.
    rewrite index_get_after by exact Hafter.
    rewrite dict_get_set. fold (key_of ep). rewrite key_eqb_refl.
    reflexivity. }
  split; [exact Hget|]. intros e.
  rewrite dict_get_in, Hget.
  - split; [intros H; injection H as ->; reflexivity | intros ->; reflexivity].
  - unfold index_endpoints. apply index_from_nodup. constructor.
Qed.

Lemma index_last_wins_witness :
  dict_get ("GET", "/api/patients")
           (index_endpoints [Examples.get_patients_body;
                             Examples.get_patients_plain])
  = Some Examples.get_patients_plain
  /\ forall e,
       In (("GET", "/api/patients"), e)
          (index_endpoints [Examples.get_patients_body;
                            Examples.get_patients_plain])
       <-> e = Examples.get_patients_plain.
Proof.
  apply (index_last_wins [Examples.get_patients_body] []
           Examples.get_patients_plain).
  intros e [].
Defined.

Lemma bleed_loop_effect methods items acc st :
  let r := for_fold items acc (bleed_step methods) st in
  fst r = Some (acc || match flat_map (bleed_line methods) items with
                       | [] => false
                       | _ => true
                       end)
  /\ issues_total (snd r)
     = (issues_total st
        + Z.of_nat (length (flat_map (bleed_line methods) items)))%Z.
Proof.
  revert acc st. induction items as [|[[m p] ep] items IH]; intros acc st.
  - simpl. rewrite orb_false_r. split; [reflexivity | lia].
  - cbv zeta. cbn [for_fold flat_map]. unfold bind at 1 2.
    unfold bleed_line at 1 3. unfold bleed_step at 1 3. cbn [fst snd].
    destruct (PyStr.mem m methods && is_some (ep_requestBody ep)).
    + unfold bind at 1 2. cbn [issue ret].
      destruct (IH true
                  (mkState (issues_total st + 1)
                     (printed st ++ [FAIL "BODY_BLEED" [m; p]])))
        as [Hf Hi].
      cbv zeta in Hf, Hi. rewrite Hf, Hi. cbn [issues_total orb app].
      rewrite orb_true_r. split; [reflexivity|].
      cbn [length]. lia.
    + unfold ret at 1 2. destruct (IH acc st) as [Hf Hi].
      cbv zeta in Hf, Hi. rewrite Hf, Hi. cbn [app]. auto.
Qed.

(** X27. What the body-bleed check does to the run: the counter of the
    issues goes up by the number of the entries of the index whose
    method is one of the methods of the check and whose request body is
    not null, one failure line is printed for each of them, in the
    order of the keys, and the pass line is printed exactly when there
    is none. *)
Theorem body_bleed_effect (methods : list string)
    (bp_eps : list (key * Endpoint)) (st : state) :
  let st' := snd (body_bleed methods bp_eps st) in
  let found := flat_map (bleed_line methods) (sorted_items bp_eps) in
  issues_total st' = (issues_total st + Z.of_nat (length found))%Z
  /\ printed st'
     = printed st ++ found
       ++ match found with [] => [PASS ["No body bleed"]] | _ => [] end.
Proof.
  cbv zeta. unfold body_bleed, bind.
  pose proof (bleed_loop_printed methods (sorted_items bp_eps) false st) as Hp.
  destruct (bleed_loop_effect methods (sorted_items bp_eps) false st)
    as [Hf Hi].
  cbv zeta in Hf, Hi.
  destruct (for_fold (sorted_items bp_eps) false (bleed_step methods) st)
    as [found st'].
  cbn [fst snd] in Hp, Hf, Hi. subst found.
  destruct (flat_map (bleed_line methods) (sorted_items bp_eps)) as [|l ls].
  - cbn [orb negb ok snd issues_total printed].
    rewrite Hp, Hi, app_nil_r. split; reflexivity.
  - cbn [orb negb skip ret snd]. rewrite Hp, Hi, app_nil_r.
    split; reflexivity.
Qed.

Lemma bleed_line_method methods kv l :
  In l (bleed_line methods kv) ->
  l = FAIL "BODY_BLEED" [fst (fst kv); snd (fst kv)]
  /\ PyStr.mem (fst (fst kv)) methods = true.
Proof.
  unfold bleed_line. destruct (PyStr.mem (fst (fst kv)) methods);
    cbn [andb]; [|intros []].
  destruct (is_some _); [|intros []]. intros [<-|[]]. auto.
Qed.

(** X28. The three functions do not look at the same methods: a HEAD or
    OPTIONS endpoint with a request body gets a body-bleed failure line
    from the check of the Next.js function, and none from the check of
    the Express and Remix functions, which looks at GET and DELETE
    only. *)
Theorem head_bleed_only_nextjs (bp_eps : list (key * Endpoint))
    (st : state) (method path : string) (ep : Endpoint) :
  In method ["HEAD"; "OPTIONS"] ->
  In ((method, path), ep) bp_eps -> ep_requestBody ep <> None ->
  In (FAIL "BODY_BLEED" [method; path])
     (printed (snd (body_bleed bleed_methods bp_eps st)))
  /\ forall new,
       printed (snd (body_bleed ["GET"; "DELETE"] bp_eps st))
       = printed st ++ new ->
       ~ In (FAIL "BODY_BLEED" [method; path]) new.
Proof.
  intros Hm Hin Hbody. split.
  - destruct (body_bleed_printed bleed_methods bp_eps st) as [last [-> _]].
    apply in_or_app. right. apply in_or_app. left.
    apply in_flat_map. exists ((method, path), ep).
    split; [apply In_sort_by; exact Hin|].
    unfold bleed_line. cbn [fst snd].
    assert (Hmem : PyStr.mem method bleed_methods = true).
    { apply mem_In. unfold bleed_methods. simpl in Hm |- *. tauto. }
    rewrite Hmem. destruct (ep_requestBody ep); [|congruence].
    left. reflexivity.
  - intros new Hnew.
    destruct (body_bleed_printed ["GET"; "DELETE"] bp_eps st)
      as [last [Hout Hlast]].
    rewrite Hout in Hnew. apply app_inv_head in Hnew. subst new.
    intros H. apply in_app_or in H as [H|H].
    + apply in_flat_map in H as [kv [_ H]].
      apply bleed_line_method in H as [Heq Hmem].
      injection Heq as Hmeth _. rewrite <- Hmeth in Hmem.
      destruct Hm as [<-|[<-|[]]]; discriminate Hmem.
    + specialize (Hlast _ H). discriminate Hlast.
Qed.

Lemma head_bleed_witness :
  In (FAIL "BODY_BLEED" ["HEAD"; "/api/patients"])
     (printed (snd (body_bleed bleed_methods
                      (index_endpoints [Examples.head_with_body]) initial)))
  /\ forall new,
       printed (snd (body_bleed ["GET"; "DELETE"]
                       (index_endpoints [Examples.head_with_body]) initial))
       = printed initial ++ new ->
       ~ In (FAIL "BODY_BLEED" ["HEAD"; "/api/patients"]) new.
Proof.
  assert (Hbody : ep_requestBody Examples.head_with_body <> None)
    by discriminate.
  exact (head_bleed_only_nextjs (index_endpoints [Examples.head_with_body])
           initial "HEAD" "/api/patients" Examples.head_with_body
           (or_introl eq_refl) (or_introl eq_refl) Hbody).
Defined.

(** X29. The auth check of the three functions.  Without an [auth]
    object (null, or an object without keys) it prints the one failure
    line and raises the counter of the issues by one.  With one it
    never prints a failure line and leaves the counter as it is; it
    runs to its end exactly when the keys that its pass lines subscript
    are there, and then it has printed at least three lines; otherwise
    KeyError ends it after two lines at most. *)
Theorem auth_config_effect (cookie : bool) (auth : option AuthConfig)
    (st : state) :
  let r := auth_config cookie auth st in
  (auth_present auth = false ->
     r = (Some tt, mkState (issues_total st + 1)
                           (printed st ++ [FAIL "NO_AUTH" []])))
  /\ (forall a, auth = Some a -> auth_nonempty a = true ->
        issues_total (snd r) = issues_total st
        /\ (fst r = Some tt <-> shown_keys cookie a = true)
        /\ exists more,
             printed (snd r) = printed st ++ more
             /\ (forall l, In l more -> is_fail l = false)
             /\ (fst r = Some tt -> 3 <= length more)
             /\ (fst r = None -> length more <= 2)).
Proof.
  cbv zeta. split.
  - unfold auth_present, auth_config. intros H.
    destruct auth as [a|]; [rewrite H|]; reflexivity.
  - intros a -> Hne. unfold auth_config, shown_keys. rewrite Hne.
    unfold bind, subscript, ok, warn, skip, ret, raise.
    destruct (auth_tokenType a), (auth_loginEndpoint a),
      (auth_loginBodyFormat a), (auth_emailField a),
      (auth_passwordField a), (blank (auth_defaultEmail a)),
      (auth_defaultPassword a), cookie,
      (blank (auth_authCookieName a));
      cbn [negb andb orb fst snd issues_total printed is_some];
      (split; [reflexivity|]);
      (split; [split; intros H; (reflexivity || discriminate H)|]);
      rewrite <- ?app_assoc;
      first [ eexists; split; [reflexivity|]
            | exists []; split; [rewrite app_nil_r; reflexivity|] ];
      (split;
       [ intros l Hl; simpl in Hl;
         repeat (destruct Hl as [<-|Hl]; [reflexivity|]); destruct Hl
       | split; intros H; first [discriminate H | simpl; lia] ]).
Qed.

Lemma keeps_ret {A} (a : A) : keeps (ret a).
Proof. intros st l H. exact H. Qed.

Lemma keeps_raise {A} : keeps (@raise A).
Proof. intros st l H. exact H. Qed.

Lemma keeps_subscript {A} (o : option A) : keeps (subscript o).
Proof. destruct o; [apply keeps_ret | apply keeps_raise]. Qed.

Lemma keeps_skip : keeps skip.
Proof. apply keeps_ret. Qed.

Lemma keeps_bind {A B} (m : M A) (k : A -> M B) :
  keeps m -> (forall a, keeps (k a)) -> keeps (bind m k).
Proof.
  intros Hm Hk st l H. unfold bind. specialize (Hm st l H).
  destruct (m st) as [[a|] st']; [apply Hk|]; exact Hm.
Qed.

Lemma keeps_issue label args : keeps (issue label args).
Proof. intros st l H. simpl. apply in_or_app. left. exact H. Qed.

Lemma keeps_warn label args : keeps (warn label args).
Proof. intros st l H. simpl. apply in_or_app. left. exact H. Qed.

Lemma keeps_ok args : keeps (ok args).
Proof. intros st l H. simpl. apply in_or_app. left. exact H. Qed.

Lemma keeps_for {A} (xs : list A) (body : A -> M unit) :
  (forall x, keeps (body x)) -> keeps (for_ xs body).
Proof.
  intros Hb. induction xs as [|x xs IH]; simpl.
  - apply keeps_skip.
  - apply keeps_bind; [apply Hb | intros _; exact IH].
Qed.

Lemma keeps_for_fold {A B} (xs : list A) (acc : B) (body : B -> A -> M B) :
  (forall b x, keeps (body b x)) -> keeps (for_fold xs acc body).
Proof.
  intros Hb. revert acc. induction xs as [|x xs IH]; intros acc; simpl.
  - apply keeps_ret.
  - apply keeps_bind; [apply Hb | intros b; apply IH].
Qed.

Lemma keeps_map_m {A B} (f : A -> M B) (xs : list A) :
  (forall x, keeps (f x)) -> keeps (map_m f xs).
Proof.
  intros Hf. induction xs as [|x xs IH]; simpl.
  - apply keeps_ret.
  - apply keeps_bind; [apply Hf | intros y].
    apply keeps_bind; [exact IH | intros ys]. apply keeps_ret.
Qed.

Ltac keeps_step :=
  first
    [ apply keeps_skip | apply keeps_ret | apply keeps_raise
    | apply keeps_subscript | apply keeps_issue
    | apply keeps_warn | apply keeps_ok
    | apply keeps_bind; [|intros ?]
    | apply keeps_for; intros ?
    | apply keeps_for_fold; intros ? ?
    | apply keeps_map_m; intros ?
    | progress cbv zeta
    | match goal with
      | |- keeps (if ?c then _ else _) => destruct c
      | |- keeps (match ?x with _ => _ end) => destruct x
      end ].

Ltac keeps := repeat keeps_step.

Lemma keeps_write_bodies label bp_eps : keeps (write_bodies label bp_eps).
Proof. unfold write_bodies. keeps. Qed.

Lemma keeps_body_bleed methods bp_eps : keeps (body_bleed methods bp_eps).
Proof. unfold body_bleed, bleed_step. keeps. Qed.

Lemma keeps_path_params bp_eps : keeps (path_params bp_eps).
Proof. unfold path_params. keeps. Qed.

Lemma keeps_auth_config cookie auth : keeps (auth_config cookie auth).
Proof. unfold auth_config. keeps. Qed.

Lemma keeps_pages_locators names bad pages :
  keeps (pages_locators names bad pages).
Proof. unfold pages_locators. keeps. Qed.

Lemma keeps_auth_notes_prompts session auth cfs :
  keeps (auth_notes_prompts session auth cfs).
Proof. unfold auth_notes_prompts. keeps. Qed.

Lemma keeps_nextjs_prompts cfs : keeps (nextjs_prompts cfs).
Proof. unfold nextjs_prompts. keeps. Qed.

Lemma emits_here {A B} (l : line) (m : M A) (k : A -> M B) :
  emits l m -> (forall a, keeps (k a)) -> emits l (bind m k).
Proof.
  intros Hm Hk st Hend. unfold bind in *. specialize (Hm st).
  destruct (m st) as [[a|] st'].
  - apply Hk. apply Hm. discriminate.
  - exfalso. apply Hend. reflexivity.
Qed.

Lemma emits_later {A B} (l : line) (m : M A) (k : A -> M B) :
  (forall a, emits l (k a)) -> emits l (bind m k).
Proof.
  intros Hk st Hend. unfold bind in *. destruct (m st) as [[a|] st'].
  - apply Hk. exact Hend.
  - exfalso. apply Hend. reflexivity.
Qed.

Lemma emits_no_auth cookie auth :
  auth_present auth = false ->
  emits (FAIL "NO_AUTH" []) (auth_config cookie auth).
Proof.
  intros H st _. unfold auth_present in H. unfold auth_config.
  destruct auth as [a|]; [rewrite H|]; simpl; apply in_or_app; right;
    left; reflexivity.
Qed.

Lemma emits_validate_nextjs info :
  auth_present (bp_auth (repo_blueprint info)) = false ->
  emits (FAIL "NO_AUTH" []) (validate_nextjs info).
Proof.
  intros H. unfold validate_nextjs. cbv zeta.
  do 6 (apply emits_later; intros _).
  apply emits_here; [apply emits_no_auth, H | intros _].
  apply keeps_bind; [apply keeps_pages_locators | intros _].
  apply keeps_nextjs_prompts.
Qed.

Lemma emits_validate_express info :
  auth_present (bp_auth (repo_blueprint info)) = false ->
  emits (FAIL "NO_AUTH" []) (validate_express info).
Proof.
  intros H. unfold validate_express. cbv zeta.
  do 3 (apply emits_later; intros _).
  apply emits_here; [apply emits_no_auth, H | intros _].
  apply keeps_bind; [apply keeps_path_params | intros _].
  apply keeps_auth_notes_prompts.
Qed.

Lemma emits_validate_remix info :
  auth_present (bp_auth (repo_blueprint info)) = false ->
  emits (FAIL "NO_AUTH" []) (validate_remix info).
Proof.
  intros H. unfold validate_remix. cbv zeta.
  do 3 (apply emits_later; intros _).
  apply emits_here; [apply emits_no_auth, H | intros _].
  apply keeps_bind; [apply keeps_pages_locators | intros _].
  apply keeps_auth_notes_prompts.
Qed.

Lemma keeps_validate_express info : keeps (validate_express info).
Proof.
  unfold validate_express. cbv zeta.
  apply keeps_bind; [keeps | intros _].
  apply keeps_bind; [apply keeps_write_bodies | intros _].
  apply keeps_bind; [apply keeps_body_bleed | intros _].
  apply keeps_bind; [apply keeps_auth_config | intros _].
  apply keeps_bind; [apply keeps_path_params | intros _].
  apply keeps_auth_notes_prompts.
Qed.

Lemma keeps_validate_remix info : keeps (validate_remix info).
Proof.
  unfold validate_remix. cbv zeta.
  apply keeps_bind; [apply keeps_write_bodies | intros _].
  apply keeps_bind; [apply keeps_body_bleed | intros _].
  apply keeps_bind; [apply keeps_path_params | intros _].
  apply keeps_bind; [apply keeps_auth_config | intros _].
  apply keeps_bind; [apply keeps_pages_locators | intros _].
  apply keeps_auth_notes_prompts.
Qed.

Lemma fail_line_fails_run nextjs express remix l :
  In l (printed (final nextjs express remix)) -> is_fail l = true ->
  exit_status nextjs express remix = 1%Z.
Proof.
  intros Hin Hfail. unfold exit_status.
  destruct (outcome nextjs express remix); [|reflexivity].
  pose proof (final_in_step nextjs express remix) as Hstep.
  unfold in_step in Hstep. rewrite Hstep.
  pose proof (count_fail_nonneg (printed (final nextjs express remix))) as Hn.
  destruct (Z.gtb_spec (count_fail (printed (final nextjs express remix))) 0)
    as [_|Hle]; [reflexivity|].
  assert (Hz : count_fail (printed (final nextjs express remix)) = 0%Z)
    by lia.
  pose proof (proj1 (count_fail_zero _) Hz l Hin) as Hno. congruence.
Qed.



End BlueprintValidation.
